(** * News ingestion pipeline: Harvester, Classifier, Crawler

    A shallow embedding of
      - [pipelines/ingestion/collect_naver_news.py] (class [NaverNewsCollector])
      - [pipelines/ingestion/news_crawler.py]       (class [NewsCrawler])
    together with the properties of the pipeline that can be stated on it.

    Conventions.
      - Python [str] values are [string]s holding the UTF-8 encoding of the
        text (every pattern the code searches for is ASCII, so byte-wise
        search and code-point-wise search agree; the white space of
        [str.strip] is matched by its encodings).
      - Python [set]s of strings are [gset string].
      - Integers are [Z]; timestamps are [Z] as well.
      - A psycopg2 connection is a list of writes executed but not yet
        committed, on top of the committed tables of the store.
      - Everything outside the process (search provider, article extractor,
        blocklist file, wall clock, database faults) enters as an argument. *)

From Stdlib Require Import ZArith Lia Bool Ascii.
From stdpp Require Import base option list strings gmap sorting.

Local Open Scope Z_scope.

(** ** Python string primitives used by the pipeline *)

Module PyStr.

(** [s.startswith(p)]. *)
Fixpoint starts_with (p s : string) : bool :=
  match p, s with
  | EmptyString, _ => true
  | String a p', String b s' => if Ascii.eqb a b then starts_with p' s' else false
  | String _ _, EmptyString => false
  end.

(** [needle in hay]: substring test. *)
Fixpoint contains (needle hay : string) : bool :=
  starts_with needle hay
  || match hay with
     | EmptyString => false
     | String _ hay' => contains needle hay'
     end.

(** [s.replace(old, new)] for a non-empty [old]: scan from the left; at an
    occurrence of [old] emit [new] and jump over the occurrence, otherwise
    emit the character.  [skip] counts the characters of an occurrence that
    are still to be jumped over. *)
Fixpoint replace_from (old new : string) (skip : nat) (s : string) : string :=
  match s with
  | EmptyString => EmptyString
  | String c s' =>
      match skip with
      | S k => replace_from old new k s'
      | O =>
          if starts_with old s
          then new +:+ replace_from old new (Nat.pred (String.length old)) s'
          else String c (replace_from old new O s')
      end
  end.

Definition replace (old new s : string) : string := replace_from old new O s.

(** [s.split(sep)] for a non-empty [sep]; [cur] is the piece being read. *)
Fixpoint split_from (sep : string) (skip : nat) (cur : string) (s : string)
  : list string :=
  match s with
  | EmptyString => [cur]
  | String c s' =>
      match skip with
      | S k => split_from sep k cur s'
      | O =>
          if starts_with sep s
          then cur :: split_from sep (Nat.pred (String.length sep)) EmptyString s'
          else split_from sep O (cur +:+ String c EmptyString) s'
      end
  end.

Definition split (sep s : string) : list string := split_from sep O EmptyString s.

(** The characters [str.strip()] removes are those of [str.isspace]:
    U+0009..U+000D, U+001C..U+0020, U+0085, U+00A0, U+1680, U+2000..U+200A,
    U+2028, U+2029, U+202F, U+205F and U+3000.  In UTF-8 they take one, two
    or three bytes. *)

(** U+0009..U+000D and U+001C..U+0020. *)
Definition is_space (c : Ascii.ascii) : bool :=
  let n := Ascii.nat_of_ascii c in
  ((9 <=? n)%nat && (n <=? 13)%nat) || ((28 <=? n)%nat && (n <=? 32)%nat).

(** U+0085 ([C2 85]) and U+00A0 ([C2 A0]). *)
Definition is_space2 (c1 c2 : Ascii.ascii) : bool :=
  let n1 := Ascii.nat_of_ascii c1 in
  let n2 := Ascii.nat_of_ascii c2 in
  (n1 =? 194)%nat && ((n2 =? 133)%nat || (n2 =? 160)%nat).

(** U+1680 ([E1 9A 80]); U+2000..U+200A ([E2 80 80] to [E2 80 8A]), U+2028,
    U+2029 and U+202F ([E2 80 A8], [E2 80 A9], [E2 80 AF]); U+205F
    ([E2 81 9F]); U+3000 ([E3 80 80]). *)
Definition is_space3 (c1 c2 c3 : Ascii.ascii) : bool :=
  let n1 := Ascii.nat_of_ascii c1 in
  let n2 := Ascii.nat_of_ascii c2 in
  let n3 := Ascii.nat_of_ascii c3 in
  ((n1 =? 225)%nat && (n2 =? 154)%nat && (n3 =? 128)%nat)
  || ((n1 =? 226)%nat && (n2 =? 128)%nat
      && (((128 <=? n3)%nat && (n3 <=? 138)%nat)
          || (n3 =? 168)%nat || (n3 =? 169)%nat || (n3 =? 175)%nat))
  || ((n1 =? 226)%nat && (n2 =? 129)%nat && (n3 =? 159)%nat)
  || ((n1 =? 227)%nat && (n2 =? 128)%nat && (n3 =? 128)%nat).

(** [s.lstrip()]: white space is taken off the front, one character of one,
    two or three bytes at a time. *)
Fixpoint lstrip (s : string) : string :=
  match s with
  | EmptyString => EmptyString
  | String c1 s1 =>
      if is_space c1 then lstrip s1
      else
        match s1 with
        | EmptyString => s
        | String c2 s2 =>
            if is_space2 c1 c2 then lstrip s2
            else
              match s2 with
              | EmptyString => s
              | String c3 s3 => if is_space3 c1 c2 c3 then lstrip s3 else s
              end
        end
  end.

(** [s.rstrip()]: the rest is stripped first; a character goes when what
    is left after it is nothing but its own remaining bytes. *)
Fixpoint rstrip (s : string) : string :=
  match s with
  | EmptyString => EmptyString
  | String c s' =>
      match rstrip s' with
      | EmptyString => if is_space c then EmptyString else String c EmptyString
      | String c2 EmptyString =>
          if is_space2 c c2 then EmptyString
          else String c (String c2 EmptyString)
      | String c2 (String c3 EmptyString) =>
          if is_space3 c c2 c3 then EmptyString
          else String c (String c2 (String c3 EmptyString))
      | r => String c r
      end
  end.

Definition strip (s : string) : string := rstrip (lstrip s).

(** Python truthiness of a string. *)
Definition nonempty (s : string) : bool :=
  match s with EmptyString => false | String _ _ => true end.

End PyStr.

(** ** The article store

    Two tables, [naver_news] and [crawled_news], and psycopg2 connections on
    them.  The DDL is not part of the sources; what the code relies on is
    spelled out where it is modelled. *)

Module Store.

(** Record status: the values the code writes into [crawl_status]. *)
Inductive status : Type :=
| pending
| url_filtered
| crawling
| crawl_success
| crawl_failed.

#[global] Instance status_eq_dec : EqDecision status.
Proof. solve_decision. Defined.

(** A row of [naver_news]. *)
Record article : Type := mk_article {
  news_id : Z;
  title : string;
  pub_date : Z;
  url : string;
  search_keyword : string;
  api_request_date : Z;
  crawl_status : status;
  url_filter_version : option string;
  crawl_attempt_count : Z
}.

(** A row of [crawled_news]. *)
Record content : Type := mk_content {
  content_news_id : Z;
  content_text : string;
  content_crawler_version : string;
  content_response_time_ms : Z;
  content_crawled_at : Z
}.

Record tables : Type := mk_tables {
  naver_news : list article;
  crawled_news : list content
}.

(** The parameter dictionary of the Harvester's INSERT
    ([title], [pub_date], [url], [search_keyword], [api_request_date]). *)
Record news_item : Type := mk_news_item {
  item_title : string;
  item_pub_date : Z;
  item_url : string;
  item_search_keyword : string;
  item_api_request_date : Z
}.

(** Exceptions, as far as the handlers of the code tell them apart:
    [except psycopg2.IntegrityError] against [except Exception]. *)
Inductive pyexc : Type :=
| IntegrityError
| OtherException.

#[global] Instance pyexc_eq_dec : EqDecision pyexc.
Proof. solve_decision. Defined.

Inductive outcome (A : Type) : Type :=
| Returned (a : A)
| Raised (e : pyexc).
Arguments Returned {A} a.
Arguments Raised {A} e.

(** The statements the pipeline issues that change a table. *)
Inductive write : Type :=
| InsertNews (item : news_item)
    (* INSERT INTO naver_news (...) VALUES (...) ON CONFLICT (url) DO NOTHING *)
| SetUrlFiltered (version : string) (ids : list Z)
    (* UPDATE naver_news SET crawl_status = 'url_filtered',
       url_filter_version = version WHERE news_id = ANY(ids) *)
| SetFilterVersion (version : string) (ids : list Z)
    (* UPDATE naver_news SET url_filter_version = version
       WHERE news_id = ANY(ids) *)
| SetCrawling (id : Z)
    (* UPDATE naver_news SET crawl_status = 'crawling',
       crawl_attempt_count = crawl_attempt_count + 1 WHERE news_id = id *)
| SetStatus (st : status) (id : Z)
    (* UPDATE naver_news SET crawl_status = st WHERE news_id = id *)
| InsertContent (row : content).
    (* INSERT INTO crawled_news (...) VALUES (...) *)

Definition has_url (u : string) (rows : list article) : bool :=
  existsb (fun r => String.eqb (url r) u) rows.

Definition has_content (id : Z) (rows : list content) : bool :=
  existsb (fun r => Z.eqb (content_news_id r) id) rows.

Definition id_in (id : Z) (ids : list Z) : bool :=
  existsb (fun j => Z.eqb j id) ids.

(** Modelled from the spec: the table definition of [naver_news] is missing.
    "Opaque numeric id": a new record gets an id above every id in the table. *)
Definition fresh_id (rows : list article) : Z :=
  1 + fold_right Z.max 0 (map news_id rows).

(** Modelled from the spec: the table definition of [naver_news] is missing.
    A record the Harvester inserts starts with status [pending], no filter
    version and an attempt counter of zero; the columns the INSERT names come
    from the item. *)
Definition new_article (id : Z) (item : news_item) : article :=
  {| news_id := id;
     title := item_title item;
     pub_date := item_pub_date item;
     url := item_url item;
     search_keyword := item_search_keyword item;
     api_request_date := item_api_request_date item;
     crawl_status := pending;
     url_filter_version := None;
     crawl_attempt_count := 0 |}.

Definition set_url_filtered (version : string) (r : article) : article :=
  {| news_id := news_id r; title := title r; pub_date := pub_date r;
     url := url r; search_keyword := search_keyword r;
     api_request_date := api_request_date r;
     crawl_status := url_filtered;
     url_filter_version := Some version;
     crawl_attempt_count := crawl_attempt_count r |}.

Definition set_filter_version (version : string) (r : article) : article :=
  {| news_id := news_id r; title := title r; pub_date := pub_date r;
     url := url r; search_keyword := search_keyword r;
     api_request_date := api_request_date r;
     crawl_status := crawl_status r;
     url_filter_version := Some version;
     crawl_attempt_count := crawl_attempt_count r |}.

Definition set_crawling (r : article) : article :=
  {| news_id := news_id r; title := title r; pub_date := pub_date r;
     url := url r; search_keyword := search_keyword r;
     api_request_date := api_request_date r;
     crawl_status := crawling;
     url_filter_version := url_filter_version r;
     crawl_attempt_count := crawl_attempt_count r + 1 |}.

Definition set_status (st : status) (r : article) : article :=
  {| news_id := news_id r; title := title r; pub_date := pub_date r;
     url := url r; search_keyword := search_keyword r;
     api_request_date := api_request_date r;
     crawl_status := st;
     url_filter_version := url_filter_version r;
     crawl_attempt_count := crawl_attempt_count r |}.

(** [UPDATE naver_news SET ... WHERE news_id = ANY(ids)]. *)
Definition update_where (ids : list Z) (f : article -> article)
  (rows : list article) : list article :=
  map (fun r => if id_in (news_id r) ids then f r else r) rows.

(** The effect of one statement on the tables.  [ON CONFLICT (url) DO
    NOTHING] is the only conflict rule a statement carries itself; the
    duplicate-key error of [crawled_news] is raised when the statement is
    executed, see [Crawler.worker_step]. *)
Definition apply_write (w : write) (t : tables) : tables :=
  match w with
  | InsertNews item =>
      if has_url (item_url item) (naver_news t) then t
      else {| naver_news :=
                naver_news t ++ [new_article (fresh_id (naver_news t)) item];
              crawled_news := crawled_news t |}
  | SetUrlFiltered v ids =>
      {| naver_news := update_where ids (set_url_filtered v) (naver_news t);
         crawled_news := crawled_news t |}
  | SetFilterVersion v ids =>
      {| naver_news := update_where ids (set_filter_version v) (naver_news t);
         crawled_news := crawled_news t |}
  | SetCrawling id =>
      {| naver_news := update_where [id] set_crawling (naver_news t);
         crawled_news := crawled_news t |}
  | SetStatus st id =>
      {| naver_news := update_where [id] (set_status st) (naver_news t);
         crawled_news := crawled_news t |}
  | InsertContent row =>
      {| naver_news := naver_news t;
         crawled_news := crawled_news t ++ [row] |}
  end.

Definition apply_writes (ws : list write) (t : tables) : tables :=
  fold_left (fun t w => apply_write w t) ws t.

(** A connection: the committed tables and the statements of the open
    transaction.  [view] is what the connection itself reads. *)
Record conn : Type := mk_conn {
  committed : tables;
  uncommitted : list write
}.

Definition connect (t : tables) : conn :=
  {| committed := t; uncommitted := [] |}.

Definition view (c : conn) : tables :=
  apply_writes (uncommitted c) (committed c).

Definition execute (w : write) (c : conn) : conn :=
  {| committed := committed c; uncommitted := uncommitted c ++ [w] |}.

Definition commit (c : conn) : conn :=
  {| committed := view c; uncommitted := [] |}.

Definition rollback (c : conn) : conn :=
  {| committed := committed c; uncommitted := [] |}.

(** [conn.close()]: what was not committed is gone. *)
Definition close (c : conn) : tables := committed c.

(** Code that runs on one connection and may raise. *)
Definition db (A : Type) : Type := conn -> conn * outcome A.

#[global] Instance db_ret : MRet db :=
  fun A a c => (c, Returned a).

#[global] Instance db_bind : MBind db :=
  fun A B k m c =>
    match m c with
    | (c', Returned a) => k a c'
    | (c', Raised e) => (c', Raised e)
    end.

Definition raise {A : Type} (e : pyexc) : db A :=
  fun c => (c, Raised e).

(** [try: body except Exception as e: handler(e)]. *)
Definition try_except {A : Type} (body : db A) (handler : pyexc -> db A) : db A :=
  fun c =>
    match body c with
    | (c', Returned a) => (c', Returned a)
    | (c', Raised e) => handler e c'
    end.

(** [cursor.execute] of a statement that may fail. *)
Definition cursor_execute (fault : option pyexc) (w : write) : db unit :=
  fun c =>
    match fault with
    | Some e => (c, Raised e)
    | None => (execute w c, Returned tt)
    end.

Definition conn_commit (fault : option pyexc) : db unit :=
  fun c =>
    match fault with
    | Some e => (c, Raised e)
    | None => (commit c, Returned tt)
    end.

Definition conn_rollback : db unit :=
  fun c => (rollback c, Returned tt).

(** [cursor.execute] of a SELECT followed by [cursor.fetchall()]. *)
Definition cursor_select {A : Type} (fault : option pyexc) (query : tables -> A)
  : db A :=
  fun c =>
    match fault with
    | Some e => (c, Raised e)
    | None => (c, Returned (query (view c)))
    end.

(** Number of records of a URL, of content rows of an article. *)
Definition count_url (u : string) (t : tables) : nat :=
  length (filter (fun r => url r = u) (naver_news t)).

Definition count_content (id : Z) (t : tables) : nat :=
  length (filter (fun r => content_news_id r = id) (crawled_news t)).

Definition find_article (id : Z) (t : tables) : option article :=
  find (fun r => Z.eqb (news_id r) id) (naver_news t).

Definition status_of (id : Z) (t : tables) : option status :=
  crawl_status <$> find_article id t.

End Store.

(** ** Harvester: [collect_naver_news.py], class [NaverNewsCollector] *)

Module Harvester.
Import Store.

(** An item of the provider's JSON answer: keys [title], [pubDate], [link]. *)
Record api_item : Type := mk_api_item {
  api_title : string;
  api_pubDate : string;
  api_link : string
}.

(** What the collector takes from outside the process. *)
Record world : Type := mk_world {
  (* [requests.get(...)], [raise_for_status()], [response.json()] for
     (query, display, start): [None] when one of them raises, otherwise the
     value of the key [items] of the body, [None] when the key is absent. *)
  requests_get : string -> Z -> Z -> option (option (list api_item));
  (* [email.utils.parsedate_to_datetime]; [None] when it raises. *)
  parsedate_to_datetime : string -> option Z;
  (* [datetime.now()] as read while the item is parsed. *)
  datetime_now : api_item -> Z;
  (* [CURRENT_TIMESTAMP] of the store, in seconds. *)
  current_timestamp : Z;
  (* [cursor.execute] of the INSERT raises for this item. *)
  insert_fault : news_item -> bool;
  (* [conn.commit()] raises after this batch. *)
  commit_fault : list news_item -> bool
}.

(** The object: [self.conn] and [self.collected_urls]. *)
Record NaverNewsCollector : Type := mk_collector {
  conn_of : conn;
  collected_urls : gset string
}.

Definition three_days : Z := 3 * 24 * 60 * 60.

(** [get_existing_urls]: URLs retrieved within the last three days. *)
Definition get_existing_urls (w : world) (self : NaverNewsCollector) : gset string :=
  list_to_set
    (map url
       (filter (fun r => current_timestamp w - three_days < api_request_date r)
               (naver_news (view (conn_of self))))).

(** [search_news]: a failed request is logged and answered with [None]. *)
Definition search_news (w : world) (query : string) (display start : Z)
  : option (option (list api_item)) :=
  match requests_get w query display start with
  | Some body => Some body
  | None => None
  end.

(** [re.sub('<.*?>', '', s)]: [tag_end s] is the index of the first [>] of
    [s] when no newline comes before it ([.] does not match a newline). *)
Fixpoint tag_end (s : string) : option nat :=
  match s with
  | EmptyString => None
  | String c s' =>
      if Ascii.eqb c ">"%char then Some O
      else if Ascii.eqb c (Ascii.ascii_of_nat 10) then None
      else option_map S (tag_end s')
  end.

Fixpoint strip_tags_from (skip : nat) (s : string) : string :=
  match s with
  | EmptyString => EmptyString
  | String c s' =>
      match skip with
      | S k => strip_tags_from k s'
      | O =>
          if Ascii.eqb c "<"%char
          then match tag_end s' with
               | Some n => strip_tags_from (S n) s'
               | None => String c (strip_tags_from O s')
               end
          else String c (strip_tags_from O s')
      end
  end.

Definition strip_tags (s : string) : string := strip_tags_from O s.

(** [parse_item]. *)
Definition parse_item (w : world) (item : api_item) (search_keyword : string)
  : outcome news_item :=
  let title := strip_tags (api_title item) in
  match parsedate_to_datetime w (api_pubDate item) with
  | None => Raised OtherException
  | Some pub_date =>
      Returned {| item_title := title;
                  item_pub_date := pub_date;
                  item_url := api_link item;
                  item_search_keyword := search_keyword;
                  item_api_request_date := datetime_now w item |}
  end.

(** The INSERT of [insert_news] and its [cursor.rowcount]: one row when the
    URL is new to the connection's view, none on a conflict. *)
Definition execute_insert (w : world) (item : news_item) : db Z :=
  fun c =>
    if insert_fault w item then (c, Raised OtherException)
    else if has_url (item_url item) (naver_news (view c)) then (c, Returned 0)
    else (execute (InsertNews item) c, Returned 1).

(** The body of the [for] loop of [insert_news]. *)
Definition insert_item (w : world) (item : news_item) (inserted : Z) : db Z :=
  try_except
    (rowcount ← execute_insert w item; mret (inserted + rowcount))
    (fun _ => conn_rollback ;; mret inserted).

Fixpoint insert_loop (w : world) (news_items : list news_item) (inserted : Z)
  : db Z :=
  match news_items with
  | [] => mret inserted
  | item :: rest =>
      inserted' ← insert_item w item inserted;
      insert_loop w rest inserted'
  end.

(** [insert_news]. *)
Definition insert_news (w : world) (news_items : list news_item) : db Z :=
  match news_items with
  | [] => mret 0
  | _ =>
      inserted ← insert_loop w news_items 0;
      conn_commit (if commit_fault w news_items then Some OtherException else None) ;;
      mret inserted
  end.

(** The lines [collect] writes to the log. *)
Inductive log_line : Type :=
| LogStart (total : Z)
| LogNoMoreResults
| LogProgress (collected inserted inserted_total : Z)
| LogNoNewData
| LogApiLimit
| LogDone (collected inserted_total : Z).

(** The variables of [collect]. *)
Record harvest : Type := mk_harvest {
  self : NaverNewsCollector;
  collected : Z;
  inserted_total : Z;
  start : Z;
  logged : list log_line
}.

(** "Deduplicate and parse": the inner [for] loop of [collect]. *)
Fixpoint dedup_parse (w : world) (query : string) (existing_urls : gset string)
  (items : list api_item) (seen : gset string) (new_items : list news_item)
  : gset string * outcome (list news_item) :=
  match items with
  | [] => (seen, Returned new_items)
  | item :: rest =>
      let u := api_link item in
      if bool_decide (u ∈ existing_urls) || bool_decide (u ∈ seen)
      then dedup_parse w query existing_urls rest seen new_items
      else
        match parse_item w item query with
        | Raised e => (seen, Raised e)
        | Returned parsed =>
            dedup_parse w query existing_urls rest ({[u]} ∪ seen)
              (new_items ++ [parsed])
        end
  end.

Inductive control : Type :=
| Next
| Break
| Propagate (e : pyexc).

(** One pass through the body of the [while] loop. *)
Definition iteration (w : world) (query : string) (total : Z)
  (existing_urls : gset string) (h : harvest) : harvest * control :=
  let display := Z.min 100 (total - collected h) in
  match search_news w query display (start h) with
  | None | Some None | Some (Some []) =>
      (mk_harvest (self h) (collected h) (inserted_total h) (start h)
         (logged h ++ [LogNoMoreResults]), Break)
  | Some (Some items) =>
      match dedup_parse w query existing_urls items (collected_urls (self h)) [] with
      | (seen, Raised e) =>
          (mk_harvest (mk_collector (conn_of (self h)) seen)
             (collected h) (inserted_total h) (start h) (logged h), Propagate e)
      | (seen, Returned new_items) =>
          let prev_inserted_total := inserted_total h in
          match insert_news w new_items (conn_of (self h)) with
          | (c, Raised e) =>
              (mk_harvest (mk_collector c seen)
                 (collected h) (inserted_total h) (start h) (logged h), Propagate e)
          | (c, Returned inserted) =>
              let inserted_total' := inserted_total h + inserted in
              let collected' := collected h + Z.of_nat (length items) in
              let log1 := logged h
                          ++ [LogProgress collected' inserted inserted_total'] in
              if inserted_total' =? prev_inserted_total
              then (mk_harvest (mk_collector c seen) collected' inserted_total'
                      (start h) (log1 ++ [LogNoNewData]), Break)
              else
                let start' := start h + display in
                if 1000 <? start'
                then (mk_harvest (mk_collector c seen) collected' inserted_total'
                        start' (log1 ++ [LogApiLimit]), Break)
                else (mk_harvest (mk_collector c seen) collected' inserted_total'
                        start' log1, Next)
          end
      end
  end.

(** The [while collected < total] loop; [None] when [fuel] runs out. *)
Fixpoint collect_loop (fuel : nat) (w : world) (query : string) (total : Z)
  (existing_urls : gset string) (h : harvest) : option (harvest * option pyexc) :=
  if collected h <? total then
    match fuel with
    | O => None
    | S fuel' =>
        match iteration w query total existing_urls h with
        | (h', Next) => collect_loop fuel' w query total existing_urls h'
        | (h', Break) => Some (h', None)
        | (h', Propagate e) => Some (h', Some e)
        end
    end
  else Some (h, None).

(** The offset grows by at least one per page and the loop leaves once it
    is above 1000, so this many passes are enough ([collect_total]). *)
Definition max_pages : nat := 1000.

(** [collect]: the object afterwards, the log, and the value returned or the
    exception propagated. *)
Definition collect (w : world) (obj : NaverNewsCollector) (query : string)
  (total : Z) : option (NaverNewsCollector * list log_line * outcome Z) :=
  let existing_urls := get_existing_urls w obj in
  let h0 := mk_harvest (mk_collector (conn_of obj) ∅) 0 0 1 [LogStart total] in
  match collect_loop max_pages w query total existing_urls h0 with
  | None => None
  | Some (h, Some e) => Some (self h, logged h, Raised e)
  | Some (h, None) =>
      Some (self h,
            logged h ++ [LogDone (collected h) (inserted_total h)],
            Returned (inserted_total h))
  end.

(** The [LogProgress] lines of a log, one per completed page. *)
Definition progress_lines (log : list log_line) : list (Z * Z * Z) :=
  omap (fun l => match l with
                 | LogProgress c i t => Some (c, i, t)
                 | _ => None
                 end) log.

End Harvester.

(** ** Classifier and Crawler: [news_crawler.py], class [NewsCrawler] *)

Module Crawler.
Import Store.

(** The object built by [__init__]. *)
Record NewsCrawler : Type := mk_crawler {
  filter_file_path : string;
  crawler_version : string;
  filter_version : string;
  filtered_domains : gset string;
  max_workers : Z
}.

(** The statements of [filter_urls] that can raise. *)
Inductive filter_op : Type :=
| SelectPending
| UpdateFiltered
| UpdatePassed
| CommitPass.

(** What the classifier takes from outside the process. *)
Record world : Type := mk_world {
  (* [open(path, 'r', encoding='utf-8')] and the lines its iteration yields;
     [None] when opening or reading raises. *)
  open_lines : string -> option (list string);
  (* [urllib.parse.urlparse(url).netloc]; [None] when [urlparse] raises. *)
  urlparse_netloc : string -> option string;
  (* the exception a statement of [filter_urls] raises, if any *)
  filter_fault : filter_op -> option pyexc
}.

(** [_extract_filter_version]: [split] and [replace] cannot raise on a
    string, the fallback ['v1.00'] is kept for the shape of the code. *)
Definition _extract_filter_version (file_path : string) : string :=
  match last (PyStr.split "_v" file_path) with
  | Some piece => "v" +:+ PyStr.replace ".txt" "" piece
  | None => "v1.00"
  end.

(** The normalisation both the blocklist lines and the hosts go through:
    [.replace('www.', '')]. *)
Definition strip_www (s : string) : string := PyStr.replace "www." "" s.

(** [_load_filter_domains]. *)
Definition _load_filter_domains (w : world) (file_path : string) : gset string :=
  match open_lines w file_path with
  | Some lines =>
      list_to_set
        (map (fun line => strip_www (PyStr.strip line))
             (filter (fun line => PyStr.nonempty (PyStr.strip line) = true) lines))
  | None => ∅
  end.

(** [__init__]. *)
Definition init (w : world) (filter_file_path crawler_version : string)
  (max_workers : Z) : NewsCrawler :=
  {| filter_file_path := filter_file_path;
     crawler_version := crawler_version;
     filter_version := _extract_filter_version filter_file_path;
     filtered_domains := _load_filter_domains w filter_file_path;
     max_workers := max_workers |}.

(** The test under [any(...)]: [fd in domain or domain in fd]. *)
Definition domain_match (domain fd : string) : bool :=
  PyStr.contains fd domain || PyStr.contains domain fd.

(** [_is_url_filtered]. *)
Definition _is_url_filtered (w : world) (self : NewsCrawler) (u : string) : bool :=
  match urlparse_netloc w u with
  | Some netloc =>
      let domain := strip_www netloc in
      existsb (domain_match domain) (elements (filtered_domains self))
  | None => false
  end.

Definition by_news_id_desc : relation article :=
  fun a b => news_id b <= news_id a.

#[global] Instance by_news_id_desc_dec : RelDecision by_news_id_desc.
Proof. intros a b. unfold by_news_id_desc. apply _. Defined.

Definition by_pub_date_desc : relation article :=
  fun a b => pub_date b <= pub_date a.

#[global] Instance by_pub_date_desc_dec : RelDecision by_pub_date_desc.
Proof. intros a b. unfold by_pub_date_desc. apply _. Defined.

(** [SELECT news_id, url FROM naver_news WHERE crawl_status = 'pending'
    ORDER BY news_id DESC]. *)
Definition select_pending (t : tables) : list (Z * string) :=
  map (fun r => (news_id r, url r))
      (merge_sort by_news_id_desc
         (filter (fun r => crawl_status r = pending) (naver_news t))).

(** The classification loop: [filtered_ids] and [passed_ids]. *)
Fixpoint classify (w : world) (self : NewsCrawler) (news_list : list (Z * string))
  (filtered_ids passed_ids : list Z) : list Z * list Z :=
  match news_list with
  | [] => (filtered_ids, passed_ids)
  | (id, u) :: rest =>
      if _is_url_filtered w self u
      then classify w self rest (filtered_ids ++ [id]) passed_ids
      else classify w self rest filtered_ids (passed_ids ++ [id])
  end.

Definition when (b : bool) (m : db unit) : db unit :=
  if b then m else mret tt.

Definition not_empty {A : Type} (l : list A) : bool :=
  match l with [] => false | _ :: _ => true end.

(** The [try] block of [filter_urls]. *)
Definition filter_urls_try (w : world) (self : NewsCrawler) : db Z :=
  news_list ← cursor_select (filter_fault w SelectPending) select_pending;
  if not_empty news_list then
    let '(filtered_ids, passed_ids) := classify w self news_list [] [] in
    when (not_empty filtered_ids)
      (cursor_execute (filter_fault w UpdateFiltered)
         (SetUrlFiltered (filter_version self) filtered_ids)) ;;
    when (not_empty passed_ids)
      (cursor_execute (filter_fault w UpdatePassed)
         (SetFilterVersion (filter_version self) passed_ids)) ;;
    conn_commit (filter_fault w CommitPass) ;;
    mret (Z.of_nat (length filtered_ids))
  else mret 0.

(** [filter_urls]: its own connection, [except: rollback; raise], and the
    [finally] that closes the connection. *)
Definition filter_urls (w : world) (self : NewsCrawler) (t : tables)
  : tables * outcome Z :=
  let '(c, r) :=
    try_except (filter_urls_try w self)
               (fun e => conn_rollback ;; raise e)
               (connect t) in
  (close c, r).

(** *** The crawl of one record *)

(** The database calls of [_process_single_news] that can raise: the two
    before the [try], those of the [try] block, and the [conn.rollback()] of
    each handler. *)
Inductive crawl_op : Type :=
| Connect              (* self._get_db_connection() *)
| OpenCursor           (* conn.cursor() *)
| ClaimUpdate
| ClaimCommit
| ContentInsert
| SuccessUpdate
| SuccessCommit
| RetryUpdate
| RetryCommit
| FailedUpdate
| FailedCommit
| IntegrityRollback    (* conn.rollback() under except psycopg2.IntegrityError *)
| ErrorRollback.       (* conn.rollback() under except Exception *)

(** What one call of [_process_single_news] takes from outside. *)
Record task_world : Type := mk_task_world {
  (* [Article(url, language='ko')], [download()], [parse()], [.text];
     [None] when one of them raises *)
  newspaper_text : string -> option string;
  (* [int((time.time() - start_time) * 1000)] *)
  elapsed_ms : Z;
  (* [datetime.now()] at the INSERT *)
  datetime_now : Z;
  (* the exception a database call raises, if any *)
  crawl_fault : crawl_op -> option pyexc
}.

(** [crawl_article]. *)
Definition crawl_article (tw : task_world) (u : string) : option string * Z :=
  match newspaper_text tw u with
  | Some raw =>
      let text := PyStr.strip raw in
      (if PyStr.nonempty text then Some text else None, elapsed_ms tw)
  | None => (None, elapsed_ms tw)
  end.

(** How a call of [_process_single_news] ends: with ['success'], with
    ['failed'], or with an exception that leaves the function. *)
Inductive crawl_result : Type :=
| success
| failed
| raised (e : pyexc).

#[global] Instance crawl_result_eq_dec : EqDecision crawl_result.
Proof. solve_decision. Defined.

(** Where a call of [_process_single_news] stands: the statement it
    executes next. *)
Inductive pc : Type :=
| AtClaim              (* UPDATE ... SET crawl_status = 'crawling' *)
| AtClaimCommit        (* conn.commit() *)
| AtFetch              (* self.crawl_article(url) *)
| AtInsert (text : string) (response_time_ms : Z)
                       (* INSERT INTO crawled_news *)
| AtSuccessUpdate      (* UPDATE ... SET crawl_status = 'crawl_success' *)
| AtSuccessCommit      (* conn.commit(); return 'success' *)
| AtIntegrityRollback  (* except psycopg2.IntegrityError: conn.rollback() *)
| AtRetryUpdate        (* UPDATE ... SET crawl_status = 'crawl_success' *)
| AtRetryCommit        (* conn.commit(); return 'success' *)
| AtFailedUpdate       (* UPDATE ... SET crawl_status = 'crawl_failed' *)
| AtFailedCommit       (* conn.commit(); return 'failed' *)
| AtErrorRollback      (* except Exception: conn.rollback(); return 'failed' *)
| Finished (result : crawl_result).

(** The two calls before the [try]: an exception of [_get_db_connection()]
    or of [conn.cursor()] leaves the function at once. *)
Definition enter (tw : task_world) : pc :=
  match crawl_fault tw Connect with
  | Some e => Finished (raised e)
  | None =>
      match crawl_fault tw OpenCursor with
      | Some e => Finished (raised e)
      | None => AtClaim
      end
  end.

(** A call in progress: [news_data], the position, the open transaction of
    its connection, and its surroundings. *)
Record worker : Type := mk_worker {
  task_id : Z;
  task_url : string;
  task_title : string;
  at_pc : pc;
  txn : list write;
  surroundings : task_world
}.

Definition start_worker (news_data : Z * string * string) (tw : task_world)
  : worker :=
  let '(id, u, ttl) := news_data in
  {| task_id := id; task_url := u; task_title := ttl;
     at_pc := enter tw; txn := []; surroundings := tw |}.

Definition jump (p : pc) (w : worker) : worker :=
  {| task_id := task_id w; task_url := task_url w; task_title := task_title w;
     at_pc := p; txn := txn w; surroundings := surroundings w |}.

(** A statement executed inside the open transaction. *)
Definition stage (wr : write) (p : pc) (w : worker) : worker :=
  {| task_id := task_id w; task_url := task_url w; task_title := task_title w;
     at_pc := p; txn := txn w ++ [wr]; surroundings := surroundings w |}.

(** The end of the open transaction, by [conn.commit()] or by
    [conn.rollback()]; what differs is whether its statements reach the
    tables, which [worker_step] decides. *)
Definition end_txn (p : pc) (w : worker) : worker :=
  {| task_id := task_id w; task_url := task_url w; task_title := task_title w;
     at_pc := p; txn := []; surroundings := surroundings w |}.

(** The handler an exception reaches from inside the inner [try]. *)
Definition inner_handler (e : pyexc) : pc :=
  match e with
  | IntegrityError => AtIntegrityRollback
  | OtherException => AtErrorRollback
  end.

(** Modelled from the spec: the table definitions are missing.  A row a
    transaction has updated stays locked until that transaction ends, and
    a second writer of the row waits ("relies on the store's own
    conflict/constraint semantics"). *)
Definition writes_article (id : Z) (wr : write) : bool :=
  match wr with
  | SetUrlFiltered _ ids | SetFilterVersion _ ids => id_in id ids
  | SetCrawling j | SetStatus _ j => Z.eqb j id
  | InsertNews _ | InsertContent _ => false
  end.

Definition locks_article (id : Z) (ws : list write) : bool :=
  existsb (writes_article id) ws.

(** Modelled from the spec: the table definitions are missing.  "At most
    one crawled-content record per article id": an INSERT of a key another
    open transaction has inserted waits for that transaction, and an INSERT
    of a key that is there raises [IntegrityError]. *)
Definition inserts_content (id : Z) (wr : write) : bool :=
  match wr with
  | InsertContent row => Z.eqb (content_news_id row) id
  | _ => false
  end.

Definition locks_content (id : Z) (ws : list write) : bool :=
  existsb (inserts_content id) ws.

(** One database call or one fetch of [_process_single_news].  [others] is
    what other connections have executed and not committed; the result is
    [None] when the call waits for one of them, and when the function has
    returned or raised.  [cursor.close()] and [conn.close()] of the
    [finally] are taken not to fail. *)
Definition worker_step (self : NewsCrawler) (others : list write)
  (w : worker) (t : tables) : option (worker * tables) :=
  let id := task_id w in
  let fault := crawl_fault (surroundings w) in
  match at_pc w with
  | AtClaim =>
      match fault ClaimUpdate with
      | Some _ => Some (jump AtErrorRollback w, t)
      | None =>
          if locks_article id others then None
          else Some (stage (SetCrawling id) AtClaimCommit w, t)
      end
  | AtClaimCommit =>
      match fault ClaimCommit with
      | Some _ => Some (jump AtErrorRollback w, t)
      | None => Some (end_txn AtFetch w, apply_writes (txn w) t)
      end
  | AtFetch =>
      match crawl_article (surroundings w) (task_url w) with
      | (Some text, response_time_ms) =>
          Some (jump (AtInsert text response_time_ms) w, t)
      | (None, _) => Some (jump AtFailedUpdate w, t)
      end
  | AtInsert text response_time_ms =>
      match fault ContentInsert with
      | Some e => Some (jump (inner_handler e) w, t)
      | None =>
          if locks_content id others then None
          else if has_content id (crawled_news (apply_writes (txn w) t))
          then Some (jump AtIntegrityRollback w, t)
          else Some (stage (InsertContent
                              {| content_news_id := id;
                                 content_text := text;
                                 content_crawler_version := crawler_version self;
                                 content_response_time_ms := response_time_ms;
                                 content_crawled_at :=
                                   datetime_now (surroundings w) |})
                           AtSuccessUpdate w, t)
      end
  | AtSuccessUpdate =>
      match fault SuccessUpdate with
      | Some e => Some (jump (inner_handler e) w, t)
      | None =>
          if locks_article id others then None
          else Some (stage (SetStatus crawl_success id) AtSuccessCommit w, t)
      end
  | AtSuccessCommit =>
      match fault SuccessCommit with
      | Some e => Some (jump (inner_handler e) w, t)
      | None => Some (end_txn (Finished success) w, apply_writes (txn w) t)
      end
  | AtIntegrityRollback =>
      (* an exception raised inside the inner handler is caught by the
         outer [except Exception] *)
      match fault IntegrityRollback with
      | Some _ => Some (jump AtErrorRollback w, t)
      | None => Some (end_txn AtRetryUpdate w, t)
      end
  | AtRetryUpdate =>
      match fault RetryUpdate with
      | Some _ => Some (jump AtErrorRollback w, t)
      | None =>
          if locks_article id others then None
          else Some (stage (SetStatus crawl_success id) AtRetryCommit w, t)
      end
  | AtRetryCommit =>
      match fault RetryCommit with
      | Some _ => Some (jump AtErrorRollback w, t)
      | None => Some (end_txn (Finished success) w, apply_writes (txn w) t)
      end
  | AtFailedUpdate =>
      match fault FailedUpdate with
      | Some _ => Some (jump AtErrorRollback w, t)
      | None =>
          if locks_article id others then None
          else Some (stage (SetStatus crawl_failed id) AtFailedCommit w, t)
      end
  | AtFailedCommit =>
      match fault FailedCommit with
      | Some _ => Some (jump AtErrorRollback w, t)
      | None => Some (end_txn (Finished failed) w, apply_writes (txn w) t)
      end
  | AtErrorRollback =>
      (* an exception raised inside the outer handler leaves the function;
         the [finally] closes the connection, and with it the transaction *)
      match fault ErrorRollback with
      | Some e => Some (end_txn (Finished (raised e)) w, t)
      | None => Some (end_txn (Finished failed) w, t)
      end
  | Finished _ => None
  end.

(** A call running with no other connection holding anything. *)
Fixpoint run_alone (fuel : nat) (self : NewsCrawler) (w : worker) (t : tables)
  : worker * tables :=
  match fuel with
  | O => (w, t)
  | S fuel' =>
      match worker_step self [] w t with
      | Some (w', t') => run_alone fuel' self w' t'
      | None => (w, t)
      end
  end.

(** The longest path through [_process_single_news] has ten calls. *)
Definition longest_path : nat := 10.

Definition result_of (w : worker) : option crawl_result :=
  match at_pc w with
  | Finished r => Some r
  | _ => None
  end.

(** [_process_single_news], run from start to return on the tables [t]. *)
Definition _process_single_news (self : NewsCrawler) (tw : task_world)
  (news_data : Z * string * string) (t : tables) : tables * option crawl_result :=
  let '(w, t') := run_alone longest_path self (start_worker news_data tw) t in
  (t', result_of w).

(** [SELECT news_id, url, title FROM naver_news WHERE crawl_status =
    'pending' AND url_filter_version IS NOT NULL ORDER BY pub_date DESC]. *)
Definition select_eligible (t : tables) : list (Z * string * string) :=
  map (fun r => (news_id r, url r, title r))
      (merge_sort by_pub_date_desc
         (filter (fun r => crawl_status r = pending
                           ∧ is_Some (url_filter_version r))
                 (naver_news t))).

(** The pool of [crawl_news], one task after the other in the order of
    submission.  The tasks of one run have different ids and each writes
    only rows of its own id, so the order does not show in the tables.
    Every task is submitted before a result is read, and leaving the
    [with] block waits for all of them, so every task runs, also when one
    of them raises.  The results come in the order of completion. *)
Fixpoint run_tasks (self : NewsCrawler) (tws : Z -> task_world)
  (news_list : list (Z * string * string)) (t : tables)
  : tables * list (option crawl_result) :=
  match news_list with
  | [] => (t, [])
  | news_data :: rest =>
      let '(t', result) :=
        _process_single_news self (tws (fst (fst news_data))) news_data t in
      let '(t'', results) := run_tasks self tws rest t' in
      (t'', result :: results)
  end.

(** The loop over [as_completed]: [future.result()] raises what the task
    raised, and the counts are lost with it. *)
Fixpoint tally (results : list (option crawl_result))
  (success_count failed_count : Z) : outcome (Z * Z) :=
  match results with
  | [] => Returned (success_count, failed_count)
  | Some (raised e) :: _ => Raised e
  | Some success :: rest => tally rest (success_count + 1) failed_count
  | _ :: rest => tally rest success_count (failed_count + 1)
  end.

(** [crawl_news]; [select_fault] is the exception of its SELECT, if any
    (or of the connection and the cursor before it: either way the function
    raises with nothing done).  [ThreadPoolExecutor(max_workers=n)] raises
    [ValueError] for [n <= 0]; an exception inside the [try] is logged and
    raised again. *)
Definition crawl_news (self : NewsCrawler) (tws : Z -> task_world)
  (select_fault : option pyexc) (t : tables) : tables * outcome (Z * Z) :=
  match select_fault with
  | Some e => (t, Raised e)
  | None =>
      let news_list := select_eligible t in
      if not_empty news_list then
        if max_workers self <=? 0 then (t, Raised OtherException)
        else
          let '(t', results) := run_tasks self tws news_list t in
          (t', tally results 0 0)
      else (t, Returned (0, 0))
  end.

(** [run]: the filter pass, then the crawl; the counts are those of the
    summary line it logs. *)
Definition run (w : world) (self : NewsCrawler) (tws : Z -> task_world)
  (select_fault : option pyexc) (t : tables) : tables * outcome (Z * Z * Z) :=
  match filter_urls w self t with
  | (t1, Raised e) => (t1, Raised e)
  | (t1, Returned filtered_count) =>
      match crawl_news self tws select_fault t1 with
      | (t2, Raised e) => (t2, Raised e)
      | (t2, Returned (success_count, failed_count)) =>
          (t2, Returned (filtered_count, success_count, failed_count))
      end
  end.

End Crawler.

(** ** Two calls of [_process_single_news] on the same article

    Two workers, each with a connection of its own, take turns one database
    call at a time; a schedule says whose turn it is. *)

Module Race.
Import Store Crawler.

Inductive side : Type :=
| First
| Second.

Record system : Type := mk_system {
  first : worker;
  second : worker;
  shared : tables
}.

Definition system_step (self : NewsCrawler) (who : side) (s : system)
  : option system :=
  match who with
  | First =>
      match worker_step self (txn (second s)) (first s) (shared s) with
      | Some (w, t) => Some (mk_system w (second s) t)
      | None => None
      end
  | Second =>
      match worker_step self (txn (first s)) (second s) (shared s) with
      | Some (w, t) => Some (mk_system (first s) w t)
      | None => None
      end
  end.

(** The system after the turns of [schedule]; [None] when a turn is given
    to a worker that waits or has returned. *)
Fixpoint run_schedule (self : NewsCrawler) (schedule : list side) (s : system)
  : option system :=
  match schedule with
  | [] => Some s
  | who :: rest =>
      match system_step self who s with
      | Some s' => run_schedule self rest s'
      | None => None
      end
  end.

Definition both_returned (s : system) : Prop :=
  is_Some (result_of (first s)) ∧ is_Some (result_of (second s)).

(** Both workers were handed the same [news_data]. *)
Definition race_start (news_data : Z * string * string)
  (tw1 tw2 : task_world) (t : tables) : system :=
  {| first := start_worker news_data tw1;
     second := start_worker news_data tw2;
     shared := t |}.

(** The race the property is about: no database call fails for a reason of
    its own, and the fetch of each worker brings text. *)
Definition fetches_text (tw : task_world) (u : string) : Prop :=
  ∃ text response_time_ms,
    crawl_article tw u = (Some text, response_time_ms).

Definition no_crawl_fault (tw : task_world) : Prop :=
  ∀ op, crawl_fault tw op = None.

(** Calls still to come, at most, before [_process_single_news] returns. *)
Definition rank (p : pc) : nat :=
  match p with
  | AtClaim => 10
  | AtClaimCommit => 9
  | AtFetch => 8
  | AtInsert _ _ => 7
  | AtSuccessUpdate => 6
  | AtSuccessCommit => 5
  | AtIntegrityRollback => 4
  | AtRetryUpdate => 3
  | AtRetryCommit => 2
  | AtFailedUpdate => 3
  | AtFailedCommit => 2
  | AtErrorRollback => 1
  | Finished _ => 0
  end.

(** *** The invariant of a race without faults

    What holds of the two workers and the tables at every moment of a race
    for the content row of article [id], when no call fails for a reason of
    its own and both fetches bring text. *)

(** The open transaction of a worker, by where the worker stands. *)
Definition txn_at (id : Z) (w : worker) : Prop :=
  match at_pc w with
  | AtClaim | AtFetch | AtInsert _ _ | AtIntegrityRollback | AtRetryUpdate
  | Finished success => txn w = []
  | AtClaimCommit => txn w = [SetCrawling id]
  | AtSuccessUpdate =>
      ∃ row, content_news_id row = id ∧ txn w = [InsertContent row]
  | AtSuccessCommit =>
      ∃ row, content_news_id row = id
             ∧ txn w = [InsertContent row; SetStatus crawl_success id]
  | AtRetryCommit => txn w = [SetStatus crawl_success id]
  | AtFailedUpdate | AtFailedCommit | AtErrorRollback | Finished failed
  | Finished (raised _) => False
  end.

Definition racer (id : Z) (w : worker) : Prop :=
  task_id w = id
  ∧ no_crawl_fault (surroundings w)
  ∧ fetches_text (surroundings w) (task_url w)
  ∧ txn_at id w.

(** The worker has executed its INSERT and not committed it. *)
Definition holds_insert (w : worker) : bool :=
  match at_pc w with
  | AtSuccessUpdate | AtSuccessCommit => true
  | _ => false
  end.

(** The worker is past its INSERT: committed, or refused as a duplicate. *)
Definition past_insert (w : worker) : bool :=
  match at_pc w with
  | AtIntegrityRollback | AtRetryUpdate | AtRetryCommit | Finished _ => true
  | _ => false
  end.

(** The worker has not committed its claim yet. *)
Definition before_claim (w : worker) : bool :=
  match at_pc w with
  | AtClaim | AtClaimCommit => true
  | _ => false
  end.

(** The worker has committed its claim and not yet its last UPDATE. *)
Definition owes_status (w : worker) : bool :=
  match at_pc w with
  | AtFetch | AtInsert _ _ | AtSuccessUpdate | AtSuccessCommit
  | AtIntegrityRollback | AtRetryUpdate | AtRetryCommit => true
  | _ => false
  end.

Definition race_invariant (id : Z) (s : system) : Prop :=
  racer id (first s) ∧ racer id (second s)
  ∧ is_Some (find_article id (shared s))
  ∧ (count_content id (shared s)
     + (if holds_insert (first s) then 1 else 0)
     + (if holds_insert (second s) then 1 else 0) ≤ 1)%nat
  ∧ (past_insert (first s) || past_insert (second s) = true →
     count_content id (shared s) = 1%nat)
  ∧ (status_of id (shared s) = Some crawl_success
     ∨ owes_status (first s) || owes_status (second s) = true
     ∨ before_claim (first s) && before_claim (second s) = true).

Definition swap (s : system) : system :=
  {| first := second s; second := first s; shared := shared s |}.

End Race.

(** ** Notions the properties are stated with *)

Module Notions.
Import Store.

(** [a] occurs in [b]. *)
Definition substring_of (a b : string) : Prop :=
  ∃ x y, b = x +:+ a +:+ y.

(** The bidirectional substring rule on a normalised host. *)
Definition blocklist_match (blocklist : gset string) (host : string) : Prop :=
  ∃ fd, fd ∈ blocklist ∧ (substring_of fd host ∨ substring_of host fd).

(** Removal of a leading [www.] only, as the description of the
    normalisation words it; to be compared with [Crawler.strip_www]. *)
Definition strip_leading_www (s : string) : string :=
  match s with
  | String "w" (String "w" (String "w" (String "." rest))) => rest
  | _ => s
  end.

Definition unique_urls (t : tables) : Prop :=
  NoDup (map url (naver_news t)).

Definition unique_ids (t : tables) : Prop :=
  NoDup (map news_id (naver_news t)).

(** The fields of a record that [filter_urls] has no statement for. *)
Definition same_outside_classification (r r' : article) : Prop :=
  news_id r' = news_id r ∧ title r' = title r ∧ pub_date r' = pub_date r
  ∧ url r' = url r ∧ search_keyword r' = search_keyword r
  ∧ api_request_date r' = api_request_date r
  ∧ crawl_attempt_count r' = crawl_attempt_count r.

(** Harvester invocations one after the other, each on a connection of its
    own, each inserting one batch. *)
Fixpoint invocations (w : Harvester.world) (batches : list (list news_item))
  (t : tables) : tables :=
  match batches with
  | [] => t
  | batch :: rest =>
      invocations w rest (close (fst (Harvester.insert_news w batch (connect t))))
  end.

(** The rows a list of INSERTs leaves when each of them is executed. *)
Definition insert_all (items : list news_item) (t : tables) : tables :=
  apply_writes (map InsertNews items) t.

Definition no_harvest_fault (w : Harvester.world) : Prop :=
  (∀ item, Harvester.insert_fault w item = false)
  ∧ (∀ batch, Harvester.commit_fault w batch = false).

(** A provider that answers every request with the same items. *)
Definition constant_provider (w : Harvester.world) (items : list Harvester.api_item)
  : Prop :=
  ∀ query display start,
    Harvester.requests_get w query display start = Some (Some items).

(** The cumulative inserted-total before page [k] of a run, from its
    progress lines (collected, inserted, inserted-total). *)
Definition total_before (pages : list (Z * Z * Z)) (k : nat) : Z :=
  match k with
  | O => 0
  | S k' =>
      match pages !! k' with
      | Some (_, _, inserted_total) => inserted_total
      | None => 0
      end
  end.

(** Page [k] did not raise the cumulative inserted-total. *)
Definition stalled (pages : list (Z * Z * Z)) (k : nat) : Prop :=
  ∃ collected inserted inserted_total,
    pages !! k = Some (collected, inserted, inserted_total)
    ∧ inserted_total <= total_before pages k.

(** What one classification pass is to write: both UPDATEs, with the id
    lists the pass computes from the pending records of [t]. *)
Definition pass_ids (w : Crawler.world) (self : Crawler.NewsCrawler) (t : tables)
  : list Z * list Z :=
  Crawler.classify w self (Crawler.select_pending t) [] [].

Definition pass_effect (w : Crawler.world) (self : Crawler.NewsCrawler)
  (t : tables) : tables :=
  apply_writes
    [SetUrlFiltered (Crawler.filter_version self) (fst (pass_ids w self t));
     SetFilterVersion (Crawler.filter_version self) (snd (pass_ids w self t))]
    t.

(** The statements a pass on [t] gets to when none before them fails. *)
Definition issued (w : Crawler.world) (self : Crawler.NewsCrawler) (t : tables)
  (op : Crawler.filter_op) : Prop :=
  match op with
  | Crawler.SelectPending => True
  | Crawler.UpdateFiltered => fst (pass_ids w self t) ≠ []
  | Crawler.UpdatePassed => snd (pass_ids w self t) ≠ []
  | Crawler.CommitPass => Crawler.select_pending t ≠ []
  end.

Definition no_filter_fault (w : Crawler.world) : Prop :=
  ∀ op, Crawler.filter_fault w op = None.

(** What the two UPDATEs of a pass make of a row. *)
Definition classified (w : Crawler.world) (self : Crawler.NewsCrawler)
  (t : tables) (r : article) : article :=
  let v := Crawler.filter_version self in
  let r1 := if id_in (news_id r) (fst (pass_ids w self t))
            then set_url_filtered v r else r in
  if id_in (news_id r1) (snd (pass_ids w self t))
  then set_filter_version v r1 else r1.

End Notions.


(** ** Sample data

    Concrete stores, blocklists and surroundings on which the properties
    below are run. *)

Module Sample.
Import Store.

(** A stand-in for [urllib.parse.urlparse(url).netloc] on URLs of the shape
    [scheme://netloc/path?query#fragment]: what lies between the first [//]
    and the next [/], [?] or [#]; empty when there is no [//]. *)
Fixpoint after_slashes (s : string) : option string :=
  match s with
  | String "/" (String "/" rest) => Some rest
  | String _ s' => after_slashes s'
  | EmptyString => None
  end.

Fixpoint until_delimiter (s : string) : string :=
  match s with
  | EmptyString => EmptyString
  | String c s' =>
      if Ascii.eqb c "/" || Ascii.eqb c "?" || Ascii.eqb c "#"
      then EmptyString
      else String c (until_delimiter s')
  end.

Definition netloc (u : string) : option string :=
  Some (match after_slashes u with
        | Some rest => until_delimiter rest
        | None => EmptyString
        end).

Definition newline : string := String (Ascii.ascii_of_nat 10) EmptyString.

(** One blocklist file on disk; every other path cannot be opened. *)
Definition blocklist_v1 : string := "filter_domain_list_v1.00.txt".

Definition files (path : string) : option (list string) :=
  if String.eqb path blocklist_v1
  then Some ["naver.com" +:+ newline; newline; "www.daum.net" +:+ newline]
  else None.

Definition classifier_world : Crawler.world :=
  {| Crawler.open_lines := files;
     Crawler.urlparse_netloc := netloc;
     Crawler.filter_fault := fun _ => None |}.

(** The same, with the second UPDATE of the pass failing. *)
Definition failing_world : Crawler.world :=
  {| Crawler.open_lines := files;
     Crawler.urlparse_netloc := netloc;
     Crawler.filter_fault :=
       fun op => match op with
                 | Crawler.UpdatePassed => Some OtherException
                 | _ => None
                 end |}.

Definition crawler : Crawler.NewsCrawler :=
  Crawler.init classifier_world blocklist_v1 "1.0.0" 5.

Definition failing_crawler : Crawler.NewsCrawler :=
  Crawler.init failing_world blocklist_v1 "1.0.0" 5.

(** A crawler whose blocklist file is missing. *)
Definition blind_crawler : Crawler.NewsCrawler :=
  Crawler.init classifier_world "missing_v2.00.txt" "1.0.0" 5.

(** A crawler with the single blocklist entry [m.naver.com]. *)
Definition mobile_crawler : Crawler.NewsCrawler :=
  {| Crawler.filter_file_path := "mobile_v3.00.txt";
     Crawler.crawler_version := "1.0.0";
     Crawler.filter_version := "v3.00";
     Crawler.filtered_domains := {[ "m.naver.com" ]};
     Crawler.max_workers := 5 |}.

Definition naver_article : article :=
  {| news_id := 1; title := "first"; pub_date := 1700000300;
     url := "https://news.naver.com/article/1"; search_keyword := "k";
     api_request_date := 1700000400; crawl_status := pending;
     url_filter_version := None; crawl_attempt_count := 0 |}.

Definition example_article : article :=
  {| news_id := 2; title := "second"; pub_date := 1700000200;
     url := "https://www.example.org/story?id=2"; search_keyword := "k";
     api_request_date := 1700000400; crawl_status := pending;
     url_filter_version := None; crawl_attempt_count := 0 |}.

Definition crawled_article : article :=
  {| news_id := 3; title := "third"; pub_date := 1700000100;
     url := "https://blog.example.org/3"; search_keyword := "k";
     api_request_date := 1700000400; crawl_status := crawl_success;
     url_filter_version := Some "v0.90"; crawl_attempt_count := 1 |}.

Definition store0 : tables :=
  {| naver_news := [naver_article; example_article; crawled_article];
     crawled_news := [] |}.

Definition empty_store : tables :=
  {| naver_news := []; crawled_news := [] |}.

Definition item_a : news_item :=
  {| item_title := "a"; item_pub_date := 1700000000;
     item_url := "https://a.example.org/1"; item_search_keyword := "k";
     item_api_request_date := 1700000400 |}.

(** The URL of [item_a], found again later under another title. *)
Definition item_a_again : news_item :=
  {| item_title := "a, updated"; item_pub_date := 1700000050;
     item_url := "https://a.example.org/1"; item_search_keyword := "k";
     item_api_request_date := 1700004000 |}.

Definition item_bad : news_item :=
  {| item_title := "bad"; item_pub_date := 1700000100;
     item_url := "https://b.example.org/2"; item_search_keyword := "k";
     item_api_request_date := 1700000400 |}.

Definition item_c : news_item :=
  {| item_title := "c"; item_pub_date := 1700000200;
     item_url := "https://c.example.org/3"; item_search_keyword := "k";
     item_api_request_date := 1700000400 |}.

(** A store that takes every statement, behind a provider that is down. *)
Definition quiet_world : Harvester.world :=
  {| Harvester.requests_get := fun _ _ _ => None;
     Harvester.parsedate_to_datetime := fun _ => Some 1700000000;
     Harvester.datetime_now := fun _ => 1700000400;
     Harvester.current_timestamp := 1700000500;
     Harvester.insert_fault := fun _ => false;
     Harvester.commit_fault := fun _ => false |}.

(** A store that rejects the INSERT of the item titled [bad]. *)
Definition rejecting_world : Harvester.world :=
  {| Harvester.requests_get := fun _ _ _ => None;
     Harvester.parsedate_to_datetime := fun _ => Some 1700000000;
     Harvester.datetime_now := fun _ => 1700000400;
     Harvester.current_timestamp := 1700000500;
     Harvester.insert_fault := fun item => String.eqb (item_title item) "bad";
     Harvester.commit_fault := fun _ => false |}.

(** A provider that answers every request with the same two items. *)
Definition same_page : list Harvester.api_item :=
  [ {| Harvester.api_title := "<b>first</b> story";
       Harvester.api_pubDate := "Mon, 13 Nov 2023 10:00:00 +0900";
       Harvester.api_link := "https://a.example.org/1" |};
    {| Harvester.api_title := "second story";
       Harvester.api_pubDate := "Mon, 13 Nov 2023 09:00:00 +0900";
       Harvester.api_link := "https://c.example.org/3" |} ].

Definition repeating_world : Harvester.world :=
  {| Harvester.requests_get := fun _ _ _ => Some (Some same_page);
     Harvester.parsedate_to_datetime := fun _ => Some 1700000000;
     Harvester.datetime_now := fun _ => 1700000400;
     Harvester.current_timestamp := 1700000500;
     Harvester.insert_fault := fun _ => false;
     Harvester.commit_fault := fun _ => false |}.

Definition fresh_collector : Harvester.NaverNewsCollector :=
  {| Harvester.conn_of := connect empty_store;
     Harvester.collected_urls := ∅ |}.

(** A fetch that brings text, and a store that takes every statement. *)
Definition clean_task : Crawler.task_world :=
  {| Crawler.newspaper_text := fun _ => Some "  hello  ";
     Crawler.elapsed_ms := 120;
     Crawler.datetime_now := 1700001000;
     Crawler.crawl_fault := fun _ => None |}.

Definition slow_task : Crawler.task_world :=
  {| Crawler.newspaper_text := fun _ => Some "hello, later";
     Crawler.elapsed_ms := 340;
     Crawler.datetime_now := 1700001001;
     Crawler.crawl_fault := fun _ => None |}.

(** The same fetch, with a store that rejects the INSERT of the content
    row with an error that is not an [IntegrityError]. *)
Definition insert_fails_task : Crawler.task_world :=
  {| Crawler.newspaper_text := fun _ => Some "  hello  ";
     Crawler.elapsed_ms := 120;
     Crawler.datetime_now := 1700001000;
     Crawler.crawl_fault :=
       fun op => match op with
                 | Crawler.ContentInsert => Some OtherException
                 | _ => None
                 end |}.

Definition one_pending : tables :=
  {| naver_news := [example_article]; crawled_news := [] |}.

(** [example_article] after a classification pass. *)
Definition one_eligible : tables :=
  {| naver_news := [set_filter_version "v1.00" example_article];
     crawled_news := [] |}.

(** A race of two workers: both claim and fetch, the first inserts and
    commits, the second meets the row of the first. *)
Definition race_schedule : list Race.side :=
  [Race.First; Race.First; Race.First; Race.Second; Race.Second; Race.Second;
   Race.First; Race.First; Race.First;
   Race.Second; Race.Second; Race.Second; Race.Second].

End Sample.

(** ** Further notions

    Notions used by the properties of the code around the ones above. *)

Module MoreNotions.
Import Store.

(** The character [c] occurs in [s]. *)
Definition has_char (c : ascii) (s : string) : bool :=
  PyStr.contains (String c EmptyString) s.

Definition line_feed : ascii := Ascii.ascii_of_nat 10.

(** The columns the INSERT of the Harvester names, copied from an item. *)
Definition copied_from (item : news_item) (r : article) : Prop :=
  title r = item_title item ∧ pub_date r = item_pub_date item
  ∧ url r = item_url item ∧ search_keyword r = item_search_keyword item
  ∧ api_request_date r = item_api_request_date item.

(** The progress lines add up: each cumulative total is the one before
    plus what the page inserted. *)
Fixpoint cumulative (before : Z) (pages : list (Z * Z * Z)) : Prop :=
  match pages with
  | [] => True
  | (_, inserted, inserted_total) :: rest =>
      inserted_total = before + inserted ∧ cumulative inserted_total rest
  end.

Definition last_total_from (before : Z) (pages : list (Z * Z * Z)) : Z :=
  match last pages with
  | Some (_, _, inserted_total) => inserted_total
  | None => before
  end.

Definition last_total (pages : list (Z * Z * Z)) : Z :=
  last_total_from 0 pages.

(** What a page inserted, of its progress line. *)
Definition inserted_of (page : Z * Z * Z) : Z := snd (fst page).

(** What holds of the variables of [collect] each time the loop condition
    is looked at: the lines add up to [inserted_total], every page so far
    inserted something, and the pages are fewer than the items collected,
    than the offset and than the target. *)
Definition collect_invariant (total : Z) (h : Harvester.harvest) : Prop :=
  let pages := Harvester.progress_lines (Harvester.logged h) in
  cumulative 0 pages
  ∧ last_total pages = Harvester.inserted_total h
  ∧ Forall (fun page => 0 < inserted_of page) pages
  ∧ Z.of_nat (length pages) <= Harvester.collected h
  ∧ Z.of_nat (length pages) <= Z.max 0 total
  ∧ Z.of_nat (length pages) <= Harvester.start h - 1
  ∧ Harvester.start h <= 1000
  ∧ 0 <= Harvester.inserted_total h.

(** What holds of them when the loop is left. *)
Definition collect_final (total : Z) (h : Harvester.harvest) : Prop :=
  let pages := Harvester.progress_lines (Harvester.logged h) in
  cumulative 0 pages
  ∧ last_total pages = Harvester.inserted_total h
  ∧ (∀ k page, pages !! k = Some page → (S k < length pages)%nat →
       0 < inserted_of page)
  ∧ Forall (fun page => 0 <= inserted_of page) pages
  ∧ Z.of_nat (length pages) <= Z.max 0 total
  ∧ Z.of_nat (length pages) <= 1000
  ∧ 0 <= Harvester.inserted_total h.

(** The provider of [w], cut down to the requests inside the window the
    provider documents: page size 1..100, offset 1..1000. *)
Definition inside_window (w : Harvester.world) : Harvester.world :=
  {| Harvester.requests_get :=
       fun query display start =>
         if (1 <=? display) && (display <=? 100)
            && (1 <=? start) && (start <=? 1000)
         then Harvester.requests_get w query display start
         else None;
     Harvester.parsedate_to_datetime := Harvester.parsedate_to_datetime w;
     Harvester.datetime_now := Harvester.datetime_now w;
     Harvester.current_timestamp := Harvester.current_timestamp w;
     Harvester.insert_fault := Harvester.insert_fault w;
     Harvester.commit_fault := Harvester.commit_fault w |}.

(** The open transaction holds nothing but INSERTs of items of [batch]. *)
Definition only_inserts (batch : list news_item) (ws : list write) : Prop :=
  Forall (fun wr => ∃ item, wr = InsertNews item ∧ item ∈ batch) ws.

(** The record was made by the INSERT of an item of [batch]. *)
Definition from_batch (batch : list news_item) (r : article) : Prop :=
  ∃ item, item ∈ batch ∧ copied_from item r.

(** The table [t] is [t0] with records of keyword [query] added at the
    end, at most [bound] of them. *)
Definition grown_by (query : string) (t0 t : tables) (bound : Z) : Prop :=
  ∃ extra,
    naver_news t = naver_news t0 ++ extra
    ∧ crawled_news t = crawled_news t0
    ∧ Forall (fun r => search_keyword r = query) extra
    ∧ Z.of_nat (length extra) <= bound
    ∧ (Notions.unique_urls t0 → Notions.unique_urls t).

End MoreNotions.

(** ** Notions for the crawl of one record *)

Module CrawlNotions.
Import Store.

(** The tables after the claim of record [id] is committed. *)
Definition claimed (id : Z) (t : tables) : tables :=
  apply_write (SetCrawling id) t.

(** The row [_process_single_news] inserts for the text of a fetch. *)
Definition content_row (self : Crawler.NewsCrawler) (tw : Crawler.task_world)
  (id : Z) (text : string) (response_time_ms : Z) : content :=
  {| content_news_id := id;
     content_text := text;
     content_crawler_version := Crawler.crawler_version self;
     content_response_time_ms := response_time_ms;
     content_crawled_at := Crawler.datetime_now tw |}.

(** The five ways a call of [_process_single_news] on [t] can end: the
    claim did not commit; the claim committed and nothing after it; the
    record was marked [crawl_failed]; the record was marked
    [crawl_success] by the handler of [IntegrityError]; the row and the
    mark were committed together.  The first two are the ways of a call
    that returns ['failed'] from its handler, or raises. *)
Inductive ending (self : Crawler.NewsCrawler) (tw : Crawler.task_world)
  (id : Z) (u : string) (t : tables)
  : tables -> option Crawler.crawl_result -> Prop :=
| NotClaimed (result : Crawler.crawl_result) :
    result ≠ Crawler.success ->
    ending self tw id u t t (Some result)
| LeftCrawling (result : Crawler.crawl_result) :
    result ≠ Crawler.success ->
    ending self tw id u t (claimed id t) (Some result)
| MarkedFailed :
    fst (Crawler.crawl_article tw u) = None ->
    ending self tw id u t
      (apply_write (SetStatus crawl_failed id) (claimed id t))
      (Some Crawler.failed)
| MarkedOnly :
    is_Some (fst (Crawler.crawl_article tw u)) ->
    ending self tw id u t
      (apply_write (SetStatus crawl_success id) (claimed id t))
      (Some Crawler.success)
| Stored (text : string) (response_time_ms : Z) :
    Crawler.crawl_article tw u = (Some text, response_time_ms) ->
    has_content id (crawled_news t) = false ->
    ending self tw id u t
      (apply_write (SetStatus crawl_success id)
         (apply_write (InsertContent (content_row self tw id text response_time_ms))
            (claimed id t)))
      (Some Crawler.success).

(** The fields of a record that no statement of the crawl changes. *)
Definition same_outside_crawl (r r' : article) : Prop :=
  news_id r' = news_id r ∧ title r' = title r ∧ pub_date r' = pub_date r
  ∧ url r' = url r ∧ search_keyword r' = search_keyword r
  ∧ api_request_date r' = api_request_date r
  ∧ url_filter_version r' = url_filter_version r.

(** The records of [t] that are pending. *)
Definition pending_records (t : tables) : list article :=
  filter (fun r => crawl_status r = pending) (naver_news t).

(** The ids [crawl_news] submits to its pool. *)
Definition eligible_ids (t : tables) : list Z :=
  map (fun news_data => fst (fst news_data)) (Crawler.select_eligible t).

(** A fetch with text and a store that answers the INSERT of the content
    row with [IntegrityError]. *)
Definition integrity_task : Crawler.task_world :=
  {| Crawler.newspaper_text := fun _ => Some "  hello  ";
     Crawler.elapsed_ms := 120;
     Crawler.datetime_now := 1700001000;
     Crawler.crawl_fault :=
       fun op => match op with
                 | Crawler.ContentInsert => Some IntegrityError
                 | _ => None
                 end |}.

(** A fetch that raises. *)
Definition unreachable_task : Crawler.task_world :=
  {| Crawler.newspaper_text := fun _ => None;
     Crawler.elapsed_ms := 30000;
     Crawler.datetime_now := 1700001000;
     Crawler.crawl_fault := fun _ => None |}.

(** A store with one record the crawl takes and one it does not. *)
Definition mixed_store : tables :=
  {| naver_news := [set_filter_version "v1.00" Sample.example_article;
                    Sample.crawled_article];
     crawled_news := [] |}.

(** The records [crawl_news] selects. *)
Definition eligible_records (t : tables) : list article :=
  filter (fun r => crawl_status r = pending ∧ is_Some (url_filter_version r))
         (naver_news t).

(** U+00A0 NO-BREAK SPACE and U+3000 IDEOGRAPHIC SPACE, in UTF-8. *)
Definition no_break_space : string :=
  String (Ascii.ascii_of_nat 194) (String (Ascii.ascii_of_nat 160) EmptyString).

Definition ideographic_space : string :=
  String (Ascii.ascii_of_nat 227)
    (String (Ascii.ascii_of_nat 128)
       (String (Ascii.ascii_of_nat 128) EmptyString)).

(** The line [www.] of a blocklist file, behind a no-break space. *)
Definition www_line : string :=
  no_break_space +:+ "www." +:+ Sample.newline.

(** A blocklist file with that line in it. *)
Definition www_world : Crawler.world :=
  {| Crawler.open_lines :=
       fun _ => Some ["naver.com" +:+ Sample.newline; www_line];
     Crawler.urlparse_netloc := Sample.netloc;
     Crawler.filter_fault := fun _ => None |}.

(** A fetch that brings nothing but white space: ideographic spaces, a
    no-break space and a line feed. *)
Definition blank_task : Crawler.task_world :=
  {| Crawler.newspaper_text :=
       fun _ => Some (ideographic_space +:+ ideographic_space +:+ " "
                      +:+ no_break_space +:+ Sample.newline);
     Crawler.elapsed_ms := 80;
     Crawler.datetime_now := 1700001000;
     Crawler.crawl_fault := fun _ => None |}.

(** A task that gets no connection. *)
Definition broken_task : Crawler.task_world :=
  {| Crawler.newspaper_text := fun _ => Some "  hello  ";
     Crawler.elapsed_ms := 120;
     Crawler.datetime_now := 1700001000;
     Crawler.crawl_fault :=
       fun op => match op with
                 | Crawler.Connect => Some OtherException
                 | _ => None
                 end |}.

(** A crawler with a pool of no worker. *)
Definition idle_crawler : Crawler.NewsCrawler :=
  Crawler.init Sample.classifier_world Sample.blocklist_v1 "1.0.0" 0.

(** The fetch of a call brings no text: it raises, or what it brings is
    empty once the white space around it is taken off. *)
Definition fetch_is_blank (tw : Crawler.task_world) (u : string) : Prop :=
  Crawler.newspaper_text tw u = None
  ∨ ∃ raw, Crawler.newspaper_text tw u = Some raw ∧ PyStr.strip raw = "".

(** The calls of [_process_single_news] that raise out of the function
    when they fail meet no fault: the call returns a string. *)
Definition task_returns (tw : Crawler.task_world) : Prop :=
  Crawler.crawl_fault tw Crawler.Connect = None
  ∧ Crawler.crawl_fault tw Crawler.OpenCursor = None
  ∧ Crawler.crawl_fault tw Crawler.ErrorRollback = None.

(** The number of ['success'] among the results of the pool. *)
Definition successes (results : list (option Crawler.crawl_result)) : nat :=
  length (filter (fun r => r = Some Crawler.success) results).

(** Every task of the pool returned a string. *)
Definition all_returned (results : list (option Crawler.crawl_result)) : Prop :=
  Forall (fun r => r = Some Crawler.success ∨ r = Some Crawler.failed) results.

End CrawlNotions.
(** * Properties *)

(** ** Facts about the string primitives *)

Module PyStrFacts.
Import PyStr Notions.

Lemma sapp_cons (c : ascii) (s t : string) :
  String c s +:+ t = String c (s +:+ t).
Proof. reflexivity. Qed.

Lemma sapp_nil_l (s : string) : "" +:+ s = s.
Proof. reflexivity. Qed.

Lemma sapp_nil_r (s : string) : s +:+ "" = s.
Proof.
  induction s as [|c s IH]; [done |].
  by rewrite sapp_cons, IH.
Qed.

Lemma sapp_assoc (a b c : string) : (a +:+ b) +:+ c = a +:+ (b +:+ c).
Proof.
  induction a as [|x a IH]; [done |].
  by rewrite !sapp_cons, IH.
Qed.

Lemma starts_with_app (p s : string) : starts_with p (p +:+ s) = true.
Proof.
  induction p as [|c p IH]; [done |].
  rewrite sapp_cons. simpl. by rewrite Ascii.eqb_refl.
Qed.

Lemma starts_with_spec (p s : string) :
  starts_with p s = true ↔ ∃ rest, s = p +:+ rest.
Proof.
  split.
  - revert s. induction p as [|c p IH]; intros s H.
    + by exists s.
    + destruct s as [|d s]; simpl in H; [done |].
      destruct (Ascii.eqb_spec c d) as [->|]; [| done].
      destruct (IH _ H) as [rest ->]. by exists rest.
  - intros [rest ->]. apply starts_with_app.
Qed.

Lemma contains_spec (needle hay : string) :
  contains needle hay = true ↔ substring_of needle hay.
Proof.
  unfold substring_of. split.
  - induction hay as [|c hay IH]; simpl; rewrite orb_true_iff.
    + intros [H|?]; [| done].
      apply starts_with_spec in H as [rest ->]. by exists "", rest.
    + intros [H|H].
      * apply starts_with_spec in H as [rest Hr]. exists "", rest. by rewrite Hr.
      * destruct (IH H) as (x & y & ->). by exists (String c x), y.
  - intros (x & y & ->). induction x as [|c x IH].
    + rewrite sapp_nil_l. destruct needle as [|d needle]; [by destruct y |].
      rewrite sapp_cons. simpl. by rewrite Ascii.eqb_refl, starts_with_app.
    + rewrite sapp_cons. simpl. rewrite IH. apply orb_true_r.
Qed.

Lemma contains_empty (hay : string) : contains "" hay = true.
Proof. by destruct hay. Qed.

(** Jumping over the characters of [jumped] is dropping them. *)
Lemma replace_from_skip (old new : string) (jumped rest : string) :
  replace_from old new (String.length jumped) (jumped +:+ rest)
  = replace_from old new O rest.
Proof.
  induction jumped as [|c j IH]; [done |].
  rewrite sapp_cons. simpl. apply IH.
Qed.

(** The three equations of [replace]. *)
Lemma replace_empty (old new : string) : replace old new "" = "".
Proof. done. Qed.

Lemma replace_match (old new : string) (c : ascii) (old' rest : string) :
  old = String c old' →
  replace old new (old +:+ rest) = new +:+ replace old new rest.
Proof.
  intros ->. unfold replace. rewrite sapp_cons. simpl replace_from.
  rewrite Ascii.eqb_refl, starts_with_app. f_equal.
  apply replace_from_skip.
Qed.

Lemma replace_no_match (old new : string) (c : ascii) (s : string) :
  starts_with old (String c s) = false →
  replace old new (String c s) = String c (replace old new s).
Proof. intros H. unfold replace. simpl replace_from. by rewrite H. Qed.

End PyStrFacts.

(** ** Domain normalisation *)

Module Normalisation.
Import PyStr PyStrFacts Notions Store Crawler.

(** Whether [www.] starts at a position inside [p] does not depend on what
    follows [p], even when what follows is another [www.]. *)
Lemma starts_with_www_inside (c : ascii) (p t : string) :
  starts_with "www." (String c p +:+ "www." +:+ t)
  = starts_with "www." (String c p).
Proof.
  destruct p as [|c1 [|c2 [|c3 p]]]; rewrite ?sapp_cons, ?sapp_nil_l;
    cbn [starts_with];
    repeat match goal with
           | |- context [Ascii.eqb ?a ?b] =>
               is_var b; destruct (Ascii.eqb_spec a b) as [<-|]
           end; reflexivity.
Qed.

Lemma strip_www_empty : strip_www "" = "".
Proof. done. Qed.

Lemma strip_www_leading (s : string) : strip_www ("www." +:+ s) = strip_www s.
Proof. unfold strip_www. by erewrite replace_match. Qed.

Lemma strip_www_other (c : ascii) (s : string) :
  starts_with "www." (String c s) = false →
  strip_www (String c s) = String c (strip_www s).
Proof. apply replace_no_match. Qed.

Lemma strip_www_split_bounded (n : nat) (p t : string) :
  (String.length p ≤ n)%nat →
  strip_www (p +:+ "www." +:+ t) = strip_www p +:+ strip_www t.
Proof.
  revert p. induction n as [|n IH]; intros p Hn.
  - destruct p; simpl in Hn; [| lia]. apply strip_www_leading.
  - destruct p as [|c p]; [apply strip_www_leading |].
    destruct (starts_with "www." (String c p)) eqn:Hs.
    + apply starts_with_spec in Hs as [rest Hr]. rewrite Hr.
      rewrite sapp_assoc, !strip_www_leading. apply IH.
      apply (f_equal String.length) in Hr.
      rewrite !sapp_cons, sapp_nil_l in Hr. simpl in Hr, Hn. lia.
    + pose proof (starts_with_www_inside c p t) as Hs'. rewrite Hs in Hs'.
      change (String c p +:+ "www." +:+ t)
        with (String c (p +:+ "www." +:+ t)) in *.
      rewrite (strip_www_other _ _ Hs), (strip_www_other _ _ Hs').
      change (String c (strip_www p) +:+ strip_www t)
        with (String c (strip_www p +:+ strip_www t)).
      f_equal. apply IH. simpl in Hn. lia.
Qed.

Lemma strip_www_split (p t : string) :
  strip_www (p +:+ "www." +:+ t) = strip_www p +:+ strip_www t.
Proof. by apply (strip_www_split_bounded (String.length p)). Qed.

Lemma strip_www_fixed (s : string) :
  contains "www." s = false → strip_www s = s.
Proof.
  induction s as [|c s IH]; [done |].
  intros H. simpl contains in H. apply orb_false_iff in H as [H1 H2].
  rewrite strip_www_other by exact H1. f_equal. by apply IH.
Qed.

(** C8, as worded: normalisation would be the removal of a leading [www.]
    and nothing else.  It is not: an occurrence inside the string goes too. *)
Lemma normalisation_is_not_leading_only :
  ¬ (∀ s : string, strip_www s = strip_leading_www s).
Proof.
  intros H. specialize (H "news.www.example.com").
  vm_compute in H. discriminate H.
Qed.

(** C8, amended: normalisation deletes every occurrence of [www.], the
    leading one ([p] empty) and any other, and changes nothing else: around
    an occurrence the two sides are normalised on their own, and a string
    without an occurrence is left as it is. *)
Theorem normalisation_removes_every_www (p t : string) :
  strip_www (p +:+ "www." +:+ t) = strip_www p +:+ strip_www t
  ∧ (contains "www." t = false → strip_www t = t).
Proof. split; [apply strip_www_split | apply strip_www_fixed]. Qed.

Lemma normalisation_removes_every_www_witness :
  strip_www ("news." +:+ "www." +:+ "example.com")
  = strip_www "news." +:+ strip_www "example.com"
  ∧ strip_www "example.com" = "example.com".
Proof.
  destruct (normalisation_removes_every_www "news." "example.com") as [H1 H2].
  split; [exact H1 | apply H2; reflexivity].
Defined.

End Normalisation.

(** ** Facts about the store *)

Module StoreFacts.
Import Store Notions.

Lemma tables_eta (t : tables) :
  {| naver_news := naver_news t; crawled_news := crawled_news t |} = t.
Proof. by destruct t. Qed.

Lemma id_in_spec (id : Z) (ids : list Z) : id_in id ids = true ↔ id ∈ ids.
Proof.
  unfold id_in. rewrite existsb_exists. split.
  - intros (j & Hj & Heq). apply Z.eqb_eq in Heq as ->.
    by apply list_elem_of_In.
  - intros H. exists id. split; [by apply list_elem_of_In | apply Z.eqb_refl].
Qed.

Lemma id_in_false (id : Z) (ids : list Z) : id_in id ids = false ↔ id ∉ ids.
Proof.
  rewrite <- id_in_spec. destruct (id_in id ids); split; congruence.
Qed.

Lemma update_where_nil (f : article → article) (rows : list article) :
  update_where [] f rows = rows.
Proof. unfold update_where. simpl. induction rows; simpl; congruence. Qed.

Lemma update_where_length ids f rows :
  length (update_where ids f rows) = length rows.
Proof. unfold update_where. by rewrite length_map. Qed.

Lemma update_where_lookup ids f rows (k : nat) :
  update_where ids f rows !! k
  = (fun r => if id_in (news_id r) ids then f r else r) <$> rows !! k.
Proof. unfold update_where. apply list_lookup_fmap. Qed.

Lemma apply_writes_nil (t : tables) : apply_writes [] t = t.
Proof. done. Qed.

Lemma apply_writes_cons (wr : write) (ws : list write) (t : tables) :
  apply_writes (wr :: ws) t = apply_writes ws (apply_write wr t).
Proof. done. Qed.

Lemma apply_writes_snoc (ws : list write) (wr : write) (t : tables) :
  apply_writes (ws ++ [wr]) t = apply_write wr (apply_writes ws t).
Proof. unfold apply_writes. by rewrite fold_left_app. Qed.

Lemma view_connect (t : tables) : view (connect t) = t.
Proof. done. Qed.

Lemma has_url_spec (u : string) (rows : list article) :
  has_url u rows = true ↔ u ∈ map url rows.
Proof.
  unfold has_url. rewrite existsb_exists, list_elem_of_fmap. split.
  - intros (r & Hr & Heq). apply String.eqb_eq in Heq.
    exists r. split; [done | by apply list_elem_of_In].
  - intros (r & -> & Hr). exists r.
    split; [by apply list_elem_of_In | apply String.eqb_refl].
Qed.

End StoreFacts.

(** ** The classification pass *)

Module ClassifierFacts.
Import Store Crawler Notions StoreFacts PyStrFacts.

Lemma classify_spec w self (l : list (Z * string)) (f p : list Z) :
  classify w self l f p
  = (f ++ map fst (filter (fun x => _is_url_filtered w self (snd x) = true) l),
     p ++ map fst (filter (fun x => _is_url_filtered w self (snd x) = false) l)).
Proof.
  revert f p. induction l as [|[id u] l IH]; intros f p; simpl.
  - by rewrite !app_nil_r.
  - rewrite !filter_cons. simpl.
    destruct (_is_url_filtered w self u) eqn:Hf.
    + rewrite IH. rewrite decide_True by done. rewrite decide_False by done.
      simpl. by rewrite <- app_assoc.
    + rewrite IH. rewrite decide_False by done. rewrite decide_True by done.
      simpl. by rewrite <- app_assoc.
Qed.

Lemma select_pending_elem (t : tables) (id : Z) (u : string) :
  (id, u) ∈ select_pending t
  ↔ ∃ r, r ∈ naver_news t ∧ crawl_status r = pending
         ∧ news_id r = id ∧ url r = u.
Proof.
  unfold select_pending. rewrite list_elem_of_fmap. split.
  - intros (r & Heq & Hr). rewrite merge_sort_Permutation in Hr.
    apply list_elem_of_filter in Hr as [Hp Hr]. inversion Heq. by exists r.
  - intros (r & Hr & Hp & <- & <-). exists r. split; [done |].
    rewrite merge_sort_Permutation. by apply list_elem_of_filter.
Qed.

Lemma filtered_ids_elem w self t (id : Z) :
  id ∈ fst (pass_ids w self t)
  ↔ ∃ r, r ∈ naver_news t ∧ crawl_status r = pending ∧ news_id r = id
         ∧ _is_url_filtered w self (url r) = true.
Proof.
  unfold pass_ids. rewrite classify_spec. simpl. rewrite list_elem_of_fmap. split.
  - intros ([j u] & -> & H). apply list_elem_of_filter in H as [Hf H].
    apply select_pending_elem in H as (r & Hr & Hp & Hid & Hu).
    exists r. simpl in *. by subst.
  - intros (r & Hr & Hp & <- & Hf). exists (news_id r, url r). split; [done |].
    apply list_elem_of_filter. split; [done |].
    apply select_pending_elem. by exists r.
Qed.

Lemma passed_ids_elem w self t (id : Z) :
  id ∈ snd (pass_ids w self t)
  ↔ ∃ r, r ∈ naver_news t ∧ crawl_status r = pending ∧ news_id r = id
         ∧ _is_url_filtered w self (url r) = false.
Proof.
  unfold pass_ids. rewrite classify_spec. simpl. rewrite list_elem_of_fmap. split.
  - intros ([j u] & -> & H). apply list_elem_of_filter in H as [Hf H].
    apply select_pending_elem in H as (r & Hr & Hp & Hid & Hu).
    exists r. simpl in *. by subst.
  - intros (r & Hr & Hp & <- & Hf). exists (news_id r, url r). split; [done |].
    apply list_elem_of_filter. split; [done |].
    apply select_pending_elem. by exists r.
Qed.

(** With ids that are keys, the record of an id is the record. *)
Lemma unique_ids_inj (t : tables) (r r' : article) :
  unique_ids t → r ∈ naver_news t → r' ∈ naver_news t →
  news_id r = news_id r' → r = r'.
Proof.
  unfold unique_ids. intros Hnd Hr Hr' Heq.
  apply list_elem_of_lookup in Hr as [i Hi]. apply list_elem_of_lookup in Hr' as [j Hj].
  assert (i = j) as ->.
  { eapply NoDup_lookup; [exact Hnd | |];
      rewrite list_lookup_fmap; [by rewrite Hi | by rewrite Hj, Heq]. }
  congruence.
Qed.

Lemma pass_effect_rows w self t :
  naver_news (pass_effect w self t) = map (classified w self t) (naver_news t).
Proof.
  unfold pass_effect. simpl. unfold update_where. rewrite map_map. done.
Qed.

Lemma pass_effect_contents w self t :
  crawled_news (pass_effect w self t) = crawled_news t.
Proof. done. Qed.

Lemma apply_set_url_filtered_nil v t : apply_write (SetUrlFiltered v []) t = t.
Proof. simpl. rewrite update_where_nil. apply tables_eta. Qed.

Lemma apply_set_filter_version_nil v t : apply_write (SetFilterVersion v []) t = t.
Proof. simpl. rewrite update_where_nil. apply tables_eta. Qed.

Lemma not_empty_false {A} (l : list A) : not_empty l = false ↔ l = [].
Proof. by destruct l. Qed.

Lemma not_empty_true {A} (l : list A) : not_empty l = true ↔ l ≠ [].
Proof. by destruct l. Qed.

(** The two ways a pass can end. *)
Lemma filter_urls_cases w self t :
  (∃ e op, filter_urls w self t = (t, Raised e)
           ∧ issued w self t op ∧ filter_fault w op = Some e)
  ∨ (filter_urls w self t
     = (pass_effect w self t,
        Returned (Z.of_nat (length (fst (pass_ids w self t)))))
     ∧ ∀ op, issued w self t op → filter_fault w op = None).
Proof.
  unfold filter_urls, try_except, filter_urls_try, mbind, db_bind, cursor_select.
  destruct (filter_fault w SelectPending) as [e|] eqn:F1.
  { left. exists e, SelectPending. done. }
  rewrite view_connect.
  unfold pass_effect, issued, pass_ids.
  destruct (not_empty (select_pending t)) eqn:Hsel.
  2:{ right. apply not_empty_false in Hsel. rewrite Hsel. simpl.
      rewrite !update_where_nil. split; [by rewrite tables_eta |].
      intros []; done. }
  apply not_empty_true in Hsel.
  destruct (classify w self (select_pending t) [] []) as [fids pids] eqn:Hc.
  simpl fst; simpl snd.
  unfold when, cursor_execute, conn_commit, conn_rollback, raise, mret, db_ret.
  destruct (filter_fault w UpdateFiltered) as [e2|] eqn:F2,
           (filter_fault w UpdatePassed) as [e3|] eqn:F3,
           (filter_fault w CommitPass) as [e4|] eqn:F4,
           fids as [|f0 fids], pids as [|p0 pids]; simpl;
    first
      [ left; eexists _, UpdateFiltered; by repeat split
      | left; eexists _, UpdatePassed; by repeat split
      | left; eexists _, CommitPass; by repeat split
      | right; rewrite ?update_where_nil, ?tables_eta;
        split; [reflexivity | intros []; done] ].
Qed.

Lemma is_url_filtered_spec w self (u : string) :
  _is_url_filtered w self u = true
  ↔ ∃ netloc, urlparse_netloc w u = Some netloc
              ∧ blocklist_match (filtered_domains self) (strip_www netloc).
Proof.
  unfold _is_url_filtered, blocklist_match.
  destruct (urlparse_netloc w u) as [netloc|].
  - rewrite existsb_exists. split.
    + intros (fd & Hfd & Hm). exists netloc. split; [done |]. exists fd.
      apply list_elem_of_In, elem_of_elements in Hfd. split; [done |].
      unfold domain_match in Hm. apply orb_true_iff in Hm.
      by rewrite <- !contains_spec.
    + intros (? & [= <-] & fd & Hfd & Hm). exists fd. split.
      * by apply list_elem_of_In, elem_of_elements.
      * unfold domain_match. apply orb_true_iff. by rewrite !contains_spec.
  - split; [done | by intros (? & ? & ?)].
Qed.

Lemma classified_keeps w self t (r : article) :
  same_outside_classification r (classified w self t r).
Proof.
  unfold classified, same_outside_classification.
  repeat case_match; done.
Qed.

Lemma classified_filtered w self t (r : article) :
  unique_ids t → r ∈ naver_news t → crawl_status r = pending →
  _is_url_filtered w self (url r) = true →
  classified w self t r = set_url_filtered (filter_version self) r.
Proof.
  intros Hu Hr Hp Hf. unfold classified.
  assert (id_in (news_id r) (fst (pass_ids w self t)) = true) as ->.
  { apply id_in_spec, filtered_ids_elem. by exists r. }
  simpl.
  assert (id_in (news_id r) (snd (pass_ids w self t)) = false) as ->; [| done].
  apply id_in_false. intros (r' & Hr' & _ & Hid & Hf')%passed_ids_elem.
  assert (r' = r) as -> by (by eapply unique_ids_inj). congruence.
Qed.

Lemma classified_passed w self t (r : article) :
  unique_ids t → r ∈ naver_news t → crawl_status r = pending →
  _is_url_filtered w self (url r) = false →
  classified w self t r = set_filter_version (filter_version self) r.
Proof.
  intros Hu Hr Hp Hf. unfold classified.
  assert (id_in (news_id r) (fst (pass_ids w self t)) = false) as ->.
  { apply id_in_false. intros (r' & Hr' & _ & Hid & Hf')%filtered_ids_elem.
    assert (r' = r) as -> by (by eapply unique_ids_inj). congruence. }
  assert (id_in (news_id r) (snd (pass_ids w self t)) = true) as ->; [| done].
  apply id_in_spec, passed_ids_elem. by exists r.
Qed.

Lemma classified_not_pending w self t (r : article) :
  unique_ids t → r ∈ naver_news t → crawl_status r ≠ pending →
  classified w self t r = r.
Proof.
  intros Hu Hr Hp. unfold classified.
  assert (id_in (news_id r) (fst (pass_ids w self t)) = false) as ->.
  { apply id_in_false. intros (r' & Hr' & Hp' & Hid & _)%filtered_ids_elem.
    assert (r' = r) as -> by (by eapply unique_ids_inj). done. }
  assert (id_in (news_id r) (snd (pass_ids w self t)) = false) as ->; [| done].
  apply id_in_false. intros (r' & Hr' & Hp' & Hid & _)%passed_ids_elem.
  assert (r' = r) as -> by (by eapply unique_ids_inj). done.
Qed.

Lemma filter_urls_returned w self t :
  no_filter_fault w →
  filter_urls w self t
  = (pass_effect w self t,
     Returned (Z.of_nat (length (fst (pass_ids w self t))))).
Proof.
  intros Hn. destruct (filter_urls_cases w self t) as [(e & op & _ & _ & H)|[H _]].
  - by rewrite Hn in H.
  - exact H.
Qed.

End ClassifierFacts.

(** ** Properties of the classification pass *)

Module Classifier.
Import Store Crawler Notions StoreFacts PyStrFacts ClassifierFacts.

(** C4.  After a pass that meets no database fault, a record that was
    pending is [url_filtered] exactly when its URL has a host and the
    normalised host matches the blocklist in one of the two directions: the
    host contains an entry, or an entry contains the host.  Otherwise it is
    still [pending]. *)
Theorem filtered_iff_blocklist_match w self t (k : nat) (r : article) :
  unique_ids t →
  no_filter_fault w →
  naver_news t !! k = Some r →
  crawl_status r = pending →
  ∃ r', naver_news (fst (filter_urls w self t)) !! k = Some r'
        ∧ news_id r' = news_id r
        ∧ url r' = url r
        ∧ (crawl_status r' = url_filtered
           ↔ ∃ host, urlparse_netloc w (url r) = Some host
                     ∧ blocklist_match (filtered_domains self) (strip_www host))
        ∧ (crawl_status r' ≠ url_filtered → crawl_status r' = pending).
Proof.
  intros Hu Hn Hk Hp.
  rewrite (filter_urls_returned _ _ _ Hn). simpl fst.
  rewrite pass_effect_rows, list_lookup_fmap, Hk. simpl.
  exists (classified w self t r).
  assert (Hr : r ∈ naver_news t) by (apply list_elem_of_lookup; eauto).
  destruct (classified_keeps w self t r) as (Hid & _ & _ & Hurl & _).
  split; [done |]. split; [done |]. split; [done |].
  rewrite <- is_url_filtered_spec.
  destruct (_is_url_filtered w self (url r)) eqn:Hf.
  - rewrite (classified_filtered _ _ _ _ Hu Hr Hp Hf). simpl. done.
  - rewrite (classified_passed _ _ _ _ Hu Hr Hp Hf). simpl. rewrite Hp.
    split; [split; done | done].
Qed.

Lemma filtered_iff_blocklist_match_witness :
  ∃ r', naver_news (fst (filter_urls Sample.classifier_world Sample.crawler
                           Sample.store0)) !! 0%nat = Some r'
        ∧ news_id r' = 1
        ∧ url r' = "https://news.naver.com/article/1"
        ∧ (crawl_status r' = url_filtered
           ↔ ∃ host, Sample.netloc "https://news.naver.com/article/1" = Some host
                     ∧ blocklist_match (filtered_domains Sample.crawler)
                         (strip_www host))
        ∧ (crawl_status r' ≠ url_filtered → crawl_status r' = pending).
Proof.
  apply (filtered_iff_blocklist_match Sample.classifier_world Sample.crawler
           Sample.store0 0 Sample.naver_article).
  - apply (bool_decide_unpack _). vm_compute. exact I.
  - intros op. reflexivity.
  - reflexivity.
  - reflexivity.
Defined.

(** The two examples of the rule: entry [naver.com] against host
    [news.naver.com], and entry [m.naver.com] against host [naver.com]. *)
Example entry_inside_host :
  _is_url_filtered Sample.classifier_world Sample.crawler
    "https://news.naver.com/article/1" = true.
Proof. vm_compute. reflexivity. Qed.

Example host_inside_entry :
  _is_url_filtered Sample.classifier_world Sample.mobile_crawler
    "https://naver.com/article/1" = true.
Proof. vm_compute. reflexivity. Qed.

Example unrelated_host_passes :
  _is_url_filtered Sample.classifier_world Sample.crawler
    "https://www.example.org/story?id=2" = false.
Proof. vm_compute. reflexivity. Qed.

(** C6.  A pass ends in one of two ways.  Either it raises: then the
    tables are what they were before the pass, and the exception is the one
    a statement of the pass met.  Or it returns: then both UPDATEs of the
    pass are in the tables, and no statement of the pass met a fault.  So a
    fault at any statement the pass gets to undoes the whole pass and
    reaches the caller. *)
Theorem classification_pass_is_atomic w self t :
  let '(t', result) := filter_urls w self t in
  match result with
  | Raised e =>
      t' = t ∧ ∃ op, issued w self t op ∧ filter_fault w op = Some e
  | Returned n =>
      t' = pass_effect w self t
      ∧ n = Z.of_nat (length (fst (pass_ids w self t)))
      ∧ ∀ op, issued w self t op → filter_fault w op = None
  end
  ∧ ∀ op e, issued w self t op → filter_fault w op = Some e →
            t' = t ∧ ∃ e', result = Raised e'.
Proof.
  destruct (filter_urls_cases w self t) as [(e & op & -> & Hi & Hf)|[-> Hn]].
  - split; [split; [done | by exists op] |].
    intros _ _ _ _. split; [done | by exists e].
  - split; [done |]. intros op e Hi Hf. by rewrite (Hn op Hi) in Hf.
Qed.

Lemma classification_pass_is_atomic_witness :
  let '(t', result) :=
    filter_urls Sample.failing_world Sample.failing_crawler Sample.store0 in
  t' = Sample.store0 ∧ ∃ e', result = Raised e'.
Proof.
  pose proof (classification_pass_is_atomic Sample.failing_world
                Sample.failing_crawler Sample.store0) as H.
  destruct (filter_urls Sample.failing_world Sample.failing_crawler Sample.store0)
    as [t' result].
  destruct H as [_ H].
  apply (H UpdatePassed OtherException); [vm_compute; discriminate | reflexivity].
Defined.

(** The pass on the sample store with its second UPDATE failing: the first
    UPDATE, which was executed, is not in the tables. *)
Example failed_pass_on_sample_store :
  filter_urls Sample.failing_world Sample.failing_crawler Sample.store0
  = (Sample.store0, Raised OtherException).
Proof. vm_compute. reflexivity. Qed.

(** C9.  A pass leaves the content table alone and keeps every record in
    its place; of a record it changes at most [crawl_status] and
    [url_filter_version]; a record that was not pending it does not change
    at all.  A pass that meets no database fault returns, and a pending
    record that does not match the blocklist comes out of it, as out of
    every pass that returns, with the filter version of the crawler as its
    [url_filter_version] and nothing else changed: still [pending]. *)
Theorem pass_touches_only_classification w self t :
  unique_ids t →
  let '(t', result) := filter_urls w self t in
  crawled_news t' = crawled_news t
  ∧ length (naver_news t') = length (naver_news t)
  ∧ (no_filter_fault w → ∃ n, result = Returned n)
  ∧ ∀ (k : nat) (r : article), naver_news t !! k = Some r →
      ∃ r', naver_news t' !! k = Some r'
            ∧ same_outside_classification r r'
            ∧ (crawl_status r ≠ pending → r' = r)
            ∧ (crawl_status r = pending →
               _is_url_filtered w self (url r) = false →
               no_filter_fault w ∨ (∃ n, result = Returned n) →
               r' = set_filter_version (filter_version self) r
               ∧ crawl_status r' = pending
               ∧ url_filter_version r' = Some (filter_version self)).
Proof.
  intros Hu.
  destruct (filter_urls_cases w self t) as [(e & op & -> & _ & Hop)|[-> _]].
  - split; [done |]. split; [done |]. split.
    { intros Hn. by rewrite Hn in Hop. }
    intros k r Hk. exists r.
    split; [done |]. split; [done |]. split; [done |].
    intros _ _ [Hn | [n Hn]]; [by rewrite Hn in Hop | discriminate Hn].
  - split; [done |]. split.
    { by rewrite pass_effect_rows, length_map. }
    split; [by eexists |].
    intros k r Hk. exists (classified w self t r).
    assert (Hr : r ∈ naver_news t) by (apply list_elem_of_lookup; eauto).
    split; [by rewrite pass_effect_rows, list_lookup_fmap, Hk |].
    split; [apply classified_keeps |]. split.
    + intros Hp. by apply classified_not_pending.
    + intros Hp Hf _. rewrite (classified_passed _ _ _ _ Hu Hr Hp Hf). done.
Qed.

Lemma pass_touches_only_classification_witness :
  let '(t', result) :=
    filter_urls Sample.classifier_world Sample.crawler Sample.store0 in
  crawled_news t' = crawled_news Sample.store0
  ∧ length (naver_news t') = length (naver_news Sample.store0)
  ∧ (no_filter_fault Sample.classifier_world → ∃ n, result = Returned n)
  ∧ ∀ (k : nat) (r : article), naver_news Sample.store0 !! k = Some r →
      ∃ r', naver_news t' !! k = Some r'
            ∧ same_outside_classification r r'
            ∧ (crawl_status r ≠ pending → r' = r)
            ∧ (crawl_status r = pending →
               _is_url_filtered Sample.classifier_world Sample.crawler (url r)
               = false →
               no_filter_fault Sample.classifier_world
               ∨ (∃ n, result = Returned n) →
               r' = set_filter_version (filter_version Sample.crawler) r
               ∧ crawl_status r' = pending
               ∧ url_filter_version r' = Some (filter_version Sample.crawler)).
Proof.
  apply (pass_touches_only_classification Sample.classifier_world
           Sample.crawler Sample.store0).
  apply (bool_decide_unpack _). vm_compute. exact I.
Defined.

(** The pass on the sample store: record 1 is filtered, record 2 is
    stamped and stays pending, record 3 is not looked at. *)
Example pass_on_sample_store :
  filter_urls Sample.classifier_world Sample.crawler Sample.store0
  = ({| naver_news :=
          [set_url_filtered "v1.00" Sample.naver_article;
           set_filter_version "v1.00" Sample.example_article;
           Sample.crawled_article];
        crawled_news := [] |}, Returned 1).
Proof. vm_compute. reflexivity. Qed.

(** C10.  When the blocklist file cannot be read, the crawler is built with
    an empty filter set; [_is_url_filtered] then answers no for every URL,
    and a pass that meets no database fault returns 0 and gives every
    pending record the filter version, leaving it pending. *)
Theorem unreadable_blocklist_filters_nothing w path version workers t :
  open_lines w path = None →
  no_filter_fault w →
  let self := init w path version workers in
  filtered_domains self = ∅
  ∧ (∀ u, _is_url_filtered w self u = false)
  ∧ ∃ t', filter_urls w self t = (t', Returned 0)
          ∧ ∀ (k : nat) (r : article),
              naver_news t !! k = Some r → crawl_status r = pending →
              naver_news t' !! k
              = Some (set_filter_version (filter_version self) r).
Proof.
  intros Ho Hn self.
  assert (He : filtered_domains self = ∅).
  { unfold self, init, _load_filter_domains. simpl. by rewrite Ho. }
  assert (Hf : ∀ u, _is_url_filtered w self u = false).
  { intros u. unfold _is_url_filtered. rewrite He.
    destruct (urlparse_netloc w u); [| done].
    by rewrite elements_empty. }
  split; [done |]. split; [done |].
  assert (Hnil : fst (pass_ids w self t) = []).
  { apply elem_of_nil_inv. intros id (r & _ & _ & _ & H)%filtered_ids_elem.
    by rewrite Hf in H. }
  exists (pass_effect w self t). split.
  - rewrite (filter_urls_returned _ _ _ Hn). by rewrite Hnil.
  - intros k r Hk Hp.
    rewrite pass_effect_rows, list_lookup_fmap, Hk. simpl. f_equal.
    unfold classified. rewrite Hnil. simpl.
    assert (id_in (news_id r) (snd (pass_ids w self t)) = true) as ->; [| done].
    apply id_in_spec, passed_ids_elem. exists r.
    split; [apply list_elem_of_lookup; eauto |]. done.
Qed.

Lemma unreadable_blocklist_filters_nothing_witness :
  filtered_domains Sample.blind_crawler = ∅
  ∧ (∀ u, _is_url_filtered Sample.classifier_world Sample.blind_crawler u = false)
  ∧ ∃ t', filter_urls Sample.classifier_world Sample.blind_crawler Sample.store0
          = (t', Returned 0)
          ∧ ∀ (k : nat) (r : article),
              naver_news Sample.store0 !! k = Some r →
              crawl_status r = pending →
              naver_news t' !! k
              = Some (set_filter_version
                        (filter_version Sample.blind_crawler) r).
Proof.
  apply (unreadable_blocklist_filters_nothing Sample.classifier_world
           "missing_v2.00.txt" "1.0.0" 5 Sample.store0).
  - reflexivity.
  - intros op. reflexivity.
Defined.

End Classifier.

(** ** Facts about the Harvester's inserts *)

Module HarvesterFacts.
Import Store Harvester Notions StoreFacts.

Lemma insert_all_app (a b : list news_item) (t : tables) :
  insert_all (a ++ b) t = insert_all b (insert_all a t).
Proof. unfold insert_all, apply_writes. by rewrite map_app, fold_left_app. Qed.

Lemma insert_all_cons (i : news_item) (l : list news_item) (t : tables) :
  insert_all (i :: l) t = insert_all l (apply_write (InsertNews i) t).
Proof. done. Qed.

Lemma insert_present (j : news_item) (t : tables) :
  has_url (item_url j) (naver_news t) = true →
  apply_write (InsertNews j) t = t.
Proof. intros H. simpl. by rewrite H. Qed.

Lemma insert_makes_present (i : news_item) (t : tables) :
  has_url (item_url i) (naver_news (apply_write (InsertNews i) t)) = true.
Proof.
  simpl. destruct (has_url (item_url i) (naver_news t)) eqn:H; [done |].
  simpl. apply has_url_spec. rewrite map_app. simpl.
  apply elem_of_app. right. apply list_elem_of_singleton. done.
Qed.

Lemma insert_keeps_present (u : string) (i : news_item) (t : tables) :
  has_url u (naver_news t) = true →
  has_url u (naver_news (apply_write (InsertNews i) t)) = true.
Proof.
  intros H. simpl. destruct (has_url (item_url i) (naver_news t)); [done |].
  simpl. apply has_url_spec. apply has_url_spec in H.
  rewrite map_app. apply elem_of_app. by left.
Qed.

Lemma insert_all_keeps_present (u : string) (l : list news_item) (t : tables) :
  has_url u (naver_news t) = true →
  has_url u (naver_news (insert_all l t)) = true.
Proof.
  revert t. induction l as [|i l IH]; intros t H; [done |].
  rewrite insert_all_cons. by apply IH, insert_keeps_present.
Qed.

Lemma insert_all_makes_present (i : news_item) (l : list news_item) (t : tables) :
  i ∈ l → has_url (item_url i) (naver_news (insert_all l t)) = true.
Proof.
  revert t. induction l as [|i' l IH]; intros t H; [by apply elem_of_nil in H |].
  rewrite insert_all_cons. apply elem_of_cons in H as [->|H].
  - apply insert_all_keeps_present, insert_makes_present.
  - by apply IH.
Qed.

Lemma insert_keeps_unique (i : news_item) (t : tables) :
  unique_urls t → unique_urls (apply_write (InsertNews i) t).
Proof.
  unfold unique_urls. intros H. simpl.
  destruct (has_url (item_url i) (naver_news t)) eqn:Hu; [done |].
  simpl. rewrite map_app. simpl. apply NoDup_app. split; [done |].
  split; [| apply NoDup_singleton].
  intros u Hin Hs. apply list_elem_of_singleton in Hs as ->.
  apply has_url_spec in Hin. congruence.
Qed.

Lemma insert_all_keeps_unique (l : list news_item) (t : tables) :
  unique_urls t → unique_urls (insert_all l t).
Proof.
  revert t. induction l as [|i l IH]; intros t H; [done |].
  rewrite insert_all_cons. by apply IH, insert_keeps_unique.
Qed.

Lemma insert_grows (i : news_item) (t : tables) :
  (length (naver_news t) ≤ length (naver_news (apply_write (InsertNews i) t)))%nat.
Proof.
  simpl. destruct (has_url (item_url i) (naver_news t)); simpl; [done |].
  rewrite length_app. lia.
Qed.

(** In a table with unique URLs a URL that is there is there once. *)
Lemma count_url_unique (u : string) (t : tables) :
  unique_urls t → has_url u (naver_news t) = true → count_url u t = 1%nat.
Proof.
  unfold unique_urls, count_url. intros Hn Hu. apply has_url_spec in Hu.
  induction (naver_news t) as [|r rows IH]; [by apply elem_of_nil in Hu |].
  simpl in Hn, Hu. apply NoDup_cons in Hn as [Hr Hn].
  rewrite filter_cons. destruct (decide (url r = u)) as [<-|Hne].
  - simpl. f_equal. apply length_zero_iff_nil.
    apply elem_of_nil_inv. intros x [Hx Hin]%list_elem_of_filter.
    apply Hr. rewrite <- Hx. by apply list_elem_of_fmap_2.
  - apply IH; [done |]. apply elem_of_cons in Hu as [Hu|Hu]; [congruence | done].
Qed.

(** The loop of [insert_news] when no INSERT fails: every statement is
    executed, nothing is rolled back, and the count is the number of rows
    that came to the view. *)
Lemma insert_loop_no_fault w (items : list news_item) (n : Z) (c : conn) :
  (∀ item, insert_fault w item = false) →
  ∃ c', insert_loop w items n c
        = (c', Returned (n + (Z.of_nat (length (naver_news (view c')))
                              - Z.of_nat (length (naver_news (view c))))))
        ∧ committed c' = committed c
        ∧ view c' = insert_all items (view c).
Proof.
  intros Hf. revert n c. induction items as [|i items IH]; intros n c.
  - exists c. simpl. unfold mret, db_ret. split; [f_equal; f_equal; lia | done].
  - simpl. unfold mbind, db_bind, insert_item, try_except, execute_insert.
    unfold mbind, db_bind. rewrite Hf.
    destruct (has_url (item_url i) (naver_news (view c))) eqn:Hu.
    + unfold mret, db_ret. destruct (IH (n + 0) c) as (c' & -> & Hc & Hv).
      exists c'. split; [f_equal; f_equal; lia |]. split; [done |].
      rewrite Hv, insert_all_cons. by rewrite insert_present.
    + unfold mret, db_ret.
      destruct (IH (n + 1) (execute (InsertNews i) c)) as (c' & -> & Hc & Hv).
      exists c'.
      assert (Hview : view (execute (InsertNews i) c)
                      = apply_write (InsertNews i) (view c)).
      { unfold view, execute. simpl uncommitted. simpl committed.
        apply apply_writes_snoc. }
      rewrite Hview in *. split.
      * f_equal. f_equal.
        assert (length (naver_news (apply_write (InsertNews i) (view c)))
                = S (length (naver_news (view c)))) as ->.
        { simpl. rewrite Hu. simpl. rewrite length_app. simpl. lia. }
        lia.
      * split; [done |]. by rewrite Hv, insert_all_cons.
Qed.

(** [insert_news] on a fresh connection when nothing fails. *)
Lemma insert_news_no_fault w (items : list news_item) (t : tables) :
  no_harvest_fault w →
  insert_news w items (connect t)
  = (connect (insert_all items t),
     Returned (Z.of_nat (length (naver_news (insert_all items t)))
               - Z.of_nat (length (naver_news t)))).
Proof.
  intros [Hf Hc]. destruct items as [|i items].
  - change (insert_all [] t) with t. by rewrite Z.sub_diag.
  - unfold insert_news. unfold mbind, db_bind.
    destruct (insert_loop_no_fault w (i :: items) 0 (connect t) Hf)
      as (c' & -> & Hcom & Hv).
    rewrite Hc. unfold conn_commit, mret, db_ret, commit.
    rewrite view_connect in *. rewrite Hv. f_equal.
Qed.

Lemma invocations_no_fault w (batches : list (list news_item)) (t : tables) :
  no_harvest_fault w →
  invocations w batches t = insert_all (concat batches) t.
Proof.
  intros Hn. revert t. induction batches as [|b batches IH]; intros t; [done |].
  simpl. rewrite (insert_news_no_fault _ _ _ Hn). simpl.
  by rewrite IH, insert_all_app.
Qed.

End HarvesterFacts.

(** ** Properties of [insert_news] *)

Module Inserts.
Import Store Harvester Notions StoreFacts HarvesterFacts.

(** C2.  Let the URL of [j] have been inserted before: by an item of an
    earlier invocation ([history], any number of batches) or by an earlier
    item of the same batch ([before]).  Then, with a store that fails no
    statement, inserting [j] raises nothing and is a no-op: the batch with
    [j] leaves the connection in the same state and returns the same count
    as the batch without [j], so [j] adds 0 to the count; and afterwards the
    table holds exactly one record of that URL. *)
Theorem same_url_twice_is_one_record w t
  (history : list (list news_item)) (before after : list news_item)
  (i j : news_item) :
  no_harvest_fault w →
  unique_urls t →
  item_url i = item_url j →
  i ∈ concat history ∨ i ∈ before →
  let t1 := invocations w history t in
  insert_news w (before ++ j :: after) (connect t1)
  = insert_news w (before ++ after) (connect t1)
  ∧ ∃ c n, insert_news w (before ++ j :: after) (connect t1) = (c, Returned n)
           ∧ count_url (item_url j) (close c) = 1%nat
           ∧ unique_urls (close c).
Proof.
  intros Hn Hu Heq Hin t1.
  assert (Ht1 : t1 = insert_all (concat history) t)
    by apply (invocations_no_fault _ _ _ Hn).
  assert (Hu1 : unique_urls t1) by (rewrite Ht1; by apply insert_all_keeps_unique).
  assert (Hp : has_url (item_url j) (naver_news (insert_all before t1)) = true).
  { rewrite <- Heq. destruct Hin as [Hin|Hin].
    - apply insert_all_keeps_present. rewrite Ht1.
      by apply insert_all_makes_present.
    - by apply insert_all_makes_present. }
  assert (Hsame : insert_all (before ++ j :: after) t1
                  = insert_all (before ++ after) t1).
  { rewrite !insert_all_app, insert_all_cons. by rewrite insert_present. }
  rewrite !(insert_news_no_fault _ _ _ Hn), Hsame. split; [done |].
  eexists _, _. split; [reflexivity |]. simpl.
  assert (Hu2 : unique_urls (insert_all (before ++ after) t1))
    by (by apply insert_all_keeps_unique).
  split; [| done]. apply count_url_unique; [done |].
  rewrite insert_all_app. by apply insert_all_keeps_present.
Qed.

Lemma same_url_twice_is_one_record_witness :
  let t1 := invocations Sample.quiet_world [[Sample.item_a; Sample.item_c]]
              Sample.empty_store in
  insert_news Sample.quiet_world ([] ++ Sample.item_a_again :: [])
    (connect t1)
  = insert_news Sample.quiet_world ([] ++ []) (connect t1)
  ∧ ∃ c n, insert_news Sample.quiet_world ([] ++ Sample.item_a_again :: [])
             (connect t1) = (c, Returned n)
           ∧ count_url (item_url Sample.item_a_again) (close c) = 1%nat
           ∧ unique_urls (close c).
Proof.
  apply (same_url_twice_is_one_record Sample.quiet_world Sample.empty_store
           [[Sample.item_a; Sample.item_c]] [] [] Sample.item_a
           Sample.item_a_again).
  - split; intros; reflexivity.
  - apply NoDup_nil_2.
  - reflexivity.
  - left. simpl. apply elem_of_cons. by left.
Defined.

(** The same on the sample data, run: the URL of [item_a] a second time in
    one batch, and a second time in a later invocation. *)
Example twice_in_one_batch :
  insert_news Sample.quiet_world [Sample.item_a; Sample.item_a_again]
    (connect Sample.empty_store)
  = (connect {| naver_news := [new_article 1 Sample.item_a];
                crawled_news := [] |}, Returned 1).
Proof. vm_compute. reflexivity. Qed.

Example twice_across_invocations :
  insert_news Sample.quiet_world [Sample.item_a_again]
    (connect (invocations Sample.quiet_world [[Sample.item_a]]
                Sample.empty_store))
  = (connect {| naver_news := [new_article 1 Sample.item_a];
                crawled_news := [] |}, Returned 0).
Proof. vm_compute. reflexivity. Qed.

(** C7, on the batch [item_a; item_bad; item_c] whose second INSERT the
    store rejects: the rollback in the handler ends the transaction that
    holds the INSERT of [item_a], so [item_a] is lost; the batch goes on and
    [item_c] is committed; the count returned is 2 for a table that got one
    row. *)
Theorem rollback_loses_earlier_items :
  let '(c, result) :=
    insert_news Sample.rejecting_world
      [Sample.item_a; Sample.item_bad; Sample.item_c]
      (connect Sample.empty_store) in
  result = Returned 2
  ∧ naver_news (close c) = [new_article 1 Sample.item_c]
  ∧ count_url (item_url Sample.item_a) (close c) = 0%nat
  ∧ uncommitted c = [].
Proof. vm_compute. repeat split; reflexivity. Qed.

(** Nothing is lost when the failing item comes first: there is nothing
    before it in the transaction. *)
Example rollback_with_nothing_before :
  insert_news Sample.rejecting_world [Sample.item_bad; Sample.item_a; Sample.item_c]
    (connect Sample.empty_store)
  = (connect {| naver_news := [new_article 1 Sample.item_a;
                               new_article 2 Sample.item_c];
                crawled_news := [] |}, Returned 2).
Proof. vm_compute. reflexivity. Qed.

End Inserts.

(** ** The paging loop of [collect] *)

Module CollectFacts.
Import Store Harvester Notions StoreFacts HarvesterFacts.

Lemma dedup_parse_sees_all w q (ex : gset string) items seen acc seen' new :
  dedup_parse w q ex items seen acc = (seen', Returned new) →
  seen ⊆ seen' ∧ ∀ x, x ∈ items → api_link x ∈ ex ∨ api_link x ∈ seen'.
Proof.
  revert seen acc. induction items as [|a items IH]; intros seen acc H.
  - simpl in H. inversion H; subst. split; [done |].
    intros x Hx. by apply elem_of_nil in Hx.
  - simpl in H.
    destruct (bool_decide (api_link a ∈ ex) || bool_decide (api_link a ∈ seen))
      eqn:Hd.
    + destruct (IH _ _ H) as [Hs Hall]. split; [done |].
      intros x [->|Hx]%elem_of_cons; [| by apply Hall].
      apply orb_true_iff in Hd as [Hd|Hd]; apply bool_decide_eq_true in Hd.
      * by left.
      * right. by apply Hs.
    + destruct (parse_item w a q) as [parsed|e]; [| done].
      destruct (IH _ _ H) as [Hs Hall]. split.
      { intros y Hy. apply Hs, elem_of_union. by right. }
      intros x [->|Hx]%elem_of_cons; [| by apply Hall].
      right. apply Hs, elem_of_union. left. by apply elem_of_singleton.
Qed.

Lemma dedup_parse_all_seen w q (ex : gset string) items seen acc :
  (∀ x, x ∈ items → api_link x ∈ ex ∨ api_link x ∈ seen) →
  dedup_parse w q ex items seen acc = (seen, Returned acc).
Proof.
  induction items as [|a items IH]; intros Hall; [done |].
  simpl.
  assert (bool_decide (api_link a ∈ ex) || bool_decide (api_link a ∈ seen) = true)
    as ->.
  { apply orb_true_iff.
    destruct (Hall a) as [H|H]; [by left | |]; [left | right];
      by apply bool_decide_eq_true. }
  apply IH. intros x Hx. apply Hall. by right.
Qed.

Lemma insert_item_grows w item (n m : Z) (c c' : conn) :
  insert_item w item n c = (c', Returned m) → n <= m.
Proof.
  unfold insert_item, try_except, execute_insert, mbind, db_bind, mret, db_ret,
    conn_rollback.
  destruct (insert_fault w item); [by intros [= _ <-] |].
  destruct (has_url _ _); intros [= _ <-]; lia.
Qed.

Lemma insert_item_returns w item (n : Z) (c : conn) :
  ∃ c' m, insert_item w item n c = (c', Returned m).
Proof.
  unfold insert_item, try_except, execute_insert, mbind, db_bind, mret, db_ret,
    conn_rollback.
  destruct (insert_fault w item); [by eexists _, _ |].
  destruct (has_url _ _); by eexists _, _.
Qed.

Lemma insert_loop_grows w items (n m : Z) (c c' : conn) :
  insert_loop w items n c = (c', Returned m) → n <= m.
Proof.
  revert n c. induction items as [|i items IH]; intros n c.
  - simpl. by intros [= _ <-].
  - simpl. unfold mbind, db_bind.
    destruct (insert_item_returns w i n c) as (c1 & n1 & H1). rewrite H1.
    intros H. apply IH in H. apply insert_item_grows in H1. lia.
Qed.

Lemma insert_news_nonneg w items (n : Z) (c c' : conn) :
  insert_news w items c = (c', Returned n) → 0 <= n.
Proof.
  destruct items as [|i items]; [by intros [= _ <-] |].
  unfold insert_news, mbind, db_bind.
  destruct (insert_loop w (i :: items) 0 c) as [c1 [n1|e]] eqn:H1; [| done].
  apply insert_loop_grows in H1.
  unfold conn_commit. destruct (commit_fault w (i :: items)); [done |].
  unfold mret, db_ret. by intros [= _ <-].
Qed.

Lemma progress_lines_app (a b : list log_line) :
  progress_lines (a ++ b) = progress_lines a ++ progress_lines b.
Proof. unfold progress_lines. apply omap_app. Qed.

(** One pass of the loop against a provider that always answers [items]. *)
Lemma iteration_constant w q total (ex : gset string) items h :
  constant_provider w items →
  ∃ h' ctl, iteration w q total ex h = (h', ctl) ∧
    match ctl with
    | Propagate _ => progress_lines (logged h') = progress_lines (logged h)
    | Break =>
        progress_lines (logged h') = progress_lines (logged h)
        ∨ ∃ c i, progress_lines (logged h')
                 = progress_lines (logged h) ++ [(c, i, inserted_total h + i)]
                 ∧ 0 <= i
    | Next =>
        ∃ c i, progress_lines (logged h')
               = progress_lines (logged h) ++ [(c, i, inserted_total h + i)]
               ∧ 0 < i
               ∧ inserted_total h' = inserted_total h + i
               ∧ ∀ x, x ∈ items →
                   api_link x ∈ ex ∨ api_link x ∈ collected_urls (self h')
    end.
Proof.
  intros Hc. unfold iteration, search_news. rewrite Hc.
  destruct items as [|a items].
  { eexists _, Break. split; [reflexivity |]. left. simpl.
    rewrite progress_lines_app. simpl. by rewrite app_nil_r. }
  destruct (dedup_parse w q ex (a :: items) (collected_urls (self h)) [])
    as [seen [new_items|e]] eqn:Hd.
  2:{ eexists _, (Propagate e). split; [reflexivity | done]. }
  destruct (insert_news w new_items (conn_of (self h))) as [c [n|e]] eqn:Hi.
  2:{ eexists _, (Propagate e). split; [reflexivity | done]. }
  pose proof (insert_news_nonneg _ _ _ _ _ Hi) as Hn.
  destruct (inserted_total h + n =? inserted_total h) eqn:He.
  { eexists _, Break. split; [reflexivity |]. right. simpl.
    rewrite !progress_lines_app. simpl. rewrite app_nil_r. by eexists _, _. }
  apply Z.eqb_neq in He.
  destruct (1000 <? start h + Z.min 100 (total - collected h)) eqn:Hl.
  { eexists _, Break. split; [reflexivity |]. right. simpl.
    rewrite !progress_lines_app. simpl. rewrite app_nil_r. by eexists _, _. }
  apply Z.ltb_ge in Hl.
  eexists _, Next. split; [reflexivity |]. simpl.
  rewrite progress_lines_app. simpl. eexists _, n.
  split; [reflexivity |]. split; [lia |]. split; [done |].
  by apply (dedup_parse_sees_all _ _ _ _ _ _ _ _ Hd).
Qed.

(** The same pass once every item of the answer has been seen. *)
Lemma iteration_all_seen w q total (ex : gset string) items h :
  constant_provider w items →
  (∀ x, x ∈ items → api_link x ∈ ex ∨ api_link x ∈ collected_urls (self h)) →
  ∃ h', iteration w q total ex h = (h', Break)
        ∧ (progress_lines (logged h') = progress_lines (logged h)
           ∨ ∃ c, progress_lines (logged h')
                  = progress_lines (logged h) ++ [(c, 0, inserted_total h)]).
Proof.
  intros Hc Hall. unfold iteration, search_news. rewrite Hc.
  destruct items as [|a items].
  { eexists. split; [reflexivity |]. left. simpl.
    rewrite progress_lines_app. simpl. by rewrite app_nil_r. }
  rewrite (dedup_parse_all_seen _ _ _ _ _ _ Hall).
  simpl insert_news. unfold mret, db_ret.
  rewrite Z.add_0_r, Z.eqb_refl.
  eexists. split; [reflexivity |]. right. simpl.
  rewrite !progress_lines_app. simpl. rewrite app_nil_r. by eexists.
Qed.

(** A pass that goes on to the next page has moved the offset up, and not
    beyond the window of the provider. *)
Lemma iteration_next_advances w q total (ex : gset string) h h' :
  collected h < total →
  iteration w q total ex h = (h', Next) →
  start h < start h' <= 1000.
Proof.
  intros Hlt. unfold iteration.
  destruct (search_news w q _ (start h)) as [[[|a items]|]|]; try done.
  destruct (dedup_parse _ _ _ _ _ _) as [seen [new_items|e]]; [| done].
  destruct (insert_news _ _ _) as [c [n|e]]; [| done].
  destruct (_ =? _); [done |].
  destruct (1000 <? _) eqn:Hl; [done |].
  apply Z.ltb_ge in Hl. intros [= <-]. simpl. lia.
Qed.

(** The loop leaves before the fuel of [collect] is used up. *)
Lemma collect_loop_total (fuel : nat) w q total (ex : gset string) h :
  start h <= 1000 →
  1001 - start h <= Z.of_nat fuel →
  is_Some (collect_loop fuel w q total ex h).
Proof.
  revert h. induction fuel as [|fuel IH]; intros h H1 H2.
  - lia.
  - simpl. destruct (collected h <? total) eqn:Hlt; [| done].
    apply Z.ltb_lt in Hlt.
    destruct (iteration w q total ex h) as [h' [| |e]] eqn:Hi; [| done | done].
    apply iteration_next_advances in Hi; [| done].
    apply IH; lia.
Qed.

Lemma collect_total w obj q total : is_Some (collect w obj q total).
Proof.
  unfold collect.
  destruct (collect_loop_total max_pages w q total (get_existing_urls w obj)
              (mk_harvest (mk_collector (conn_of obj) ∅) 0 0 1 [LogStart total]))
    as [[h [e|]] ->]; simpl; try done; unfold max_pages; lia.
Qed.

Lemma collect_loop_S (fuel : nat) w q total (ex : gset string) h :
  collect_loop (S fuel) w q total ex h
  = if collected h <? total then
      match iteration w q total ex h with
      | (h', Next) => collect_loop fuel w q total ex h'
      | (h', Break) => Some (h', None)
      | (h', Propagate e) => Some (h', Some e)
      end
    else Some (h, None).
Proof. done. Qed.

(** The pages of a run against a provider that always answers the same:
    none, one, or a first page that inserted something followed by a second
    that inserted nothing. *)
Lemma collect_pages_constant w obj q total items :
  constant_provider w items →
  ∃ obj' log result,
    collect w obj q total = Some (obj', log, result)
    ∧ (progress_lines log = []
       ∨ (∃ c i, progress_lines log = [(c, i, i)] ∧ 0 <= i)
       ∨ (∃ c i c', progress_lines log = [(c, i, i); (c', 0, i)] ∧ 0 < i)).
Proof.
  intros Hc. unfold collect.
  set (ex := get_existing_urls w obj).
  set (h0 := mk_harvest (mk_collector (conn_of obj) ∅) 0 0 1 [LogStart total]).
  change max_pages with (S (S 998)). rewrite collect_loop_S.
  destruct (collected h0 <? total).
  2:{ eexists _, _, _. split; [reflexivity |]. by left. }
  destruct (iteration_constant w q total ex items h0 Hc)
    as (h1 & ctl & Hi & Hctl).
  rewrite Hi. destruct ctl as [| |e].
  - destruct Hctl as (c & i & Hp & Hpos & Htot & Hall). simpl in Hp, Htot.
    rewrite collect_loop_S. destruct (collected h1 <? total).
    + destruct (iteration_all_seen w q total ex items h1 Hc Hall)
        as (h2 & Hi2 & Hp2).
      rewrite Hi2. eexists _, _, _. split; [reflexivity |].
      rewrite progress_lines_app. simpl. rewrite app_nil_r.
      destruct Hp2 as [Hp2|[c' Hp2]]; rewrite Hp2, Hp, ?Htot; simpl.
      * right. left. exists c, i. split; [done | lia].
      * right. right. by exists c, i, c'.
    + eexists _, _, _. split; [reflexivity |].
      rewrite progress_lines_app. simpl. rewrite app_nil_r, Hp.
      right. left. exists c, i. split; [done | lia].
  - eexists _, _, _. split; [reflexivity |].
    rewrite progress_lines_app. simpl. rewrite app_nil_r.
    destruct Hctl as [Hp|(c & i & Hp & Hpos)]; rewrite Hp; simpl.
    + by left.
    + right. left. by exists c, i.
  - eexists _, _, _. split; [reflexivity |]. rewrite Hctl. by left.
Qed.

End CollectFacts.

(** ** Property of the paging loop *)

Module Paging.
Import Store Harvester Notions CollectFacts.

(** C3.  Against a provider that answers every request with the same
    items, [collect] comes to an end, after at most two pages; a page that
    does not raise the cumulative inserted-total is the last page of the
    run; and a second page, when there is one, is such a page. *)
Theorem constant_provider_stops_paging w obj query total items :
  constant_provider w items →
  ∃ obj' log result,
    collect w obj query total = Some (obj', log, result)
    ∧ (length (progress_lines log) ≤ 2)%nat
    ∧ (∀ k, stalled (progress_lines log) k → S k = length (progress_lines log))
    ∧ (length (progress_lines log) = 2%nat → stalled (progress_lines log) 1).
Proof.
  intros Hc.
  destruct (collect_pages_constant w obj query total items Hc)
    as (obj' & log & result & Hrun & Hpages).
  exists obj', log, result. split; [done |].
  destruct Hpages as [->|[(c & i & -> & Hi)|(c & i & c' & -> & Hi)]]; simpl.
  - split; [lia |]. split; [| done].
    intros k (? & ? & ? & Hk & _). by destruct k.
  - split; [lia |]. split; [| done].
    intros k (? & ? & ? & Hk & _). by destruct k as [|[|k]].
  - split; [lia |]. split.
    + intros k (? & ? & t & Hk & Hle). destruct k as [|[|k]]; [| done | done].
      simpl in Hk, Hle. inversion Hk; subst. lia.
    + intros _. exists c', 0, i. split; [done |]. simpl. lia.
Qed.

Lemma constant_provider_stops_paging_witness :
  ∃ obj' log result,
    collect Sample.repeating_world Sample.fresh_collector "k" 1000
    = Some (obj', log, result)
    ∧ (length (progress_lines log) ≤ 2)%nat
    ∧ (∀ k, stalled (progress_lines log) k → S k = length (progress_lines log))
    ∧ (length (progress_lines log) = 2%nat → stalled (progress_lines log) 1).
Proof.
  apply (constant_provider_stops_paging Sample.repeating_world
           Sample.fresh_collector "k" 1000 Sample.same_page).
  intros query display start. reflexivity.
Defined.

(** The run on the sample provider: two new records on the first page,
    nothing on the second, and the loop is left. *)
Example repeating_provider_run :
  ∃ obj',
    collect Sample.repeating_world Sample.fresh_collector "k" 1000
    = Some (obj',
            [LogStart 1000; LogProgress 2 2 2; LogProgress 4 0 2; LogNoNewData;
             LogDone 4 2],
            Returned 2)
    ∧ length (naver_news (committed (conn_of obj'))) = 2%nat.
Proof. eexists. split; vm_compute; reflexivity. Qed.

(** [collect] never runs out of pages to ask for: the bound of
    [Harvester.max_pages] is not a limit of the model. *)
Lemma collect_returns w obj query total :
  is_Some (collect w obj query total).
Proof. apply collect_total. Qed.

End Paging.

(** ** Facts about the crawl of one record *)

Module CrawlFacts.
Import Store Crawler Race Notions StoreFacts.

Lemma find_map_id (g : article → article) (id : Z) (rows : list article) :
  (∀ r, news_id (g r) = news_id r) →
  find (fun r => Z.eqb (news_id r) id) (map g rows)
  = g <$> find (fun r => Z.eqb (news_id r) id) rows.
Proof.
  intros Hg. induction rows as [|r rows IH]; [done |].
  simpl. rewrite Hg. destruct (news_id r =? id); [done | apply IH].
Qed.

Lemma find_article_update (ids : list Z) (f : article → article) id t c :
  (∀ r, news_id (f r) = news_id r) →
  find_article id {| naver_news := update_where ids f (naver_news t);
                     crawled_news := c |}
  = (fun r => if id_in (news_id r) ids then f r else r) <$> find_article id t.
Proof.
  intros Hf. unfold find_article, update_where. simpl. apply find_map_id.
  intros r. by destruct (id_in (news_id r) ids).
Qed.

Lemma find_article_id id t r : find_article id t = Some r → news_id r = id.
Proof.
  unfold find_article. intros H. apply find_some in H as [_ H].
  by apply Z.eqb_eq.
Qed.

Lemma id_in_self (id : Z) : id_in id [id] = true.
Proof. simpl. by rewrite Z.eqb_refl. Qed.

(** The claim leaves the article in place, with status [crawling]. *)
Lemma status_after_claim id t :
  is_Some (find_article id t) →
  status_of id (apply_write (SetCrawling id) t) = Some crawling.
Proof.
  intros [r Hr]. unfold status_of, apply_write.
  rewrite find_article_update by done. rewrite Hr.
  cbn [fmap option_fmap option_map].
  by rewrite (find_article_id _ _ _ Hr), id_in_self.
Qed.

Lemma status_after_set st id t :
  is_Some (find_article id t) →
  status_of id (apply_write (SetStatus st id) t) = Some st.
Proof.
  intros [r Hr]. unfold status_of, apply_write.
  rewrite find_article_update by done. rewrite Hr.
  cbn [fmap option_fmap option_map].
  by rewrite (find_article_id _ _ _ Hr), id_in_self.
Qed.

Lemma article_stays (wr : write) id t :
  (∀ item, wr ≠ InsertNews item) →
  is_Some (find_article id t) → is_Some (find_article id (apply_write wr t)).
Proof.
  intros Hw [r Hr]. destruct wr; simpl;
    try (rewrite find_article_update by done; rewrite Hr; by eexists).
  - by destruct (Hw item).
  - unfold find_article. simpl. by exists r.
Qed.

Lemma count_content_insert (row : content) id t :
  content_news_id row = id →
  count_content id (apply_write (InsertContent row) t) = S (count_content id t).
Proof.
  intros H. unfold count_content. simpl. rewrite filter_app, length_app.
  rewrite filter_cons, decide_True by done. simpl. lia.
Qed.

Lemma has_content_count id t :
  has_content id (crawled_news t) = true ↔ (0 < count_content id t)%nat.
Proof.
  unfold has_content, count_content.
  induction (crawled_news t) as [|r rows IH]; simpl; [split; [done | lia] |].
  rewrite filter_cons. destruct (Z.eqb_spec (content_news_id r) id) as [He|He].
  - rewrite decide_True by done. simpl. split; [lia | done].
  - rewrite decide_False by done. simpl. exact IH.
Qed.

Lemma no_content_count id t :
  has_content id (crawled_news t) = false ↔ count_content id t = 0%nat.
Proof.
  pose proof (has_content_count id t) as [H1 H2].
  destruct (has_content id (crawled_news t)); split; intros H; try done.
  - specialize (H1 eq_refl). lia.
  - destruct (count_content id t); [done |].
    assert (false = true) by (apply H2; lia). done.
Qed.

(** Every call brings the function closer to its return. *)
Lemma worker_step_rank self others w t w' t' :
  worker_step self others w t = Some (w', t') →
  (rank (at_pc w') < rank (at_pc w))%nat.
Proof.
  unfold worker_step, inner_handler.
  destruct (at_pc w); repeat case_match; intros [= <- <-]; simpl; lia.
Qed.

(** Alone, a call is never kept waiting. *)
Lemma worker_step_alone self w t :
  result_of w = None → is_Some (worker_step self [] w t).
Proof.
  unfold worker_step, result_of.
  destruct (at_pc w); repeat case_match; done.
Qed.

Lemma run_alone_finishes (fuel : nat) self w t :
  (rank (at_pc w) ≤ fuel)%nat →
  is_Some (result_of (fst (run_alone fuel self w t))).
Proof.
  revert w t. induction fuel as [|fuel IH]; intros w t Hr.
  - simpl. destruct (at_pc w) eqn:E; simpl in Hr; try lia.
    unfold result_of. rewrite E. done.
  - simpl. destruct (result_of w) eqn:Hres.
    + assert (worker_step self [] w t = None) as ->.
      { unfold worker_step, result_of in *. by destruct (at_pc w). }
      simpl. by rewrite Hres.
    + destruct (worker_step_alone self w t Hres) as [[w' t'] Hs]. rewrite Hs.
      apply IH. apply worker_step_rank in Hs. lia.
Qed.

Lemma rank_enter (tw : task_world) : (rank (enter tw) ≤ longest_path)%nat.
Proof. unfold enter, longest_path. repeat case_match; simpl; lia. Qed.

(** With its connection and its cursor, a call starts at the claim. *)
Lemma enter_claim (tw : task_world) :
  crawl_fault tw Connect = None → crawl_fault tw OpenCursor = None →
  enter tw = AtClaim.
Proof. unfold enter. by intros -> ->. Qed.

(** [_process_single_news] comes to its end: it returns ['success'] or
    ['failed'], or it raises. *)
Lemma process_single_news_returns self tw news_data t :
  is_Some (snd (_process_single_news self tw news_data t)).
Proof.
  unfold _process_single_news.
  pose proof (run_alone_finishes longest_path self (start_worker news_data tw) t)
    as H.
  destruct (run_alone longest_path self (start_worker news_data tw) t) as [w t'].
  simpl in *. apply H. destruct news_data as [[? ?] ?]. apply rank_enter.
Qed.

End CrawlFacts.

(** ** Properties of one Crawler run *)

Module CrawlerRun.
Import Store Crawler Race Notions StoreFacts CrawlFacts.

(** One run on a store with one pending record, everything going well:
    the record is stamped, claimed once, crawled, and ends in
    [crawl_success] with its content row. *)
Example run_end_to_end :
  run Sample.classifier_world Sample.crawler (fun _ => Sample.clean_task) None
    Sample.one_pending
  = ({| naver_news :=
          [ {| news_id := 2; title := "second"; pub_date := 1700000200;
               url := "https://www.example.org/story?id=2";
               search_keyword := "k"; api_request_date := 1700000400;
               crawl_status := crawl_success;
               url_filter_version := Some "v1.00";
               crawl_attempt_count := 1 |} ];
        crawled_news :=
          [ {| content_news_id := 2; content_text := "hello";
               content_crawler_version := "1.0.0";
               content_response_time_ms := 120;
               content_crawled_at := 1700001000 |} ] |},
     Returned (0, 1, 0)).
Proof. vm_compute. reflexivity. Qed.

(** C1, on a store with one pending record whose fetch brings text and
    whose INSERT into [crawled_news] raises an error other than
    [IntegrityError]: the run counts the record as failed, and the record
    is left in [crawling], with the attempt counted and no content row.  The
    handler [except Exception] rolls back and returns ['failed'] without
    writing [crawl_failed]; the claim was committed before. *)
Theorem unexpected_error_leaves_crawling :
  let '(t', result) :=
    run Sample.classifier_world Sample.crawler
      (fun _ => Sample.insert_fails_task) None Sample.one_pending in
  result = Returned (0, 0, 1)
  ∧ status_of 2 t' = Some crawling
  ∧ crawl_attempt_count <$> find_article 2 t' = Some 1
  ∧ crawled_news t' = [].
Proof. vm_compute. repeat split; reflexivity. Qed.

(** The sibling path: a fetch without text writes [crawl_failed] before it
    returns ['failed']. *)
Example empty_fetch_ends_failed :
  let '(t', result) :=
    _process_single_news Sample.crawler
      {| newspaper_text := fun _ => Some "   ";
         elapsed_ms := 80; datetime_now := 1700001000;
         crawl_fault := fun _ => None |}
      (2, "https://www.example.org/story?id=2", "second")
      Sample.one_eligible in
  result = Some failed ∧ status_of 2 t' = Some crawl_failed.
Proof. vm_compute. split; reflexivity. Qed.

(** One call of a worker whose faults are known from [Hnf]. *)
Ltac call Hnf :=
  unfold worker_step at 1;
  cbn [at_pc task_id txn surroundings task_url stage jump end_txn
       locks_article locks_content existsb inner_handler app];
  rewrite ?Hnf.

(** Where the property holds: when no database call of the task fails, the
    record of the task ends in [crawl_success] or in [crawl_failed], in line
    with what the call returns. *)
Lemma process_without_fault_is_terminal self tw id u ttl t :
  no_crawl_fault tw →
  is_Some (find_article id t) →
  let '(t', result) := _process_single_news self tw (id, u, ttl) t in
  (result = Some success ∧ status_of id t' = Some crawl_success)
  ∨ (result = Some failed ∧ status_of id t' = Some crawl_failed).
Proof.
  intros Hnf Hart. unfold _process_single_news, longest_path, start_worker.
  rewrite enter_claim by apply Hnf.
  assert (Hc : is_Some (find_article id (apply_write (SetCrawling id) t)))
    by (by apply article_stays).
  simpl run_alone. do 3 call Hnf.
  change (apply_writes [SetCrawling id] t) with (apply_write (SetCrawling id) t).
  destruct (crawl_article tw u) as [[text|] ms].
  - call Hnf. rewrite apply_writes_nil.
    destruct (has_content id (crawled_news (apply_write (SetCrawling id) t))).
    + do 4 call Hnf. left. split; [done |].
      by apply (status_after_set crawl_success).
    + do 3 call Hnf. left. split; [done |].
      apply (status_after_set crawl_success). by apply article_stays.
  - do 3 call Hnf. right. split; [done |].
    by apply (status_after_set crawl_failed).
Qed.

(** Where it does not: for every record and every store, an INSERT that
    raises an error other than [IntegrityError] after a fetch with text
    leaves the record in [crawling], when the connection, the claim and the
    rollback of the handler meet no error of their own. *)
Lemma insert_error_leaves_crawling self tw id u ttl t text ms :
  crawl_fault tw Connect = None →
  crawl_fault tw OpenCursor = None →
  crawl_fault tw ErrorRollback = None →
  crawl_fault tw ClaimUpdate = None →
  crawl_fault tw ClaimCommit = None →
  crawl_fault tw ContentInsert = Some OtherException →
  crawl_article tw u = (Some text, ms) →
  is_Some (find_article id t) →
  _process_single_news self tw (id, u, ttl) t
  = (apply_write (SetCrawling id) t, Some failed)
  ∧ status_of id (apply_write (SetCrawling id) t) = Some crawling.
Proof.
  intros Hc Ho Hr H1 H2 H3 Hf Hart. split; [| by apply status_after_claim].
  unfold _process_single_news, longest_path, start_worker.
  rewrite (enter_claim tw Hc Ho). simpl run_alone.
  call H1. call H2. call H1. rewrite Hf. call H3. call Hr. call H1.
  done.
Qed.

End CrawlerRun.

(** ** Two workers on one article: the invariant and its consequences *)

Module RaceFacts.
Import Store Crawler Race Notions StoreFacts CrawlFacts.

Lemma swap_swap (s : system) : swap (swap s) = s.
Proof. by destruct s. Qed.

Lemma system_step_swap self (s : system) :
  system_step self Second s = swap <$> system_step self First (swap s).
Proof.
  unfold system_step, swap. simpl.
  by destruct (worker_step self (txn (first s)) (second s) (shared s))
    as [[w t]|].
Qed.

Lemma race_invariant_swap id (s : system) :
  race_invariant id s → race_invariant id (swap s).
Proof.
  unfold race_invariant, swap. simpl.
  intros (R1 & R2 & Ha & G1 & G2 & G3).
  split; [done |]. split; [done |]. split; [done |]. split; [lia |].
  split.
  - by rewrite orb_comm.
  - by rewrite orb_comm, andb_comm.
Qed.

Lemma race_invariant_start id u ttl tw1 tw2 t :
  is_Some (find_article id t) →
  (count_content id t ≤ 1)%nat →
  no_crawl_fault tw1 → no_crawl_fault tw2 →
  fetches_text tw1 u → fetches_text tw2 u →
  race_invariant id (race_start (id, u, ttl) tw1 tw2 t).
Proof.
  intros Ha Hc N1 N2 F1 F2.
  unfold race_invariant, race_start, racer, start_worker.
  rewrite (enter_claim tw1), (enter_claim tw2) by done. simpl.
  repeat split; try done.
  - unfold holds_insert. simpl. lia.
  - by right; right.
Qed.

Lemma locks_content_of_insert id (w : worker) :
  txn_at id w → holds_insert w = true → locks_content id (txn w) = true.
Proof.
  unfold txn_at, holds_insert.
  destruct (at_pc w); try done; intros (row & Hrow & ->) _; simpl;
    by rewrite Hrow, Z.eqb_refl.
Qed.

Lemma count_after_claim id j t :
  count_content id (apply_writes [SetCrawling j] t) = count_content id t.
Proof. done. Qed.

Lemma count_after_status id st j t :
  count_content id (apply_writes [SetStatus st j] t) = count_content id t.
Proof. done. Qed.

Lemma count_after_insert id row st j t :
  content_news_id row = id →
  count_content id (apply_writes [InsertContent row; SetStatus st j] t)
  = S (count_content id t).
Proof.
  intros H. change (apply_writes [InsertContent row; SetStatus st j] t)
    with (apply_write (SetStatus st j) (apply_write (InsertContent row) t)).
  rewrite <- (count_content_insert row id t H). done.
Qed.

Lemma article_after_claim id j t :
  is_Some (find_article id t) →
  is_Some (find_article id (apply_writes [SetCrawling j] t)).
Proof. by apply article_stays. Qed.

Lemma article_after_status id st j t :
  is_Some (find_article id t) →
  is_Some (find_article id (apply_writes [SetStatus st j] t)).
Proof. by apply article_stays. Qed.

Lemma article_after_insert id row st j t :
  is_Some (find_article id t) →
  is_Some (find_article id (apply_writes [InsertContent row; SetStatus st j] t)).
Proof.
  intros H.
  change (apply_writes [InsertContent row; SetStatus st j] t)
    with (apply_write (SetStatus st j) (apply_write (InsertContent row) t)).
  apply article_stays; [done |]. by apply article_stays.
Qed.

Lemma status_after_retry id st t :
  is_Some (find_article id t) →
  status_of id (apply_writes [SetStatus st id] t) = Some st.
Proof. apply status_after_set. Qed.

Lemma status_after_success id row st t :
  is_Some (find_article id t) →
  status_of id (apply_writes [InsertContent row; SetStatus st id] t) = Some st.
Proof.
  intros H.
  change (apply_writes [InsertContent row; SetStatus st id] t)
    with (apply_write (SetStatus st id) (apply_write (InsertContent row) t)).
  apply status_after_set. by apply article_stays.
Qed.

(** The fields of a worker, and what the position says, one layer at a
    time; the tables stay as they are written. *)
Ltac look :=
  cbn [first second shared holds_insert past_insert owes_status before_claim
       at_pc txn task_id surroundings task_url txn_at stage jump end_txn
       inner_handler orb andb app] in *.

Lemma race_invariant_first_step self id (s s' : system) :
  race_invariant id s →
  system_step self First s = Some s' →
  race_invariant id s'.
Proof.
  intros (R1 & R2 & Ha & G1 & G2 & G3) Hstep.
  destruct s as [w1 w2 t]. cbn [first second shared] in *.
  unfold system_step in Hstep. cbn [first second shared] in Hstep.
  destruct (worker_step self (txn w2) w1 t) as [[w1' t']|] eqn:Hw; [| done].
  injection Hstep as <-.
  destruct R1 as (Hid & Hnf & Hft & Htx).
  pose proof (locks_content_of_insert id w2 (proj2 (proj2 (proj2 R2)))) as Hlk.
  unfold race_invariant. cbn [first second shared].
  remember (holds_insert w2) as h2 eqn:Eh in *.
  remember (past_insert w2) as p2 eqn:Ep in *.
  remember (owes_status w2) as o2 eqn:Eo in *.
  remember (before_claim w2) as b2 eqn:Eb in *.
  clear Eh Ep Eo Eb.
  destruct w1 as [id1 u1 ttl1 pc1 tx1 tw1]. look. subst id1.
  unfold worker_step in Hw. look. unfold racer at 1.
  destruct pc1; try done; look; rewrite ?Hnf in Hw.
  - (* the claim is executed *)
    destruct (locks_article id (txn w2)); [done |]. injection Hw as <- <-.
    subst tx1. look. split_and!; done.
  - (* the claim is committed *)
    injection Hw as <- <-. subst tx1. look.
    rewrite count_after_claim. split_and!; try done.
    + by apply article_after_claim.
    + by right; left.
  - (* the fetch *)
    pose proof Hft as (text & ms & Hf). rewrite Hf in Hw.
    injection Hw as <- <-. subst tx1. look. split_and!; done.
  - (* the INSERT *)
    destruct (locks_content id (txn w2)) eqn:Hlock; [done |].
    assert (h2 = false) as ->.
    { destruct h2; [| done]. by specialize (Hlk eq_refl). }
    subst tx1. rewrite apply_writes_nil in Hw.
    destruct (has_content id (crawled_news t)) eqn:Hhas;
      injection Hw as <- <-; look.
    + apply has_content_count in Hhas. split_and!; try done.
      intros _. lia.
    + apply no_content_count in Hhas. split_and!; try done.
      * eexists. split; [| reflexivity]. done.
      * lia.
  - (* the UPDATE after the INSERT *)
    destruct (locks_article id (txn w2)); [done |]. injection Hw as <- <-.
    destruct Htx as (row & Hrow & ->). look. split_and!; try done.
    by exists row.
  - (* the commit of INSERT and UPDATE *)
    injection Hw as <- <-. destruct Htx as (row & Hrow & ->). look.
    rewrite (count_after_insert _ _ _ _ _ Hrow).
    split_and!; try done.
    + by apply article_after_insert.
    + destruct h2; lia.
    + intros _. destruct h2; lia.
    + left. by apply status_after_success.
  - (* the rollback after the duplicate *)
    injection Hw as <- <-. look. split_and!; done.
  - (* the UPDATE after the duplicate *)
    destruct (locks_article id (txn w2)); [done |]. injection Hw as <- <-.
    subst tx1. look. split_and!; done.
  - (* the commit after the duplicate *)
    injection Hw as <- <-. subst tx1. look.
    rewrite count_after_status. split_and!; try done.
    + by apply article_after_status.
    + left. by apply status_after_retry.
Qed.

Lemma race_invariant_step self id who (s s' : system) :
  race_invariant id s →
  system_step self who s = Some s' →
  race_invariant id s'.
Proof.
  intros Hi Hs. destruct who.
  - by eapply race_invariant_first_step.
  - rewrite system_step_swap in Hs.
    destruct (system_step self First (swap s)) as [s1|] eqn:H1; [| done].
    injection Hs as <-. apply race_invariant_swap.
    eapply race_invariant_first_step; [| exact H1].
    by apply race_invariant_swap.
Qed.

Lemma race_invariant_schedule self id (schedule : list side) (s s' : system) :
  race_invariant id s →
  run_schedule self schedule s = Some s' →
  race_invariant id s'.
Proof.
  revert s. induction schedule as [|who rest IH]; intros s Hi Hr; simpl in Hr.
  - by injection Hr as <-.
  - destruct (system_step self who s) as [s1|] eqn:H1; [| done].
    eapply IH; [| exact Hr]. by eapply race_invariant_step.
Qed.

(** What the invariant says once both workers have returned. *)
Lemma race_invariant_final id (s : system) :
  race_invariant id s →
  both_returned s →
  count_content id (shared s) = 1%nat
  ∧ status_of id (shared s) = Some crawl_success
  ∧ result_of (first s) = Some success
  ∧ result_of (second s) = Some success.
Proof.
  intros ((_ & _ & _ & T1) & (_ & _ & _ & T2) & _ & _ & G2 & G3) [[r1 H1] [r2 H2]].
  unfold result_of, txn_at, past_insert, owes_status, before_claim in *.
  destruct (at_pc (first s)) as [| | | | | | | | | | | |[| |?]]; try done.
  destruct (at_pc (second s)) as [| | | | | | | | | | | |[| |?]]; try done.
  split; [by apply G2 |]. split; [| done].
  by destruct G3 as [G3|[G3|G3]].
Qed.

(** A worker that nobody keeps waiting makes its call. *)
Lemma racer_steps_when_free self id others (w : worker) t :
  racer id w →
  result_of w = None →
  locks_article id others = false →
  locks_content id others = false →
  is_Some (worker_step self others w t).
Proof.
  intros (Hid & Hnf & (text & ms & Hf) & Htx) Hr La Lc.
  unfold worker_step, result_of, txn_at in *. rewrite Hid, La, Lc.
  destruct (at_pc w); try done; rewrite ?Hnf, ?Hf; try done.
  by destruct (has_content _ _).
Qed.

(** A worker that holds a lock is at a commit, which waits for nobody, or
    at the UPDATE after its INSERT. *)
Lemma racer_with_lock_steps self id others (w : worker) t :
  racer id w →
  locks_article id (txn w) = true ∨ locks_content id (txn w) = true →
  locks_article id others = false →
  is_Some (worker_step self others w t).
Proof.
  intros (Hid & Hnf & _ & Htx) Hl La.
  unfold worker_step, txn_at in *. rewrite Hid, La.
  destruct (at_pc w) as [| | | | | | | | | | | |[| |?]]; try done;
    rewrite ?Hnf; try done;
    rewrite Htx in Hl; simpl in Hl; by destruct Hl.
Qed.

(** A worker that is kept waiting holds no lock on the article. *)
Lemma waiting_racer_holds_no_article self id others (w : worker) t :
  racer id w →
  result_of w = None →
  worker_step self others w t = None →
  locks_article id (txn w) = false.
Proof.
  intros (Hid & Hnf & (text & ms & Hf) & Htx) Hr Hs.
  unfold worker_step, result_of, txn_at in *.
  destruct (at_pc w); try done; rewrite ?Hnf, ?Hf in Hs; try done;
    try (by rewrite Htx);
    try (by destruct Htx as (row & _ & ->)).
Qed.

Lemma finished_racer_holds_nothing id (w : worker) :
  racer id w → is_Some (result_of w) → txn w = [].
Proof.
  intros (_ & _ & _ & Htx) [r Hr]. unfold result_of, txn_at in *.
  by destruct (at_pc w) as [| | | | | | | | | | | |[| |?]].
Qed.

Lemma first_or_second_steps self id (s : system) :
  racer id (first s) → racer id (second s) →
  result_of (first s) = None →
  ∃ who s', system_step self who s = Some s'.
Proof.
  intros R1 R2 Hr.
  destruct (worker_step self (txn (second s)) (first s) (shared s))
    as [[w t]|] eqn:H1.
  { exists First. eexists. unfold system_step. by rewrite H1. }
  assert (L1 : locks_article id (txn (first s)) = false)
    by (by eapply waiting_racer_holds_no_article).
  destruct (locks_article id (txn (second s))) eqn:La;
    [| destruct (locks_content id (txn (second s))) eqn:Lc].
  - destruct (racer_with_lock_steps self id (txn (first s)) (second s)
                (shared s) R2 (or_introl La) L1) as [[w t] H2].
    exists Second. eexists. unfold system_step. by rewrite H2.
  - destruct (racer_with_lock_steps self id (txn (first s)) (second s)
                (shared s) R2 (or_intror Lc) L1) as [[w t] H2].
    exists Second. eexists. unfold system_step. by rewrite H2.
  - destruct (racer_steps_when_free self id (txn (second s)) (first s)
                (shared s) R1 Hr La Lc) as [x Hx]. congruence.
Qed.

(** While one of the two has not returned, one of the two can make its
    call: the race does not get stuck. *)
Lemma race_progress self id (s : system) :
  race_invariant id s →
  ¬ both_returned s →
  ∃ who s', system_step self who s = Some s'.
Proof.
  intros (R1 & R2 & _) Hnot.
  destruct (result_of (first s)) eqn:H1.
  - destruct (result_of (second s)) eqn:H2.
    { destruct Hnot. split; by eexists. }
    destruct (first_or_second_steps self id (swap s)) as (who & s' & Hs);
      [done | done | done |].
    destruct who.
    + exists Second, (swap s'). rewrite system_step_swap, Hs. done.
    + exists First, (swap s'). rewrite system_step_swap, swap_swap in Hs.
      destruct (system_step self First s) as [s1|]; [| done].
      injection Hs as <-. by rewrite swap_swap.
  - by eapply first_or_second_steps.
Qed.

(** Every turn uses up a call of the worker that takes it. *)
Lemma schedule_bound self (schedule : list side) (s s' : system) :
  run_schedule self schedule s = Some s' →
  (length schedule + rank (at_pc (first s')) + rank (at_pc (second s'))
   ≤ rank (at_pc (first s)) + rank (at_pc (second s)))%nat.
Proof.
  revert s. induction schedule as [|who rest IH]; intros s Hr; simpl in Hr.
  - injection Hr as <-. simpl. lia.
  - destruct (system_step self who s) as [s1|] eqn:H1; [| done].
    apply IH in Hr. simpl.
    assert (rank (at_pc (first s1)) + rank (at_pc (second s1))
            < rank (at_pc (first s)) + rank (at_pc (second s)))%nat; [| lia].
    unfold system_step in H1. destruct who.
    + destruct (worker_step _ _ _ _) as [[w t]|] eqn:Hw; [| done].
      injection H1 as <-. apply worker_step_rank in Hw. simpl. lia.
    + destruct (worker_step _ _ _ _) as [[w t]|] eqn:Hw; [| done].
      injection H1 as <-. apply worker_step_rank in Hw. simpl. lia.
Qed.

End RaceFacts.

(** ** Property of the race for a content row *)

Module ContentRace.
Import Store Crawler Race Notions StoreFacts CrawlFacts RaceFacts.

(** C5.  Two workers process the same article, on a store that has the
    article and at most one content row for it; no database call fails for
    a reason of its own, and both fetches bring text.  Whatever the order of
    their calls: the race is over after at most 20 calls; as long as a
    worker has not returned, one of the two can make its call; and when both
    have returned, the store holds exactly one content row for the article,
    the article is [crawl_success], and both workers returned ['success'],
    the one whose INSERT met the row of the other included. *)
Theorem racing_workers_store_one_row self t id u ttl tw1 tw2
  (schedule : list side) (s : system) :
  is_Some (find_article id t) →
  (count_content id t ≤ 1)%nat →
  no_crawl_fault tw1 → no_crawl_fault tw2 →
  fetches_text tw1 u → fetches_text tw2 u →
  run_schedule self schedule (race_start (id, u, ttl) tw1 tw2 t) = Some s →
  (length schedule ≤ 20)%nat
  ∧ (¬ both_returned s → ∃ who s', system_step self who s = Some s')
  ∧ (both_returned s →
     count_content id (shared s) = 1%nat
     ∧ status_of id (shared s) = Some crawl_success
     ∧ result_of (first s) = Some success
     ∧ result_of (second s) = Some success).
Proof.
  intros Ha Hc N1 N2 F1 F2 Hrun.
  assert (Hi : race_invariant id s).
  { eapply race_invariant_schedule; [| exact Hrun].
    by apply race_invariant_start. }
  split; [| split].
  - apply schedule_bound in Hrun.
    pose proof (rank_enter tw1) as B1. pose proof (rank_enter tw2) as B2.
    unfold longest_path in *. simpl in Hrun. lia.
  - by apply (race_progress self id).
  - by apply race_invariant_final.
Qed.

Lemma racing_workers_store_one_row_witness :
  ∃ s,
    run_schedule Sample.crawler Sample.race_schedule
      (race_start (2, "https://www.example.org/story?id=2", "second")
         Sample.clean_task Sample.slow_task Sample.one_eligible) = Some s
    ∧ both_returned s
    ∧ count_content 2 (shared s) = 1%nat
    ∧ status_of 2 (shared s) = Some crawl_success
    ∧ result_of (first s) = Some success
    ∧ result_of (second s) = Some success.
Proof.
  eexists. split; [vm_compute; reflexivity |].
  assert (Hb : ∀ w, at_pc w = Finished success → is_Some (result_of w)).
  { intros w Hw. unfold result_of. rewrite Hw. by eexists. }
  split; [split; apply Hb; reflexivity |].
  eapply (racing_workers_store_one_row Sample.crawler Sample.one_eligible 2
            "https://www.example.org/story?id=2" "second"
            Sample.clean_task Sample.slow_task Sample.race_schedule).
  - by eexists.
  - vm_compute. lia.
  - intros op. reflexivity.
  - intros op. reflexivity.
  - eexists _, _. vm_compute. reflexivity.
  - eexists _, _. vm_compute. reflexivity.
  - vm_compute. reflexivity.
  - split; apply Hb; reflexivity.
Defined.

(** On the sample race the second worker is the loser: its INSERT is
    answered with the duplicate-key error. *)
Example loser_meets_duplicate :
  at_pc <$> (second <$>
    run_schedule Sample.crawler
      [First; First; First; Second; Second; Second; First; First; First; Second]
      (race_start (2, "https://www.example.org/story?id=2", "second")
         Sample.clean_task Sample.slow_task Sample.one_eligible))
  = Some AtIntegrityRollback.
Proof. vm_compute. reflexivity. Qed.

(** While the INSERT of the first worker is not committed, the INSERT of
    the second waits. *)
Example second_insert_waits :
  run_schedule Sample.crawler
    [First; First; First; Second; Second; Second; First; Second]
    (race_start (2, "https://www.example.org/story?id=2", "second")
       Sample.clean_task Sample.slow_task Sample.one_eligible)
  = None.
Proof. vm_compute. reflexivity. Qed.

End ContentRace.

(** ** Further properties: the Harvester *)

Module ParseItem.
Import PyStr PyStrFacts Store Harvester Notions MoreNotions.

Lemma has_char_cons (c d : ascii) (s : string) :
  has_char c (String d s) = Ascii.eqb c d || has_char c s.
Proof.
  unfold has_char. simpl. by destruct (Ascii.eqb c d), s.
Qed.

Lemma tag_end_none (s : string) : has_char ">" s = false → tag_end s = None.
Proof.
  induction s as [|c s IH]; [done |].
  rewrite has_char_cons. intros [H1 H2]%orb_false_iff. simpl.
  rewrite Ascii.eqb_sym, H1, (IH H2). by destruct (Ascii.eqb c _).
Qed.

Lemma tag_end_closing (tag rest : string) :
  has_char ">" tag = false → has_char line_feed tag = false →
  tag_end (tag +:+ ">" +:+ rest) = Some (String.length tag).
Proof.
  induction tag as [|c tag IH]; [done |].
  rewrite !has_char_cons. intros [H1 H2]%orb_false_iff [H3 H4]%orb_false_iff.
  rewrite sapp_cons. simpl. rewrite Ascii.eqb_sym, H1.
  unfold line_feed in H3. rewrite Ascii.eqb_sym, H3. by rewrite IH.
Qed.

Lemma strip_tags_skip (jumped rest : string) :
  strip_tags_from (String.length jumped) (jumped +:+ rest)
  = strip_tags_from O rest.
Proof.
  induction jumped as [|c j IH]; [done |]. rewrite sapp_cons. simpl. apply IH.
Qed.

Lemma strip_tags_no_open (s : string) :
  has_char "<" s = false → strip_tags s = s.
Proof.
  unfold strip_tags. induction s as [|c s IH]; [done |].
  rewrite has_char_cons. intros [H1 H2]%orb_false_iff. simpl.
  rewrite Ascii.eqb_sym, H1. by rewrite IH.
Qed.

Lemma strip_tags_no_close (s : string) :
  has_char ">" s = false → strip_tags s = s.
Proof.
  unfold strip_tags. induction s as [|c s IH]; [done |].
  rewrite has_char_cons. intros [H1 H2]%orb_false_iff. simpl.
  rewrite (tag_end_none _ H2), (IH H2). by destruct (Ascii.eqb c "<").
Qed.

Lemma strip_tags_one_tag (a tag b : string) :
  has_char "<" a = false →
  has_char ">" tag = false → has_char line_feed tag = false →
  strip_tags (a +:+ "<" +:+ tag +:+ ">" +:+ b) = a +:+ strip_tags b.
Proof.
  intros Ha Ht Hn. unfold strip_tags.
  assert (Htag : strip_tags_from O ("<" +:+ tag +:+ ">" +:+ b)
                 = strip_tags_from O b).
  { change ("<" +:+ tag +:+ ">" +:+ b) with (String "<" (tag +:+ ">" +:+ b)).
    simpl strip_tags_from. rewrite (tag_end_closing _ _ Ht Hn).
    replace (tag +:+ ">" +:+ b) with ((tag +:+ ">") +:+ b) by apply sapp_assoc.
    replace (S (String.length tag)) with (String.length (tag +:+ ">")).
    - apply strip_tags_skip.
    - clear. induction tag as [|c tag IH]; [done |].
      rewrite sapp_cons. simpl. by rewrite IH. }
  set (rest := "<" +:+ tag +:+ ">" +:+ b) in *.
  induction a as [|c a IH]; [exact Htag |].
  rewrite has_char_cons in Ha. apply orb_false_iff in Ha as [H1 H2].
  change (String c a +:+ rest) with (String c (a +:+ rest)).
  change (String c a +:+ strip_tags_from O b)
    with (String c (a +:+ strip_tags_from O b)).
  simpl. rewrite Ascii.eqb_sym, H1. by rewrite (IH H2).
Qed.

(** X1.  [parse_item] takes a tag out of the title: when the title is some
    text without [<], then a tag [<...>] whose inside has no [>] and no line
    feed, then a rest, the parsed title is the text followed by the rest
    with its tags taken out; link and keyword are passed on. *)
Theorem parse_item_takes_tag_out w item keyword (a tag b : string) (d : Z) :
  api_title item = a +:+ "<" +:+ tag +:+ ">" +:+ b →
  has_char "<" a = false →
  has_char ">" tag = false →
  has_char line_feed tag = false →
  parsedate_to_datetime w (api_pubDate item) = Some d →
  ∃ parsed, parse_item w item keyword = Returned parsed
            ∧ item_title parsed = a +:+ strip_tags b
            ∧ item_pub_date parsed = d
            ∧ item_url parsed = api_link item
            ∧ item_search_keyword parsed = keyword.
Proof.
  intros Ht Ha Hg Hn Hd. unfold parse_item. rewrite Hd.
  eexists. split; [reflexivity |]. simpl.
  by rewrite Ht, (strip_tags_one_tag _ _ _ Ha Hg Hn).
Qed.

Lemma parse_item_takes_tag_out_witness :
  ∃ parsed,
    parse_item Sample.repeating_world
      {| api_title := "<b>first</b> story";
         api_pubDate := "Mon, 13 Nov 2023 10:00:00 +0900";
         api_link := "https://a.example.org/1" |} "k" = Returned parsed
    ∧ item_title parsed = "" +:+ strip_tags "first</b> story"
    ∧ item_pub_date parsed = 1700000000
    ∧ item_url parsed = "https://a.example.org/1"
    ∧ item_search_keyword parsed = "k".
Proof.
  apply (parse_item_takes_tag_out Sample.repeating_world
           {| api_title := "<b>first</b> story";
              api_pubDate := "Mon, 13 Nov 2023 10:00:00 +0900";
              api_link := "https://a.example.org/1" |}
           "k" "" "b" "first</b> story" 1700000000); reflexivity.
Defined.

(** X2.  A title without [<], or without [>], holds no tag and is passed on
    as it is; and [parse_item] raises exactly when the date does not
    parse. *)
Theorem parse_item_keeps_plain_title w item keyword :
  has_char "<" (api_title item) = false ∨ has_char ">" (api_title item) = false →
  match parse_item w item keyword with
  | Returned parsed =>
      item_title parsed = api_title item
      ∧ is_Some (parsedate_to_datetime w (api_pubDate item))
  | Raised _ => parsedate_to_datetime w (api_pubDate item) = None
  end.
Proof.
  intros H. unfold parse_item.
  destruct (parsedate_to_datetime w (api_pubDate item)); [| done].
  simpl. split; [| done].
  destruct H as [H|H]; [by apply strip_tags_no_open | by apply strip_tags_no_close].
Qed.

Lemma parse_item_keeps_plain_title_witness :
  match parse_item Sample.repeating_world
          {| api_title := "3 < 5, a story";
             api_pubDate := "Mon, 13 Nov 2023 10:00:00 +0900";
             api_link := "https://a.example.org/1" |} "k" with
  | Returned parsed =>
      item_title parsed = "3 < 5, a story"
      ∧ is_Some (parsedate_to_datetime Sample.repeating_world
                   "Mon, 13 Nov 2023 10:00:00 +0900")
  | Raised _ =>
      parsedate_to_datetime Sample.repeating_world
        "Mon, 13 Nov 2023 10:00:00 +0900" = None
  end.
Proof.
  apply (parse_item_keeps_plain_title Sample.repeating_world
           {| api_title := "3 < 5, a story";
              api_pubDate := "Mon, 13 Nov 2023 10:00:00 +0900";
              api_link := "https://a.example.org/1" |} "k").
  right. reflexivity.
Defined.

End ParseItem.

Module InsertFacts.
Import Store Harvester Notions MoreNotions StoreFacts HarvesterFacts.

Lemma from_batch_new (batch : list news_item) (item : news_item) (id : Z) :
  item ∈ batch → from_batch batch (new_article id item).
Proof. intros H. exists item. by split. Qed.

(** What a transaction of INSERTs makes of a table: rows at the end. *)
Lemma apply_inserts batch (ws : list write) (t : tables) :
  only_inserts batch ws →
  ∃ extra, naver_news (apply_writes ws t) = naver_news t ++ extra
           ∧ crawled_news (apply_writes ws t) = crawled_news t
           ∧ Forall (from_batch batch) extra
           ∧ (length extra ≤ length ws)%nat.
Proof.
  intros H. revert t. induction H as [|wr ws (item & -> & Hin) Hws IH]; intros t.
  - exists []. by rewrite app_nil_r.
  - rewrite apply_writes_cons.
    destruct (IH (apply_write (InsertNews item) t)) as (extra & E1 & E2 & E3 & E4).
    rewrite E1, E2. cbn [apply_write].
    destruct (has_url (item_url item) (naver_news t)).
    + exists extra. split_and!; try done. simpl. lia.
    + cbn [naver_news crawled_news].
      exists (new_article (fresh_id (naver_news t)) item :: extra).
      split_and!.
      * by rewrite <- app_assoc.
      * done.
      * constructor; [by apply from_batch_new | done].
      * simpl. lia.
Qed.

Lemma view_execute (wr : write) (c : conn) :
  view (execute wr c) = apply_write wr (view c).
Proof. unfold view, execute. simpl. apply apply_writes_snoc. Qed.

(** One pass of the loop of [insert_news], whatever the store does. *)
Lemma insert_item_invariant w batch item (n : Z) (c : conn) :
  item ∈ batch →
  only_inserts batch (uncommitted c) →
  Z.of_nat (length (uncommitted c)) <= n →
  ∃ c' m, insert_item w item n c = (c', Returned m)
          ∧ committed c' = committed c
          ∧ only_inserts batch (uncommitted c')
          ∧ Z.of_nat (length (uncommitted c')) <= m
          ∧ n <= m <= n + 1
          ∧ (unique_urls (committed c) → unique_urls (view c) →
             unique_urls (view c')).
Proof.
  intros Hin Ho Hn.
  unfold insert_item, try_except, execute_insert, mbind, db_bind, mret, db_ret,
    conn_rollback.
  destruct (insert_fault w item).
  - eexists _, _. split; [reflexivity |]. simpl.
    split_and!; try done; try lia. by constructor.
  - destruct (has_url (item_url item) (naver_news (view c))) eqn:Hu.
    + eexists _, _. split; [reflexivity |]. split_and!; try done; lia.
    + eexists _, _. split; [reflexivity |]. simpl.
      split_and!; try done; try lia.
      * apply Forall_app. split; [done |]. constructor; [| done]. by exists item.
      * rewrite length_app. simpl. lia.
      * intros _ Hv. rewrite view_execute. by apply insert_keeps_unique.
Qed.

Lemma insert_loop_invariant w batch (items : list news_item) (n : Z) (c : conn) :
  (∀ item, item ∈ items → item ∈ batch) →
  only_inserts batch (uncommitted c) →
  Z.of_nat (length (uncommitted c)) <= n →
  ∃ c' m, insert_loop w items n c = (c', Returned m)
          ∧ committed c' = committed c
          ∧ only_inserts batch (uncommitted c')
          ∧ Z.of_nat (length (uncommitted c')) <= m
          ∧ n <= m <= n + Z.of_nat (length items)
          ∧ (unique_urls (committed c) → unique_urls (view c) →
             unique_urls (view c')).
Proof.
  revert n c. induction items as [|item items IH]; intros n c Hsub Ho Hn.
  - exists c, n. simpl. split_and!; try done; lia.
  - simpl insert_loop. unfold mbind, db_bind.
    destruct (insert_item_invariant w batch item n c) as
      (c1 & n1 & -> & C1 & O1 & L1 & B1 & U1); [apply Hsub; by left | done | done |].
    destruct (IH n1 c1) as (c' & m & -> & C2 & O2 & L2 & B2 & U2);
      [intros i Hi; apply Hsub; by right | done | done |].
    exists c', m. split; [done |]. split; [congruence |].
    split_and!; try done; try lia.
    + simpl. lia.
    + intros Hc Hv. apply U2; [by rewrite C1 | by apply U1].
Qed.

(** [insert_news] on a connection with nothing open, whatever the store
    does. *)
Lemma insert_news_invariant w (items : list news_item) (c : conn) :
  uncommitted c = [] →
  ∃ c' r extra,
    insert_news w items c = (c', r)
    ∧ naver_news (committed c') = naver_news (committed c) ++ extra
    ∧ crawled_news (committed c') = crawled_news (committed c)
    ∧ Forall (from_batch items) extra
    ∧ (unique_urls (committed c) → unique_urls (committed c'))
    ∧ (∀ n, r = Returned n →
         Z.of_nat (length extra) <= n <= Z.of_nat (length items)
         ∧ uncommitted c' = [])
    ∧ (∀ e, r = Raised e → extra = []).
Proof.
  intros Hc. destruct items as [|i items].
  - exists c, (Returned 0), []. simpl. unfold mret, db_ret.
    rewrite app_nil_r. split_and!; try done.
    intros n [= <-]. done.
  - unfold insert_news, mbind, db_bind.
    destruct (insert_loop_invariant w (i :: items) (i :: items) 0 c)
      as (c1 & m & -> & C1 & O1 & L1 & B1 & U1);
      [done | rewrite Hc; constructor | rewrite Hc; simpl; lia |].
    unfold conn_commit.
    destruct (commit_fault w (i :: items)).
    + exists c1, (Raised OtherException), []. rewrite app_nil_r, C1.
      split_and!; try done.
    + unfold mret, db_ret.
      destruct (apply_inserts (i :: items) (uncommitted c1) (committed c1) O1)
        as (extra & E1 & E2 & E3 & E4).
      exists (commit c1), (Returned m), extra. unfold commit, view. simpl.
      rewrite E1, E2, C1. split_and!; try done.
      * intros Hu. rewrite <- C1. apply U1; [done |]. unfold view. by rewrite Hc.
      * intros n [= <-]. split; [| done]. simpl in B1. lia.
Qed.

End InsertFacts.

Module InsertsMore.
Import Store Harvester Notions MoreNotions StoreFacts HarvesterFacts InsertFacts.

(** X3.  Whatever the store does, [insert_news] on a connection with
    nothing open only adds to the end of [naver_news]: the records that
    were committed are still there, unchanged and in their order; the
    content table is not touched; and each record added has the title, date,
    URL, keyword and retrieval time of an item of the batch. *)
Theorem insert_news_only_appends w (items : list news_item) (c : conn) :
  uncommitted c = [] →
  ∃ extra,
    naver_news (committed (fst (insert_news w items c)))
    = naver_news (committed c) ++ extra
    ∧ crawled_news (committed (fst (insert_news w items c)))
      = crawled_news (committed c)
    ∧ Forall (from_batch items) extra.
Proof.
  intros Hc.
  destruct (insert_news_invariant w items c Hc)
    as (c' & r & extra & -> & H1 & H2 & H3 & _ & _).
  by exists extra.
Qed.

Lemma insert_news_only_appends_witness :
  ∃ extra,
    naver_news
      (committed (fst (insert_news Sample.rejecting_world
                         [Sample.item_a; Sample.item_bad; Sample.item_c]
                         (connect Sample.store0))))
    = naver_news (committed (connect Sample.store0)) ++ extra
    ∧ crawled_news
        (committed (fst (insert_news Sample.rejecting_world
                           [Sample.item_a; Sample.item_bad; Sample.item_c]
                           (connect Sample.store0))))
      = crawled_news (committed (connect Sample.store0))
    ∧ Forall (from_batch [Sample.item_a; Sample.item_bad; Sample.item_c]) extra.
Proof.
  apply (insert_news_only_appends Sample.rejecting_world
           [Sample.item_a; Sample.item_bad; Sample.item_c]
           (connect Sample.store0)).
  reflexivity.
Defined.

(** X4.  Whatever the store does, the count [insert_news] returns is
    between the number of records the call added to the table and the size
    of the batch; and when it returns, nothing is left uncommitted. *)
Theorem insert_news_count_bounds w (items : list news_item) (c c' : conn) (n : Z) :
  uncommitted c = [] →
  insert_news w items c = (c', Returned n) →
  Z.of_nat (length (naver_news (committed c')))
  - Z.of_nat (length (naver_news (committed c))) <= n
  ∧ n <= Z.of_nat (length items)
  ∧ uncommitted c' = [].
Proof.
  intros Hc Hr.
  destruct (insert_news_invariant w items c Hc)
    as (c1 & r & extra & Hr1 & H1 & _ & _ & _ & Hn & _).
  rewrite Hr in Hr1. injection Hr1 as <- <-.
  destruct (Hn n eq_refl) as [Hb Hu].
  rewrite H1, length_app. split_and!; [lia | lia | done].
Qed.

Lemma insert_news_count_bounds_witness :
  Z.of_nat (length (naver_news (committed
     (connect {| naver_news := [new_article 1 Sample.item_c];
                 crawled_news := [] |}))))
  - Z.of_nat (length (naver_news (committed (connect Sample.empty_store)))) <= 2
  ∧ 2 <= Z.of_nat (length [Sample.item_a; Sample.item_bad; Sample.item_c])
  ∧ uncommitted (connect {| naver_news := [new_article 1 Sample.item_c];
                            crawled_news := [] |}) = [].
Proof.
  apply (insert_news_count_bounds Sample.rejecting_world
           [Sample.item_a; Sample.item_bad; Sample.item_c]
           (connect Sample.empty_store)).
  - reflexivity.
  - vm_compute. reflexivity.
Defined.

(** X5.  Whatever the store does, [insert_news] keeps the URLs of the
    table unique. *)
Theorem insert_news_keeps_urls_unique w (items : list news_item) (c : conn) :
  uncommitted c = [] →
  unique_urls (committed c) →
  unique_urls (committed (fst (insert_news w items c))).
Proof.
  intros Hc Hu.
  destruct (insert_news_invariant w items c Hc)
    as (c' & r & extra & -> & _ & _ & _ & H & _ & _).
  by apply H.
Qed.

Lemma insert_news_keeps_urls_unique_witness :
  unique_urls
    (committed (fst (insert_news Sample.rejecting_world
                       [Sample.item_a; Sample.item_bad; Sample.item_a_again]
                       (connect Sample.store0)))).
Proof.
  apply (insert_news_keeps_urls_unique Sample.rejecting_world
           [Sample.item_a; Sample.item_bad; Sample.item_a_again]
           (connect Sample.store0)).
  - reflexivity.
  - apply (bool_decide_unpack _). vm_compute. exact I.
Defined.

(** X6.  When the store fails no statement, the count [insert_news]
    returns is exactly the number of records the table gained, and
    afterwards every URL of the batch is in the table, exactly once when the
    URLs of the table were unique before. *)
Theorem insert_news_exact_without_fault w (items : list news_item) (t : tables) :
  no_harvest_fault w →
  ∃ c' n,
    insert_news w items (connect t) = (c', Returned n)
    ∧ n = Z.of_nat (length (naver_news (committed c')))
          - Z.of_nat (length (naver_news t))
    ∧ uncommitted c' = []
    ∧ (∀ item, item ∈ items →
         has_url (item_url item) (naver_news (committed c')) = true)
    ∧ (unique_urls t →
       ∀ item, item ∈ items → count_url (item_url item) (committed c') = 1%nat).
Proof.
  intros Hn. rewrite (insert_news_no_fault _ _ _ Hn).
  eexists _, _. split; [reflexivity |]. simpl. split_and!; try done.
  - intros item Hin. by apply insert_all_makes_present.
  - intros Hu item Hin. apply count_url_unique.
    + by apply insert_all_keeps_unique.
    + by apply insert_all_makes_present.
Qed.

Lemma insert_news_exact_without_fault_witness :
  ∃ c' n,
    insert_news Sample.quiet_world [Sample.item_a; Sample.item_a_again; Sample.item_c]
      (connect Sample.empty_store) = (c', Returned n)
    ∧ n = Z.of_nat (length (naver_news (committed c')))
          - Z.of_nat (length (naver_news Sample.empty_store))
    ∧ uncommitted c' = []
    ∧ (∀ item, item ∈ [Sample.item_a; Sample.item_a_again; Sample.item_c] →
         has_url (item_url item) (naver_news (committed c')) = true)
    ∧ (unique_urls Sample.empty_store →
       ∀ item, item ∈ [Sample.item_a; Sample.item_a_again; Sample.item_c] →
         count_url (item_url item) (committed c') = 1%nat).
Proof.
  apply (insert_news_exact_without_fault Sample.quiet_world
           [Sample.item_a; Sample.item_a_again; Sample.item_c]
           Sample.empty_store).
  split; intros; reflexivity.
Defined.

End InsertsMore.

Module CollectShape.
Import Store Harvester Notions MoreNotions StoreFacts HarvesterFacts CollectFacts.

Lemma last_total_from_snoc b (pages : list (Z * Z * Z)) c i t :
  last_total_from b (pages ++ [(c, i, t)]) = t.
Proof. unfold last_total_from. by rewrite last_snoc. Qed.

Lemma cumulative_snoc b (pages : list (Z * Z * Z)) c i :
  cumulative b pages →
  cumulative b (pages ++ [(c, i, last_total_from b pages + i)]).
Proof.
  revert b. induction pages as [|[[c0 i0] t0] pages IH]; intros b H.
  - by split.
  - destruct H as [-> H]. simpl. split; [done |].
    replace (last_total_from b ((c0, i0, b + i0) :: pages))
      with (last_total_from (b + i0) pages); [by apply IH |].
    unfold last_total_from. destruct pages as [|p pages]; [done |].
    rewrite last_cons_cons.
    destruct (last (p :: pages)) as [[[? ?] ?]|] eqn:E; [done |].
    by apply last_None in E.
Qed.

(** With lines that add up, the total of a line is the total before it
    plus what its page inserted. *)
Lemma cumulative_lookup b (pages : list (Z * Z * Z)) (k : nat) c i t :
  cumulative b pages →
  pages !! k = Some (c, i, t) →
  t = match k with
      | O => b
      | S k' => match pages !! k' with
                | Some (_, _, t') => t'
                | None => 0
                end
      end + i.
Proof.
  revert b k. induction pages as [|[[c0 i0] t0] pages IH]; intros b k H Hk.
  - done.
  - destruct H as [-> H]. destruct k as [|k].
    + by injection Hk as <- <- <-.
    + simpl in Hk. rewrite (IH _ _ H Hk). destruct k; done.
Qed.

Lemma stalled_is_no_insert (pages : list (Z * Z * Z)) (k : nat) :
  cumulative 0 pages →
  stalled pages k →
  ∃ page, pages !! k = Some page ∧ inserted_of page <= 0.
Proof.
  intros Hc (c & i & t & Hk & Hle). exists (c, i, t). split; [done |].
  pose proof (cumulative_lookup _ _ _ _ _ _ Hc Hk) as Ht.
  unfold total_before in Hle. unfold inserted_of. simpl.
  destruct k; lia.
Qed.

Lemma collect_invariant_final total h :
  collect_invariant total h → collect_final total h.
Proof.
  intros (H1 & H2 & H3 & H4 & H5 & H6 & H7 & H8). unfold collect_final.
  split_and!; try done.
  - intros k page Hk _. rewrite Forall_lookup in H3. by eapply H3.
  - eapply Forall_impl; [exact H3 |]. simpl. intros. lia.
  - lia.
Qed.

(** The loop is left with one more line, of a page that may have inserted
    nothing. *)
Lemma collect_final_last_page total h c i h' :
  collect_invariant total h →
  collected h < total →
  0 <= i →
  progress_lines (logged h')
  = progress_lines (logged h) ++ [(c, i, inserted_total h + i)] →
  inserted_total h' = inserted_total h + i →
  collect_final total h'.
Proof.
  intros (H1 & H2 & H3 & H4 & H5 & H6 & H7 & H8) Hlt Hi Hp Ht.
  unfold collect_final. rewrite Hp, length_app. simpl.
  split_and!.
  - rewrite <- H2. by apply cumulative_snoc.
  - unfold last_total. by rewrite last_total_from_snoc.
  - intros k page Hk Hlast. rewrite lookup_app_l in Hk by lia.
    rewrite Forall_lookup in H3. by eapply H3.
  - apply Forall_app. split.
    + eapply Forall_impl; [exact H3 |]. simpl. intros. lia.
    + by repeat constructor.
  - lia.
  - lia.
  - lia.
Qed.

(** One pass of the loop, whatever the provider and the store do. *)
Lemma iteration_shape w q total (ex : gset string) h :
  collect_invariant total h →
  collected h < total →
  ∃ h' ctl, iteration w q total ex h = (h', ctl) ∧
    match ctl with
    | Next => collect_invariant total h'
    | Break | Propagate _ => collect_final total h'
    end.
Proof.
  intros Hinv Hlt. pose proof Hinv as (H1 & H2 & H3 & H4 & H5 & H6 & H7 & H8).
  pose proof (collect_invariant_final _ _ Hinv) as Hfin.
  unfold iteration.
  destruct (search_news w q _ (start h)) as [[[|a items]|]|];
    try (eexists _, Break; split; [reflexivity |];
         unfold collect_final in *; simpl;
         by rewrite progress_lines_app, app_nil_r).
  destruct (dedup_parse _ _ _ _ _ _) as [seen [new_items|e]].
  2:{ eexists _, (Propagate e). split; [reflexivity | done]. }
  destruct (insert_news w new_items (conn_of (self h))) as [c [n|e]] eqn:Hi.
  2:{ eexists _, (Propagate e). split; [reflexivity | done]. }
  pose proof (insert_news_nonneg _ _ _ _ _ Hi) as Hn.
  destruct (inserted_total h + n =? inserted_total h) eqn:He.
  { eexists _, Break. split; [reflexivity |].
    eapply (collect_final_last_page total h); try done.
    simpl. rewrite !progress_lines_app. simpl. by rewrite app_nil_r. }
  apply Z.eqb_neq in He.
  destruct (1000 <? start h + Z.min 100 (total - collected h)) eqn:Hl.
  { eexists _, Break. split; [reflexivity |].
    eapply (collect_final_last_page total h); try done.
    simpl. rewrite !progress_lines_app. simpl. by rewrite app_nil_r. }
  apply Z.ltb_ge in Hl.
  eexists _, Next. split; [reflexivity |].
  unfold collect_invariant. simpl.
  rewrite progress_lines_app. simpl. rewrite length_app. simpl.
  split_and!.
  - rewrite <- H2. by apply cumulative_snoc.
  - unfold last_total. by rewrite last_total_from_snoc.
  - apply Forall_app. split; [done |]. repeat constructor.
    unfold inserted_of. simpl. lia.
  - lia.
  - lia.
  - lia.
  - done.
  - lia.
Qed.

Lemma collect_loop_shape (fuel : nat) w q total (ex : gset string) h hf e :
  collect_invariant total h →
  collect_loop fuel w q total ex h = Some (hf, e) →
  collect_final total hf.
Proof.
  revert h. induction fuel as [|fuel IH]; intros h Hinv Hrun.
  - simpl in Hrun. destruct (collected h <? total); [done |].
    injection Hrun as <- <-. by apply collect_invariant_final.
  - rewrite collect_loop_S in Hrun.
    destruct (collected h <? total) eqn:Hlt.
    2:{ injection Hrun as <- <-. by apply collect_invariant_final. }
    apply Z.ltb_lt in Hlt.
    destruct (iteration_shape w q total ex h Hinv Hlt) as (h' & ctl & Hi & Hc).
    rewrite Hi in Hrun. destruct ctl.
    + by eapply IH.
    + by injection Hrun as <- <-.
    + by injection Hrun as <- <-.
Qed.

(** The shape of every run of [collect]. *)
Lemma collect_shape w obj q total :
  ∃ obj' log result h,
    collect w obj q total = Some (obj', log, result)
    ∧ progress_lines log = progress_lines (logged h)
    ∧ collect_final total h
    ∧ (∀ n, result = Returned n → n = inserted_total h).
Proof.
  destruct (collect_total w obj q total) as [[[obj' log] result] Hrun].
  unfold collect in Hrun.
  destruct (collect_loop max_pages w q total (get_existing_urls w obj) _)
    as [[h [e|]]|] eqn:Hloop; [| | done].
  - injection Hrun as <- <- <-. eexists _, _, _, h.
    split; [unfold collect; by rewrite Hloop |]. split; [done |].
    split; [| done].
    eapply collect_loop_shape; [| exact Hloop].
    unfold collect_invariant. simpl. split_and!; try done; lia.
  - injection Hrun as <- <- <-. eexists _, _, _, h. split_and!.
    + unfold collect. by rewrite Hloop.
    + rewrite progress_lines_app. simpl. by rewrite app_nil_r.
    + eapply collect_loop_shape; [| exact Hloop].
      unfold collect_invariant. simpl. split_and!; try done; lia.
    + by intros n [= <-].
Qed.

End CollectShape.

Module PagingMore.
Import Store Harvester Notions MoreNotions CollectFacts CollectShape.

(** X7.  For every provider and every store: the progress lines of a run
    of [collect] add up, each cumulative total being the one before plus
    what the page inserted; a page that does not raise the cumulative total
    is the last page of the run; and the number [collect] returns is the
    last cumulative total, never negative. *)
Theorem collect_stops_at_first_stalled_page w obj query total :
  ∃ obj' log result,
    collect w obj query total = Some (obj', log, result)
    ∧ cumulative 0 (progress_lines log)
    ∧ (∀ k, stalled (progress_lines log) k → S k = length (progress_lines log))
    ∧ (∀ n, result = Returned n → n = last_total (progress_lines log) ∧ 0 <= n).
Proof.
  destruct (collect_shape w obj query total)
    as (obj' & log & result & h & Hrun & Hp & Hfin & Hret).
  destruct Hfin as (H1 & H2 & H3 & H4 & H5 & H6 & H7).
  exists obj', log, result. rewrite Hp. split_and!; try done.
  - intros k Hs.
    destruct (stalled_is_no_insert _ _ H1 Hs) as (page & Hk & Hle).
    pose proof (lookup_lt_Some _ _ _ Hk) as Hlen.
    destruct (decide (S k = length (progress_lines (logged h)))) as [|Hne];
      [done |].
    assert (0 < inserted_of page) by (eapply H3; [exact Hk | lia]). lia.
  - intros n Hn. rewrite (Hret n Hn), H2. done.
Qed.

(** X8.  A run of [collect] asks for at most 1000 pages, and for no more
    pages than the target [total] (none when the target is not positive):
    every page it goes on from brought at least one item and moved the
    offset up. *)
Theorem collect_pages_bounded w obj query total :
  ∃ obj' log result,
    collect w obj query total = Some (obj', log, result)
    ∧ Z.of_nat (length (progress_lines log)) <= 1000
    ∧ Z.of_nat (length (progress_lines log)) <= Z.max 0 total.
Proof.
  destruct (collect_shape w obj query total)
    as (obj' & log & result & h & Hrun & Hp & Hfin & Hret).
  destruct Hfin as (H1 & H2 & H3 & H4 & H5 & H6 & H7).
  exists obj', log, result. by rewrite Hp.
Qed.

End PagingMore.

Module WindowFacts.
Import Store Harvester Notions MoreNotions CollectFacts.

Lemma dedup_parse_window w q (ex : gset string) items seen acc :
  dedup_parse (inside_window w) q ex items seen acc
  = dedup_parse w q ex items seen acc.
Proof.
  revert seen acc. induction items as [|a items IH]; intros seen acc; [done |].
  simpl. destruct (_ || _); [apply IH |].
  change (parse_item (inside_window w) a q) with (parse_item w a q).
  destruct (parse_item w a q); [apply IH | done].
Qed.

Lemma insert_loop_window w items n c :
  insert_loop (inside_window w) items n c = insert_loop w items n c.
Proof.
  revert n c. induction items as [|i items IH]; intros n c; [done |].
  simpl. unfold mbind, db_bind.
  change (insert_item (inside_window w) i n c) with (insert_item w i n c).
  destruct (insert_item w i n c) as [c' [m|e]]; [apply IH | done].
Qed.

Lemma insert_news_window w items c :
  insert_news (inside_window w) items c = insert_news w items c.
Proof.
  destruct items as [|i items]; [done |].
  unfold insert_news, mbind, db_bind. by rewrite insert_loop_window.
Qed.

Lemma iteration_window w q total (ex : gset string) h :
  collected h < total →
  1 <= start h <= 1000 →
  iteration (inside_window w) q total ex h = iteration w q total ex h.
Proof.
  intros Hlt Hs. unfold iteration, search_news.
  cbn [requests_get inside_window].
  assert ((1 <=? Z.min 100 (total - collected h))
          && (Z.min 100 (total - collected h) <=? 100)
          && (1 <=? start h) && (start h <=? 1000) = true) as ->.
  { rewrite !andb_true_iff, !Z.leb_le. lia. }
  destruct (requests_get w q _ (start h)) as [[[|a items]|]|]; try done.
  rewrite dedup_parse_window.
  destruct (dedup_parse w q ex (a :: items) _ _) as [seen [new_items|e]]; [| done].
  by rewrite insert_news_window.
Qed.

Lemma collect_loop_window (fuel : nat) w q total (ex : gset string) h :
  1 <= start h <= 1000 →
  collect_loop fuel (inside_window w) q total ex h
  = collect_loop fuel w q total ex h.
Proof.
  revert h. induction fuel as [|fuel IH]; intros h Hs; [done |].
  rewrite !collect_loop_S. destruct (collected h <? total) eqn:Hlt; [| done].
  apply Z.ltb_lt in Hlt. rewrite (iteration_window _ _ _ _ _ Hlt Hs).
  destruct (iteration w q total ex h) as [h' [| |e]] eqn:Hi; try done.
  apply IH. apply iteration_next_advances in Hi; [lia | done].
Qed.

End WindowFacts.

Module Window.
Import Store Harvester Notions MoreNotions CollectFacts WindowFacts.

(** X9.  [collect] only asks the provider for pages of 1 to 100 items at
    offsets 1 to 1000: what the provider would answer to any other request
    makes no difference to the run, to its log, its result or the store. *)
Theorem collect_asks_inside_window w obj query total :
  collect (inside_window w) obj query total = collect w obj query total.
Proof.
  unfold collect.
  change (get_existing_urls (inside_window w) obj)
    with (get_existing_urls w obj).
  rewrite collect_loop_window; [done |]. simpl. lia.
Qed.

End Window.

Module CollectFrameFacts.
Import Store Harvester Notions MoreNotions StoreFacts HarvesterFacts CollectFacts
  InsertFacts.

Lemma dedup_parse_keyword w q (ex : gset string) items seen acc seen' new :
  Forall (fun item => item_search_keyword item = q) acc →
  dedup_parse w q ex items seen acc = (seen', Returned new) →
  Forall (fun item => item_search_keyword item = q) new.
Proof.
  revert seen acc. induction items as [|a items IH]; intros seen acc Hacc H.
  - simpl in H. by injection H as <- <-.
  - simpl in H. destruct (_ || _); [by eapply IH |].
    unfold parse_item in H.
    destruct (parsedate_to_datetime w (api_pubDate a)); [| done].
    eapply IH; [| exact H]. apply Forall_app. split; [done |].
    by repeat constructor.
Qed.

Lemma grown_by_insert_news w q (items : list news_item) t0 (c : conn) (b : Z) :
  Forall (fun item => item_search_keyword item = q) items →
  uncommitted c = [] →
  grown_by q t0 (committed c) b →
  ∃ c' r, insert_news w items c = (c', r) ∧
    match r with
    | Returned n => uncommitted c' = [] ∧ grown_by q t0 (committed c') (b + n)
    | Raised _ => grown_by q t0 (committed c') b
    end.
Proof.
  intros Hq Hc (extra & E1 & E2 & E3 & E4 & E5).
  destruct (insert_news_invariant w items c Hc)
    as (c' & r & more & Hr & M1 & M2 & M3 & M4 & M5 & M6).
  exists c', r. split; [done |].
  assert (Hk : Forall (fun r => search_keyword r = q) more).
  { eapply Forall_impl; [exact M3 |]. intros row (item & Hin & Hcopy).
    destruct Hcopy as (_ & _ & _ & -> & _).
    rewrite Forall_forall in Hq. by apply Hq. }
  destruct r as [n|e].
  - destruct (M5 n eq_refl) as [Hb Hu]. split; [done |].
    exists (extra ++ more). rewrite M1, M2, E1, E2, <- app_assoc.
    split_and!; try done.
    + by apply Forall_app.
    + rewrite length_app. lia.
    + intros H0. by apply M4, E5.
  - rewrite (M6 e eq_refl) in M1. rewrite app_nil_r in M1.
    exists extra. rewrite M1, M2, E1, E2. split_and!; try done.
    intros H0. by apply M4, E5.
Qed.

(** One pass of the loop keeps what is in the table. *)
Lemma iteration_frame w q total (ex : gset string) t0 h :
  uncommitted (conn_of (self h)) = [] →
  grown_by q t0 (committed (conn_of (self h))) (inserted_total h) →
  ∃ h' ctl, iteration w q total ex h = (h', ctl)
    ∧ grown_by q t0 (committed (conn_of (self h'))) (inserted_total h')
    ∧ (ctl = Next → uncommitted (conn_of (self h')) = []).
Proof.
  intros Hc Hg. unfold iteration.
  destruct (search_news w q _ (start h)) as [[[|a items]|]|];
    try (eexists _, Break; split; [reflexivity |]; by split).
  destruct (dedup_parse _ _ _ _ _ _) as [seen [new_items|e]] eqn:Hd.
  2:{ eexists _, (Propagate e). split; [reflexivity |]. by split. }
  pose proof (dedup_parse_keyword _ _ _ _ _ _ _ _ (Forall_nil_2 _) Hd) as Hq.
  destruct (grown_by_insert_news w q new_items t0 _ _ Hq Hc Hg)
    as (c & r & -> & Hr).
  destruct r as [n|e].
  2:{ eexists _, (Propagate e). split; [reflexivity |]. by split. }
  destruct Hr as [Hu Hg'].
  destruct (_ =? _); [eexists _, Break; split; [reflexivity |]; by split |].
  destruct (1000 <? _); eexists _, _; (split; [reflexivity |]); by split.
Qed.

Lemma collect_loop_frame (fuel : nat) w q total (ex : gset string) t0 h hf e :
  uncommitted (conn_of (self h)) = [] →
  grown_by q t0 (committed (conn_of (self h))) (inserted_total h) →
  collect_loop fuel w q total ex h = Some (hf, e) →
  grown_by q t0 (committed (conn_of (self hf))) (inserted_total hf).
Proof.
  revert h. induction fuel as [|fuel IH]; intros h Hc Hg Hrun.
  - simpl in Hrun. destruct (collected h <? total); [done |].
    by injection Hrun as <- <-.
  - rewrite collect_loop_S in Hrun.
    destruct (collected h <? total); [| by injection Hrun as <- <-].
    destruct (iteration_frame w q total ex t0 h Hc Hg)
      as (h' & ctl & Hi & Hg' & Hn).
    rewrite Hi in Hrun. destruct ctl.
    + eapply IH; [| exact Hg' | exact Hrun]. by apply Hn.
    + by injection Hrun as <- <-.
    + by injection Hrun as <- <-.
Qed.

End CollectFrameFacts.

Module CollectFrame.
Import Store Harvester Notions MoreNotions CollectFacts CollectFrameFacts.

(** X10.  Whatever the provider and the store do, a run of [collect] that
    starts with nothing uncommitted only adds records at the end of
    [naver_news]: the records that were there are still there, unchanged
    and in order, and the content table is as it was; every record added
    has the keyword of the run; unique URLs stay unique; and the number
    returned is at least the number of records added. *)
Theorem collect_only_appends w obj query total :
  uncommitted (conn_of obj) = [] →
  ∃ obj' log result extra,
    collect w obj query total = Some (obj', log, result)
    ∧ naver_news (committed (conn_of obj'))
      = naver_news (committed (conn_of obj)) ++ extra
    ∧ crawled_news (committed (conn_of obj'))
      = crawled_news (committed (conn_of obj))
    ∧ Forall (fun r => search_keyword r = query) extra
    ∧ (unique_urls (committed (conn_of obj)) →
       unique_urls (committed (conn_of obj')))
    ∧ (∀ n, result = Returned n → Z.of_nat (length extra) <= n).
Proof.
  intros Hc.
  destruct (collect_total w obj query total) as [[[obj' log] result] Hrun].
  exists obj', log, result.
  unfold collect in Hrun.
  destruct (collect_loop max_pages w query total (get_existing_urls w obj) _)
    as [[h oe]|] eqn:Hloop; [| done].
  assert (Hg : grown_by query (committed (conn_of obj))
                 (committed (conn_of (self h))) (inserted_total h)).
  { eapply collect_loop_frame; [| | exact Hloop]; simpl; [done |].
    exists []. rewrite app_nil_r. split_and!; try done. }
  destruct Hg as (extra & E1 & E2 & E3 & E4 & E5). exists extra.
  destruct oe as [e|]; injection Hrun as <- <- <-.
  - split_and!; try done. unfold collect. by rewrite Hloop.
  - split_and!; try done.
    + unfold collect. by rewrite Hloop.
    + by intros n [= <-].
Qed.

Lemma collect_only_appends_witness :
  ∃ obj' log result extra,
    collect Sample.repeating_world Sample.fresh_collector "k" 1000
    = Some (obj', log, result)
    ∧ naver_news (committed (conn_of obj'))
      = naver_news (committed (conn_of Sample.fresh_collector)) ++ extra
    ∧ crawled_news (committed (conn_of obj'))
      = crawled_news (committed (conn_of Sample.fresh_collector))
    ∧ Forall (fun r => search_keyword r = "k") extra
    ∧ (unique_urls (committed (conn_of Sample.fresh_collector)) →
       unique_urls (committed (conn_of obj')))
    ∧ (∀ n, result = Returned n → Z.of_nat (length extra) <= n).
Proof.
  apply (collect_only_appends Sample.repeating_world Sample.fresh_collector
           "k" 1000).
  reflexivity.
Defined.

End CollectFrame.

(** ** Further properties: the Classifier *)

Module VersionFacts.
Import PyStr PyStrFacts Notions MoreNotions Store Crawler.

Lemma slength_app (a b : string) :
  String.length (a +:+ b) = (String.length a + String.length b)%nat.
Proof.
  induction a as [|c a IH]; [done |]. rewrite sapp_cons. simpl. by rewrite IH.
Qed.

(** [replace] around an occurrence, for a pattern that cannot start inside
    a string and end inside an occurrence that follows it. *)
Lemma replace_around (old new : string) (c0 : ascii) (old' : string) :
  old = String c0 old' →
  (∀ c p t, starts_with old (String c p +:+ old +:+ t)
            = starts_with old (String c p)) →
  ∀ (n : nat) (p t : string),
    (String.length p ≤ n)%nat →
    replace old new (p +:+ old +:+ t)
    = replace old new p +:+ new +:+ replace old new t.
Proof.
  intros Hold Hin n. induction n as [|n IH]; intros p t Hn.
  - destruct p; simpl in Hn; [| lia]. rewrite sapp_nil_l.
    by rewrite (replace_match old new c0 old' t Hold).
  - destruct p as [|c p].
    { rewrite sapp_nil_l. by rewrite (replace_match old new c0 old' t Hold). }
    destruct (starts_with old (String c p)) eqn:Hs.
    + apply starts_with_spec in Hs as [rest Hr]. rewrite Hr.
      rewrite sapp_assoc, !(replace_match old new c0 old' _ Hold).
      rewrite IH; [by rewrite sapp_assoc |].
      apply (f_equal String.length) in Hr. rewrite Hold in Hr.
      rewrite slength_app in Hr. simpl in Hr, Hn. lia.
    + pose proof (Hin c p t) as Hs'. rewrite Hs in Hs'.
      change (String c p +:+ old +:+ t) with (String c (p +:+ old +:+ t)) in *.
      rewrite (replace_no_match _ _ _ _ Hs), (replace_no_match _ _ _ _ Hs').
      rewrite sapp_cons. f_equal. apply IH. simpl in Hn. lia.
Qed.

Lemma replace_fixed (old new s : string) :
  contains old s = false → replace old new s = s.
Proof.
  induction s as [|c s IH]; [done |].
  intros H. simpl contains in H. apply orb_false_iff in H as [H1 H2].
  rewrite replace_no_match by exact H1. f_equal. by apply IH.
Qed.

Lemma starts_with_txt_inside (c : ascii) (p t : string) :
  starts_with ".txt" (String c p +:+ ".txt" +:+ t)
  = starts_with ".txt" (String c p).
Proof.
  destruct p as [|c1 [|c2 [|c3 p]]]; rewrite ?sapp_cons, ?sapp_nil_l;
    cbn [starts_with];
    repeat match goal with
           | |- context [Ascii.eqb ?a ?b] =>
               is_var b; destruct (Ascii.eqb_spec a b) as [<-|]
           end; reflexivity.
Qed.

(** The suffix [.txt] comes off a name that has no [.txt] in it. *)
Lemma replace_txt_suffix (name : string) :
  contains ".txt" name = false →
  replace ".txt" "" (name +:+ ".txt") = name.
Proof.
  intros H.
  pose proof (replace_around ".txt" "" "." "txt" eq_refl starts_with_txt_inside
                (String.length name) name "" (le_n _)) as Hr.
  rewrite (replace_fixed _ _ _ H) in Hr. simpl in Hr.
  rewrite !sapp_nil_r in Hr. exact Hr.
Qed.

Lemma split_from_skip (sep cur jumped rest : string) :
  split_from sep (String.length jumped) cur (jumped +:+ rest)
  = split_from sep O cur rest.
Proof.
  induction jumped as [|c j IH]; [done |]. rewrite sapp_cons. simpl. apply IH.
Qed.

(** Without the separator in it, a string is one piece. *)
Lemma split_no_separator (sep cur s : string) :
  contains sep s = false → split_from sep O cur s = [cur +:+ s].
Proof.
  revert cur. induction s as [|c s IH]; intros cur H.
  - by rewrite sapp_nil_r.
  - simpl contains in H. apply orb_false_iff in H as [H1 H2].
    simpl split_from. rewrite H1, (IH _ H2). by rewrite sapp_assoc.
Qed.

Lemma starts_with_v_inside (c : ascii) (p t : string) :
  starts_with "_v" (String c p +:+ "_v" +:+ t) = starts_with "_v" (String c p).
Proof.
  destruct p as [|c1 p]; rewrite ?sapp_cons, ?sapp_nil_l;
    cbn [starts_with];
    repeat match goal with
           | |- context [Ascii.eqb ?a ?b] =>
               is_var b; destruct (Ascii.eqb_spec a b) as [<-|]
           end; reflexivity.
Qed.

Lemma split_from_nonempty (sep : string) (skip : nat) (cur s : string) :
  split_from sep skip cur s ≠ [].
Proof.
  revert skip cur. induction s as [|c s IH]; intros skip cur; [done |].
  cbn [split_from]. destruct skip; [| apply IH].
  destruct (starts_with sep (String c s)); [done | apply IH].
Qed.

(** The last piece of a split at [_v] is the last piece of what follows an
    occurrence of [_v]. *)
Lemma split_last_after (n : nat) (cur p t : string) :
  (String.length p ≤ n)%nat →
  last (split_from "_v" O cur (p +:+ "_v" +:+ t))
  = last (split_from "_v" O "" t).
Proof.
  assert (Hocc : ∀ cur t, last (split_from "_v" O cur ("_v" +:+ t))
                          = last (split_from "_v" O "" t)).
  { intros cur' t'. change ("_v" +:+ t') with (String "_" (String "v" t')).
    cbn [split_from starts_with Ascii.eqb Bool.eqb String.length Nat.pred].
    destruct (split_from "_v" 0 "" t') as [|x l] eqn:E; [| reflexivity].
    by apply split_from_nonempty in E. }
  revert cur p. induction n as [|n IH]; intros cur p Hn.
  - destruct p; simpl in Hn; [| lia]. apply Hocc.
  - destruct p as [|c p]; [apply Hocc |].
    destruct (starts_with "_v" (String c p)) eqn:Hs.
    + apply starts_with_spec in Hs as [rest Hr]. rewrite Hr, sapp_assoc.
      rewrite Hocc. rewrite (IH "" rest); [done |].
      apply (f_equal String.length) in Hr.
      change ("_v" +:+ rest) with (String "_" (String "v" rest)) in Hr.
      simpl in Hr, Hn. lia.
    + pose proof (starts_with_v_inside c p t) as Hs'. rewrite Hs in Hs'.
      change (String c p +:+ "_v" +:+ t) with (String c (p +:+ "_v" +:+ t)) in *.
      cbn [split_from]. rewrite Hs'. apply IH. simpl in Hn. lia.
Qed.

Lemma has_char_app (c : ascii) (a b : string) :
  has_char c (a +:+ b) = has_char c a || has_char c b.
Proof.
  induction a as [|d a IH]; [done |].
  rewrite sapp_cons, !ParseItem.has_char_cons, IH. apply orb_assoc.
Qed.

Lemma no_underscore_no_separator (s : string) :
  has_char "_" s = false → contains "_v" s = false.
Proof.
  induction s as [|c s IH]; [done |].
  rewrite ParseItem.has_char_cons. intros [H1 H2]%orb_false_iff.
  cbn [contains starts_with]. rewrite H1. by apply IH.
Qed.

End VersionFacts.

Module Version.
Import PyStr PyStrFacts Notions MoreNotions Store Crawler VersionFacts.

(** X11.  For a blocklist file named [<stem>_v<version>.txt], where the
    version has no underscore and no [.txt] in it, the filter version is
    [v<version>], whatever the stem is (it may have [_v] in it). *)
Theorem version_of_versioned_name (stem version : string) :
  has_char "_" version = false →
  contains ".txt" version = false →
  _extract_filter_version (stem +:+ "_v" +:+ version +:+ ".txt")
  = "v" +:+ version.
Proof.
  intros Hu Ht. unfold _extract_filter_version, split.
  rewrite (split_last_after (String.length stem)) by done.
  rewrite split_no_separator.
  - cbn [last]. by rewrite sapp_nil_l, replace_txt_suffix.
  - apply no_underscore_no_separator. rewrite has_char_app, Hu. reflexivity.
Qed.

Lemma version_of_versioned_name_witness :
  _extract_filter_version ("lists/filter_v_domain_list" +:+ "_v" +:+ "1.00" +:+ ".txt")
  = "v" +:+ "1.00".
Proof.
  apply (version_of_versioned_name "lists/filter_v_domain_list" "1.00");
    reflexivity.
Defined.

(** X12.  A file name without [_v] does not fall back to [v1.00]: for
    [<name>.txt] the filter version is [v<name>], the whole name. *)
Theorem version_of_unversioned_name (name : string) :
  contains "_v" (name +:+ ".txt") = false →
  contains ".txt" name = false →
  _extract_filter_version (name +:+ ".txt") = "v" +:+ name.
Proof.
  intros Hv Ht. unfold _extract_filter_version, split.
  rewrite (split_no_separator _ _ _ Hv). cbn [last].
  by rewrite sapp_nil_l, replace_txt_suffix.
Qed.

Lemma version_of_unversioned_name_witness :
  _extract_filter_version ("blocklist" +:+ ".txt") = "v" +:+ "blocklist".
Proof.
  apply (version_of_unversioned_name "blocklist"); reflexivity.
Defined.

End Version.

Module ClassifierMoreFacts.
Import PyStr PyStrFacts Store Crawler Notions MoreNotions StoreFacts
  ClassifierFacts.

Lemma domain_match_empty_entry (domain : string) : domain_match domain "" = true.
Proof. unfold domain_match. by rewrite contains_empty. Qed.

Lemma domain_match_empty_domain (fd : string) : domain_match "" fd = true.
Proof. unfold domain_match. rewrite (contains_empty fd). apply orb_true_r. Qed.

(** A record the pass leaves pending was pending, and carries the filter
    version afterwards. *)
Lemma classified_pending w self t (r : article) :
  r ∈ naver_news t →
  crawl_status (classified w self t r) = pending →
  crawl_status r = pending
  ∧ _is_url_filtered w self (url r) = false
  ∧ classified w self t r = set_filter_version (filter_version self) r.
Proof.
  intros Hr. unfold classified. cbv zeta.
  destruct (id_in (news_id r) (fst (pass_ids w self t))) eqn:Hf.
  { simpl. destruct (id_in (news_id r) (snd (pass_ids w self t))); simpl; discriminate. }
  destruct (id_in (news_id r) (snd (pass_ids w self t))) eqn:Hp.
  - simpl. intros Hs. split; [done |].
    destruct (_is_url_filtered w self (url r)) eqn:Hm; [| done].
    apply id_in_false in Hf. destruct Hf. apply filtered_ids_elem. by exists r.
  - intros Hs. exfalso.
    destruct (_is_url_filtered w self (url r)) eqn:Hm.
    + apply id_in_false in Hf. destruct Hf. apply filtered_ids_elem. by exists r.
    + apply id_in_false in Hp. destruct Hp. apply passed_ids_elem. by exists r.
Qed.

Lemma set_filter_version_again v (r : article) :
  url_filter_version r = Some v → set_filter_version v r = r.
Proof. destruct r. simpl. by intros ->. Qed.

Lemma classified_version w self t (r : article) :
  news_id r ∈ snd (pass_ids w self t) →
  url_filter_version (classified w self t r) = Some (filter_version self).
Proof.
  intros H. unfold classified.
  destruct (id_in (news_id r) (fst (pass_ids w self t))); simpl;
    by rewrite (proj2 (id_in_spec _ _) H).
Qed.

Lemma classified_id w self t (r : article) :
  news_id (classified w self t r) = news_id r.
Proof. by destruct (classified_keeps w self t r) as (? & _). Qed.

Lemma classified_url w self t (r : article) :
  url (classified w self t r) = url r.
Proof. by destruct (classified_keeps w self t r) as (_ & _ & _ & ? & _). Qed.

(** The number a pass returns. *)
Lemma filtered_count w self t :
  length (fst (pass_ids w self t))
  = length (filter (fun r => crawl_status r = pending
                             ∧ _is_url_filtered w self (url r) = true)
                   (naver_news t)).
Proof.
  unfold pass_ids. rewrite classify_spec. simpl. rewrite length_map.
  unfold select_pending.
  set (pend := filter (fun r => crawl_status r = pending) (naver_news t)).
  transitivity (length (filter (fun r => _is_url_filtered w self (url r) = true)
                          (merge_sort by_news_id_desc pend))).
  - generalize (merge_sort by_news_id_desc pend). intros l.
    induction l as [|r l IH]; [done |].
    simpl. rewrite !filter_cons. simpl.
    destruct (decide (_is_url_filtered w self (url r) = true)); simpl; by rewrite IH.
  - rewrite (list_filter_iff
               (fun r => crawl_status r = pending
                         ∧ _is_url_filtered w self (url r) = true)
               (fun r => _is_url_filtered w self (url r) = true
                         ∧ crawl_status r = pending)) by (intros; tauto).
    rewrite <- list_filter_filter. fold pend.
    apply Permutation_length. apply filter_Permutation, merge_sort_Permutation.
Qed.

End ClassifierMoreFacts.

Module ClassifierMore.
Import PyStr PyStrFacts Store Crawler Notions MoreNotions StoreFacts
  ClassifierFacts ClassifierMoreFacts.

(** X13.  A line of the blocklist file that is not blank and normalises to
    the empty string (the line [www.], also with white space around it, a
    no-break space included) becomes an empty entry, and an empty entry is
    inside every host: a crawler built from such a file filters every URL
    that [urlparse] takes. *)
Theorem empty_entry_filters_everything w path version workers
  (lines : list string) (line u host : string) :
  open_lines w path = Some lines →
  line ∈ lines →
  nonempty (strip line) = true →
  strip_www (strip line) = "" →
  urlparse_netloc w u = Some host →
  _is_url_filtered w (init w path version workers) u = true.
Proof.
  intros Ho Hl Hn He Hu. unfold _is_url_filtered. rewrite Hu.
  apply existsb_exists. exists "". split; [| apply domain_match_empty_entry].
  apply list_elem_of_In, elem_of_elements. simpl.
  unfold _load_filter_domains. rewrite Ho. apply elem_of_list_to_set.
  apply list_elem_of_fmap. exists line. split; [done |].
  by apply list_elem_of_filter.
Qed.

Lemma empty_entry_filters_everything_witness :
  _is_url_filtered CrawlNotions.www_world
    (init CrawlNotions.www_world "list_v2.txt" "1.0.0" 5)
    "https://unrelated.example.org/story" = true.
Proof.
  apply (empty_entry_filters_everything CrawlNotions.www_world
           "list_v2.txt" "1.0.0" 5
           ["naver.com" +:+ Sample.newline; CrawlNotions.www_line]
           CrawlNotions.www_line
           "https://unrelated.example.org/story" "unrelated.example.org").
  - reflexivity.
  - apply elem_of_cons. right. apply elem_of_cons. by left.
  - reflexivity.
  - reflexivity.
  - reflexivity.
Defined.

(** The entries of that file: the white space of [str.strip] is taken off
    each line, a no-break space as well as the line feed. *)
Example entries_are_stripped :
  elements (_load_filter_domains CrawlNotions.www_world "list_v2.txt")
  ≡ₚ ["naver.com"; ""].
Proof.
  unfold _load_filter_domains. cbn [open_lines CrawlNotions.www_world].
  rewrite elements_list_to_set.
  - vm_compute. apply Permutation_refl.
  - apply (bool_decide_unpack _). vm_compute. exact I.
Qed.

(** X14.  A URL whose host normalises to the empty string (no host at
    all, as in a relative URL, or the host [www.]) is inside every entry:
    any crawler with a non-empty filter set filters it. *)
Theorem empty_host_is_filtered w self (u host fd : string) :
  urlparse_netloc w u = Some host →
  strip_www host = "" →
  fd ∈ filtered_domains self →
  _is_url_filtered w self u = true.
Proof.
  intros Hu He Hfd. unfold _is_url_filtered. rewrite Hu, He.
  apply existsb_exists. exists fd. split; [| apply domain_match_empty_domain].
  by apply list_elem_of_In, elem_of_elements.
Qed.

Lemma empty_host_is_filtered_witness :
  _is_url_filtered Sample.classifier_world Sample.crawler "/article/1" = true.
Proof.
  apply (empty_host_is_filtered Sample.classifier_world Sample.crawler
           "/article/1" "" "naver.com").
  - reflexivity.
  - reflexivity.
  - vm_compute. reflexivity.
Defined.

(** X15.  After a pass that returns, no pending record is without a
    filter version: every record still pending carries the filter version
    of the crawler, so the crawl that follows selects every pending
    record. *)
Theorem pending_after_pass_is_stamped w self t (n : Z) (r : article) :
  snd (filter_urls w self t) = Returned n →
  r ∈ naver_news (fst (filter_urls w self t)) →
  crawl_status r = pending →
  url_filter_version r = Some (filter_version self).
Proof.
  destruct (filter_urls_cases w self t) as [(e & op & -> & _)|[-> _]];
    [done |].
  cbn [fst snd]. intros _ Hr Hp. rewrite pass_effect_rows in Hr.
  apply list_elem_of_fmap in Hr as (r0 & -> & Hr0).
  destruct (classified_pending w self t r0 Hr0 Hp) as (_ & _ & ->). done.
Qed.

Lemma pending_after_pass_is_stamped_witness :
  url_filter_version (set_filter_version "v1.00" Sample.example_article)
  = Some (filter_version Sample.crawler).
Proof.
  apply (pending_after_pass_is_stamped Sample.classifier_world Sample.crawler
           Sample.store0 1 (set_filter_version "v1.00" Sample.example_article)).
  - vm_compute. reflexivity.
  - apply list_elem_of_lookup. exists 1%nat. vm_compute. reflexivity.
  - reflexivity.
Defined.

(** X16.  A second pass right after a pass without database fault filters
    nothing and changes nothing. *)
Theorem second_pass_changes_nothing w self t :
  no_filter_fault w →
  filter_urls w self (fst (filter_urls w self t))
  = (fst (filter_urls w self t), Returned 0).
Proof.
  intros Hn. rewrite (filter_urls_returned w self t Hn). simpl fst.
  set (t1 := pass_effect w self t).
  assert (Hrows : naver_news t1 = map (classified w self t) (naver_news t))
    by apply pass_effect_rows.
  assert (Hpend : ∀ r1, r1 ∈ naver_news t1 → crawl_status r1 = pending →
            _is_url_filtered w self (url r1) = false
            ∧ ∃ r0, r0 ∈ naver_news t ∧ crawl_status r0 = pending
                    ∧ news_id r0 = news_id r1
                    ∧ _is_url_filtered w self (url r0) = false).
  { intros r1 H1 Hp. rewrite Hrows in H1.
    apply list_elem_of_fmap in H1 as (r0 & -> & Hr0).
    destruct (classified_pending w self t r0 Hr0 Hp) as (Hp0 & Hm & _).
    rewrite classified_url, classified_id. split; [done |]. by exists r0. }
  assert (Hf : fst (pass_ids w self t1) = []).
  { apply elem_of_nil_inv. intros id (r1 & H1 & Hp & _ & Hm)%filtered_ids_elem.
    destruct (Hpend r1 H1 Hp) as [Hm' _]. congruence. }
  rewrite (filter_urls_returned w self t1 Hn), Hf. f_equal.
  unfold pass_effect. rewrite Hf, apply_writes_cons, apply_set_url_filtered_nil.
  rewrite apply_writes_cons, apply_writes_nil.
  assert (Hpass : ∀ r1, r1 ∈ naver_news t1 →
            news_id r1 ∈ snd (pass_ids w self t1) →
            url_filter_version r1 = Some (filter_version self)).
  { intros r1 H1 (r1' & H1' & Hp' & Hid & _)%passed_ids_elem.
    destruct (Hpend r1' H1' Hp') as (_ & r0 & Hr0 & Hp0 & Hid0 & Hm0).
    rewrite Hrows in H1. apply list_elem_of_fmap in H1 as (r & -> & Hr).
    apply classified_version. apply passed_ids_elem. exists r0.
    split_and!; try done. rewrite classified_id in Hid. congruence. }
  clearbody t1. destruct t1 as [rows contents]. unfold apply_write.
  cbn [naver_news crawled_news] in *. f_equal.
  unfold update_where. rewrite <- (map_id rows) at 2.
  apply map_ext_in. intros r1 H1%list_elem_of_In.
  destruct (id_in (news_id r1) _) eqn:Hin; [| done].
  apply set_filter_version_again, Hpass; [done |]. by apply id_in_spec.
Qed.

Lemma second_pass_changes_nothing_witness :
  filter_urls Sample.classifier_world Sample.crawler
    (fst (filter_urls Sample.classifier_world Sample.crawler Sample.store0))
  = (fst (filter_urls Sample.classifier_world Sample.crawler Sample.store0),
     Returned 0).
Proof.
  apply (second_pass_changes_nothing Sample.classifier_world Sample.crawler
           Sample.store0).
  intros op. reflexivity.
Defined.

(** X17.  The number a pass returns is the number of pending records
    whose URL matches the blocklist. *)
Theorem pass_returns_number_of_matches w self t (n : Z) :
  snd (filter_urls w self t) = Returned n →
  n = Z.of_nat
        (length (filter (fun r => crawl_status r = pending
                                  ∧ _is_url_filtered w self (url r) = true)
                        (naver_news t))).
Proof.
  destruct (filter_urls_cases w self t) as [(e & op & -> & _)|[-> _]];
    [done |].
  intros [= <-]. by rewrite filtered_count.
Qed.

Lemma pass_returns_number_of_matches_witness :
  1 = Z.of_nat
        (length (filter (fun r => crawl_status r = pending
                                  ∧ _is_url_filtered Sample.classifier_world
                                      Sample.crawler (url r) = true)
                        (naver_news Sample.store0))).
Proof.
  apply (pass_returns_number_of_matches Sample.classifier_world Sample.crawler
           Sample.store0 1).
  vm_compute. reflexivity.
Defined.

(** X18.  With no pending record, a pass whose SELECT goes through
    returns 0 and leaves the tables as they are, also when the UPDATEs or
    the commit would fail: none of them is reached. *)
Theorem pass_without_pending w self t :
  (∀ r, r ∈ naver_news t → crawl_status r ≠ pending) →
  filter_fault w SelectPending = None →
  filter_urls w self t = (t, Returned 0).
Proof.
  intros Hnone Hsel.
  assert (Hs : select_pending t = []).
  { apply elem_of_nil_inv. intros [id u] (r & Hr & Hp & _)%select_pending_elem.
    by apply (Hnone r). }
  unfold filter_urls, try_except, filter_urls_try, mbind, db_bind, cursor_select.
  rewrite Hsel, view_connect, Hs. done.
Qed.

Lemma pass_without_pending_witness :
  filter_urls Sample.failing_world Sample.failing_crawler
    {| naver_news := [Sample.crawled_article]; crawled_news := [] |}
  = ({| naver_news := [Sample.crawled_article]; crawled_news := [] |},
     Returned 0).
Proof.
  apply (pass_without_pending Sample.failing_world Sample.failing_crawler
           {| naver_news := [Sample.crawled_article]; crawled_news := [] |}).
  - intros r Hr. apply list_elem_of_singleton in Hr as ->. discriminate.
  - reflexivity.
Defined.

End ClassifierMore.

(** ** The ways one crawl ends *)

Module EndingFacts.
Import PyStr Store Crawler Race Notions MoreNotions CrawlNotions StoreFacts
  CrawlFacts.

Ltac walk :=
  repeat first
    [ match goal with
      | |- context [crawl_fault ?tw ?op] =>
          destruct (crawl_fault tw op) as [[|]|] eqn:?
      | |- context [crawl_article ?tw ?u] =>
          destruct (crawl_article tw u) as [[?|] ?] eqn:?
      | |- context [has_content ?i ?l] =>
          destruct (has_content i l) eqn:?
      end;
      cbn [at_pc task_id txn surroundings task_url stage jump end_txn
           locks_article locks_content existsb inner_handler app]
    | unfold worker_step at 1;
      cbn [at_pc task_id txn surroundings task_url stage jump end_txn
           locks_article locks_content existsb inner_handler app] ].

(** Whatever the database calls and the fetch do, a call ends in one of
    the five ways. *)
Lemma process_single_news_ending self tw id u ttl t t' result :
  _process_single_news self tw (id, u, ttl) t = (t', result) →
  ending self tw id u t t' result.
Proof.
  unfold _process_single_news, longest_path, start_worker, enter.
  destruct (crawl_fault tw Connect) as [e|] eqn:Hconnect.
  { intros [= <- <-]. by apply NotClaimed. }
  destruct (crawl_fault tw OpenCursor) as [e|] eqn:Hcursor.
  { intros [= <- <-]. by apply NotClaimed. }
  simpl run_alone. walk.
  all: intros [= <- <-]; cbn [result_of at_pc end_txn jump stage].
  all: first
    [ by apply NotClaimed
    | by apply LeftCrawling
    | apply MarkedFailed;
      match goal with H : crawl_article _ _ = _ |- _ => by rewrite H end
    | apply MarkedOnly;
      match goal with H : crawl_article _ _ = _ |- _ => rewrite H; by eexists end
    | match goal with
      | H : crawl_article ?tw ?u = (Some ?s, ?z),
        H' : has_content ?id _ = false |- ending ?self _ _ _ ?t _ _ =>
          exact (Stored self tw id u t s z H H')
      end ].
Qed.

(** One call of a worker whose faults are known from [Hnf]. *)
Ltac call_with Hnf :=
  unfold worker_step at 1;
  cbn [at_pc task_id txn surroundings task_url stage jump end_txn
       locks_article locks_content existsb inner_handler app];
  rewrite ?Hnf.

Lemma find_claimed id t :
  find_article id (claimed id t) = set_crawling <$> find_article id t.
Proof.
  unfold claimed, apply_write. rewrite find_article_update by done.
  destruct (find_article id t) as [r|] eqn:Hr; [| done].
  cbn [fmap option_fmap option_map].
  by rewrite (find_article_id _ _ _ Hr), id_in_self.
Qed.

Lemma find_set_status st id t :
  find_article id (apply_write (SetStatus st id) t)
  = set_status st <$> find_article id t.
Proof.
  unfold apply_write. rewrite find_article_update by done.
  destruct (find_article id t) as [r|] eqn:Hr; [| done].
  cbn [fmap option_fmap option_map].
  by rewrite (find_article_id _ _ _ Hr), id_in_self.
Qed.

Lemma find_insert_content row id t :
  find_article id (apply_write (InsertContent row) t) = find_article id t.
Proof. done. Qed.

Lemma update_where_other ids f (rows : list article) (k : nat) r :
  rows !! k = Some r → id_in (news_id r) ids = false →
  update_where ids f rows !! k = Some r.
Proof.
  intros Hk Hid. rewrite update_where_lookup, Hk.
  cbn [fmap option_fmap option_map]. by rewrite Hid.
Qed.

Lemma id_in_other (id j : Z) : j ≠ id → id_in j [id] = false.
Proof.
  intros H. simpl. rewrite orb_false_r. apply Z.eqb_neq. congruence.
Qed.

(** What a call does to the records of [naver_news]: they stay in place,
    and those of another id stay as they are. *)
Lemma ending_frame self tw id u t t' result :
  ending self tw id u t t' result →
  length (naver_news t') = length (naver_news t)
  ∧ ∀ (k : nat) r, naver_news t !! k = Some r → news_id r ≠ id →
                   naver_news t' !! k = Some r.
Proof.
  intros E. destruct E; unfold claimed, apply_write;
    cbn [naver_news crawled_news]; rewrite ?update_where_length;
    (split; [done |]); intros k r Hk Hid; try done;
    repeat (apply update_where_other; [| by apply id_in_other]); done.
Qed.

(** What a call does to [crawled_news]: nothing, or, when it returns
    ['success'], one row for the text of the fetch. *)
Lemma ending_rows self tw id u t t' result :
  ending self tw id u t t' result →
  crawled_news t' = crawled_news t
  ∨ (result = Some success
     ∧ has_content id (crawled_news t) = false
     ∧ ∃ text ms, crawl_article tw u = (Some text, ms)
                  ∧ crawled_news t'
                    = crawled_news t ++ [content_row self tw id text ms]).
Proof.
  intros E. destruct E; try by left.
  right. split_and!; try done. by exists text, response_time_ms.
Qed.

(** A call that gets its connection and its cursor, and whose handler can
    roll back, returns a string. *)
Lemma process_single_news_no_raise self tw id u ttl t t' result :
  task_returns tw →
  _process_single_news self tw (id, u, ttl) t = (t', result) →
  result = Some success ∨ result = Some failed.
Proof.
  intros (Hc & Ho & Hr).
  unfold _process_single_news, longest_path, start_worker.
  rewrite (enter_claim tw Hc Ho). simpl run_alone. walk.
  all: intros [= <- <-]; cbn [result_of at_pc end_txn jump stage].
  all: first [by left | by right | congruence].
Qed.

(** The text [crawl_article] returns is the stripped text of the fetch, and
    not empty. *)
Lemma crawl_article_text tw u text ms :
  crawl_article tw u = (Some text, ms) →
  ms = elapsed_ms tw
  ∧ ∃ raw, newspaper_text tw u = Some raw ∧ text = strip raw
           ∧ nonempty text = true.
Proof.
  unfold crawl_article. destruct (newspaper_text tw u) as [raw|]; [| done].
  destruct (nonempty (strip raw)) eqn:Hn; intros [= <- <-].
  split; [done |]. by exists raw.
Qed.

Lemma count_content_app id t row :
  count_content id {| naver_news := naver_news t;
                      crawled_news := crawled_news t ++ [row] |}
  = (count_content id t
     + if decide (content_news_id row = id) then 1 else 0)%nat.
Proof.
  unfold count_content. cbn [crawled_news].
  rewrite filter_app, length_app, filter_cons.
  by destruct (decide (content_news_id row = id)).
Qed.

Lemma successes_cons (result : option crawl_result) results :
  successes (result :: results)
  = ((if decide (result = Some success) then 1 else 0) + successes results)%nat.
Proof.
  unfold successes. rewrite filter_cons.
  by destruct (decide (result = Some success)).
Qed.

(** The loop over the results: when it returns, every result was counted
    once, the successes as successes. *)
Lemma tally_returned results : ∀ s f s' f',
  tally results s f = Returned (s', f') →
  s' = s + Z.of_nat (successes results)
  ∧ s' + f' = s + f + Z.of_nat (length results).
Proof.
  induction results as [|result results IH]; intros s f s' f'.
  - cbn [tally]. intros [= <- <-]. unfold successes. simpl. lia.
  - rewrite successes_cons. cbn [tally length].
    destruct result as [[| |e]|]; try done; intros H; apply IH in H;
      destruct (decide _) as [Heq|Hne]; try done; lia.
Qed.

Lemma tally_returns results : ∀ s f,
  all_returned results → ∃ s' f', tally results s f = Returned (s', f').
Proof.
  induction results as [|result results IH]; intros s f Hall.
  - by exists s, f.
  - apply Forall_cons in Hall as [[-> | ->] Hall]; cbn [tally]; by apply IH.
Qed.

(** The pool of [crawl_news]: every task gives a result, the content
    table grows by at most one row for each success, the records of ids not
    submitted stay as they are, and tasks that cannot raise return. *)
Lemma run_tasks_shape self tws (l : list (Z * string * string)) :
  ∀ t,
    ∃ t' results extra,
      run_tasks self tws l t = (t', results)
      ∧ length results = length l
      ∧ crawled_news t' = crawled_news t ++ extra
      ∧ (length extra ≤ successes results)%nat
      ∧ Forall (fun row => content_news_id row ∈ map (fun d => fst (fst d)) l)
               extra
      ∧ length (naver_news t') = length (naver_news t)
      ∧ (∀ (k : nat) r, naver_news t !! k = Some r →
                        news_id r ∉ map (fun d => fst (fst d)) l →
                        naver_news t' !! k = Some r)
      ∧ ((∀ id, id ∈ map (fun d => fst (fst d)) l → task_returns (tws id)) →
         all_returned results).
Proof.
  induction l as [|[[id u] ttl] l IH]; intros t.
  - exists t, [], []. cbn [run_tasks]. rewrite app_nil_r.
    split_and!; try done. intros _. apply Forall_nil_2.
  - cbn [run_tasks fst].
    destruct (_process_single_news self (tws id) (id, u, ttl) t)
      as [t1 result] eqn:E.
    assert (Hret : task_returns (tws id) →
                   result = Some success ∨ result = Some failed).
    { intros Hq. exact (process_single_news_no_raise _ _ _ _ _ _ _ _ Hq E). }
    apply process_single_news_ending in E.
    destruct (ending_frame _ _ _ _ _ _ _ E) as [Hlen Hfr].
    pose proof (ending_rows _ _ _ _ _ _ _ E) as Hrows.
    destruct (IH t1)
      as (t' & results & extra & Hrun & Hn & Hc & He & Hids & Hl & Hk & Hall).
    rewrite Hrun.
    assert (Hother : ∀ (k : nat) r, naver_news t !! k = Some r →
              news_id r ∉ map (fun d => fst (fst d)) ((id, u, ttl) :: l) →
              naver_news t' !! k = Some r).
    { intros k r Hr Hnot. cbn [map fst] in Hnot.
      apply Hk; [apply Hfr; [done |] |]; intros ?; apply Hnot;
        [subst; apply elem_of_cons; by left | apply elem_of_cons; by right]. }
    assert (Hwiden : ∀ ex : list content,
              Forall (fun row => content_news_id row
                        ∈ map (fun d => fst (fst d)) l) ex →
              Forall (fun row => content_news_id row
                        ∈ map (fun d => fst (fst d)) ((id, u, ttl) :: l)) ex).
    { intros ex Hex. eapply Forall_impl; [exact Hex |].
      intros row Hrow. cbn [map fst]. apply elem_of_cons. by right. }
    assert (Hreturned :
              (∀ j, j ∈ map (fun d => fst (fst d)) ((id, u, ttl) :: l) →
                    task_returns (tws j)) →
              all_returned (result :: results)).
    { intros Hj. apply Forall_cons. split.
      - apply Hret, Hj. cbn [map fst]. apply elem_of_cons. by left.
      - apply Hall. intros j Hin. apply Hj. cbn [map fst].
        apply elem_of_cons. by right. }
    destruct Hrows as [Hsame | (Hres & _ & text & ms & _ & Happ)].
    + exists t', (result :: results), extra.
      rewrite Hc, Hsame, Hl, Hlen, successes_cons. cbn [length].
      split_and!; try done; try lia. by apply Hwiden.
    + exists t', (result :: results),
        (content_row self (tws id) id text ms :: extra).
      rewrite Hc, Happ, Hl, Hlen, <- app_assoc, successes_cons, Hres.
      rewrite decide_True by done. cbn [length app].
      split_and!; try done; try lia.
      { apply Forall_cons. split; [| by apply Hwiden].
        cbn [map fst content_row content_news_id]. apply elem_of_cons. by left. }
      by rewrite <- Hres.
Qed.

End EndingFacts.

(** ** Properties of the crawl of one record, whatever fails *)

Module CrawlOutcome.
Import PyStr Store Crawler Race Notions MoreNotions CrawlNotions StoreFacts
  CrawlFacts EndingFacts.

(** X19.  For a record that is pending, [_process_single_news] returns
    ['success'] exactly when it leaves the record in [crawl_success],
    whichever database calls fail and whatever the fetch brings. *)
Theorem returns_success_iff_marked self tw id u ttl t :
  status_of id t = Some pending →
  snd (_process_single_news self tw (id, u, ttl) t) = Some success
  ↔ status_of id (fst (_process_single_news self tw (id, u, ttl) t))
    = Some crawl_success.
Proof.
  intros Hp.
  destruct (_process_single_news self tw (id, u, ttl) t) as [t' result] eqn:E.
  apply process_single_news_ending in E. cbn [fst snd].
  unfold status_of in *.
  destruct (find_article id t) as [r|] eqn:Hr; [| done].
  destruct E;
    rewrite ?find_set_status, ?find_insert_content, ?find_claimed, ?Hr;
    cbn [fmap option_fmap option_map set_status set_crawling crawl_status] in *;
    split; intros ?; congruence.
Qed.

Lemma returns_success_iff_marked_witness :
  snd (_process_single_news Sample.crawler Sample.clean_task
         (2, "https://www.example.org/story?id=2", "second")
         Sample.one_eligible) = Some success
  ↔ status_of 2
      (fst (_process_single_news Sample.crawler Sample.clean_task
              (2, "https://www.example.org/story?id=2", "second")
              Sample.one_eligible))
    = Some crawl_success.
Proof.
  apply (returns_success_iff_marked Sample.crawler Sample.clean_task 2
           "https://www.example.org/story?id=2" "second" Sample.one_eligible).
  reflexivity.
Defined.

(** X20.  A fetch that raises, or brings nothing but white space (that of
    [str.strip], no-break and ideographic spaces included), ends in
    [crawl_failed]: when the connection, the claim and the two calls of the
    failure branch go through, the function returns ['failed'], the record
    is [crawl_failed], and the content table is as it was. *)
Theorem fetch_without_text_marks_failed self tw id u ttl t :
  fetch_is_blank tw u →
  crawl_fault tw Connect = None →
  crawl_fault tw OpenCursor = None →
  crawl_fault tw ClaimUpdate = None →
  crawl_fault tw ClaimCommit = None →
  crawl_fault tw FailedUpdate = None →
  crawl_fault tw FailedCommit = None →
  is_Some (find_article id t) →
  snd (_process_single_news self tw (id, u, ttl) t) = Some failed
  ∧ status_of id (fst (_process_single_news self tw (id, u, ttl) t))
    = Some crawl_failed
  ∧ crawled_news (fst (_process_single_news self tw (id, u, ttl) t))
    = crawled_news t.
Proof.
  intros Hf Hc Ho H1 H2 H3 H4 Hart.
  assert (Hnone : ∃ ms, crawl_article tw u = (None, ms)).
  { unfold crawl_article.
    destruct Hf as [-> | (raw & -> & ->)]; by eexists. }
  destruct Hnone as [ms Hnone].
  assert (_process_single_news self tw (id, u, ttl) t
          = (apply_write (SetStatus crawl_failed id) (claimed id t),
             Some failed)) as ->.
  { unfold _process_single_news, longest_path, start_worker.
    rewrite (enter_claim tw Hc Ho). simpl run_alone.
    call_with H1. call_with H2. call_with H1. rewrite Hnone.
    call_with H3. call_with H4. call_with H1. done. }
  cbn [fst snd]. split_and!; [done | | done].
  apply (status_after_set crawl_failed). by apply article_stays.
Qed.

Lemma fetch_without_text_marks_failed_witness :
  snd (_process_single_news Sample.crawler blank_task
         (2, "https://www.example.org/story?id=2", "second")
         Sample.one_eligible) = Some failed
  ∧ status_of 2
      (fst (_process_single_news Sample.crawler blank_task
              (2, "https://www.example.org/story?id=2", "second")
              Sample.one_eligible))
    = Some crawl_failed
  ∧ crawled_news
      (fst (_process_single_news Sample.crawler blank_task
              (2, "https://www.example.org/story?id=2", "second")
              Sample.one_eligible))
    = crawled_news Sample.one_eligible.
Proof.
  apply (fetch_without_text_marks_failed Sample.crawler blank_task 2
           "https://www.example.org/story?id=2" "second" Sample.one_eligible);
    try reflexivity.
  - right. eexists. split; reflexivity.
  - by eexists.
Defined.

(** The same for a fetch that raises. *)
Example unreachable_article_ends_failed :
  _process_single_news Sample.crawler unreachable_task
    (2, "https://www.example.org/story?id=2", "second") Sample.one_eligible
  = (apply_write (SetStatus crawl_failed 2) (claimed 2 Sample.one_eligible),
     Some failed).
Proof. vm_compute. reflexivity. Qed.

(** X21.  One call counts at most one attempt: either the claim did not
    commit and the tables are as they were, or the attempt count of the
    record is one higher; the title, the URL, the dates, the keyword and the
    filter version of the record are never changed. *)
Theorem call_counts_one_attempt self tw id u ttl t r :
  find_article id t = Some r →
  fst (_process_single_news self tw (id, u, ttl) t) = t
  ∨ ∃ r', find_article id (fst (_process_single_news self tw (id, u, ttl) t))
          = Some r'
          ∧ crawl_attempt_count r' = crawl_attempt_count r + 1
          ∧ same_outside_crawl r r'.
Proof.
  intros Hr.
  destruct (_process_single_news self tw (id, u, ttl) t) as [t' result] eqn:E.
  apply process_single_news_ending in E. cbn [fst].
  destruct E; [by left | right ..];
    rewrite ?find_set_status, ?find_insert_content, ?find_claimed, ?Hr;
    cbn [fmap option_fmap option_map];
    (eexists; split; [reflexivity |]); by repeat split.
Qed.

Lemma call_counts_one_attempt_witness :
  fst (_process_single_news Sample.crawler Sample.insert_fails_task
         (2, "https://www.example.org/story?id=2", "second")
         Sample.one_eligible) = Sample.one_eligible
  ∨ ∃ r', find_article 2
            (fst (_process_single_news Sample.crawler Sample.insert_fails_task
                    (2, "https://www.example.org/story?id=2", "second")
                    Sample.one_eligible))
          = Some r'
          ∧ crawl_attempt_count r'
            = crawl_attempt_count
                (set_filter_version "v1.00" Sample.example_article) + 1
          ∧ same_outside_crawl
              (set_filter_version "v1.00" Sample.example_article) r'.
Proof.
  apply (call_counts_one_attempt Sample.crawler Sample.insert_fails_task 2
           "https://www.example.org/story?id=2" "second" Sample.one_eligible).
  reflexivity.
Defined.

(** X22.  A call writes no record but its own: the records of
    [naver_news] stay in place, and every record of another id is after
    the call what it was before, whichever way the call ends. *)
Theorem call_leaves_other_records self tw id u ttl t (k : nat) r :
  naver_news t !! k = Some r →
  news_id r ≠ id →
  naver_news (fst (_process_single_news self tw (id, u, ttl) t)) !! k = Some r
  ∧ length (naver_news (fst (_process_single_news self tw (id, u, ttl) t)))
    = length (naver_news t).
Proof.
  intros Hk Hid.
  destruct (_process_single_news self tw (id, u, ttl) t) as [t' result] eqn:E.
  apply process_single_news_ending in E. cbn [fst].
  destruct (ending_frame _ _ _ _ _ _ _ E) as [Hlen Hfr].
  split; [by apply Hfr | done].
Qed.

Lemma call_leaves_other_records_witness :
  naver_news
    (fst (_process_single_news Sample.crawler Sample.clean_task
            (2, "https://www.example.org/story?id=2", "second")
            Sample.store0)) !! 0%nat
  = Some Sample.naver_article
  ∧ length (naver_news
      (fst (_process_single_news Sample.crawler Sample.clean_task
              (2, "https://www.example.org/story?id=2", "second")
              Sample.store0)))
    = length (naver_news Sample.store0).
Proof.
  apply (call_leaves_other_records Sample.crawler Sample.clean_task 2
           "https://www.example.org/story?id=2" "second" Sample.store0
           0%nat Sample.naver_article).
  - reflexivity.
  - discriminate.
Defined.

(** X23.  A call leaves [crawled_news] as it was, or adds one row at its
    end; it adds the row only when it returns ['success'] and the table had
    no row of the record, and the row carries the id of the record, the
    text of the fetch with the white space of [str.strip] taken off its two
    ends, not empty, the version of the crawler and the response time. *)
Theorem content_row_only_with_success self tw id u ttl t :
  crawled_news (fst (_process_single_news self tw (id, u, ttl) t))
  = crawled_news t
  ∨ (snd (_process_single_news self tw (id, u, ttl) t) = Some success
     ∧ has_content id (crawled_news t) = false
     ∧ ∃ raw,
         newspaper_text tw u = Some raw
         ∧ nonempty (strip raw) = true
         ∧ crawled_news (fst (_process_single_news self tw (id, u, ttl) t))
           = crawled_news t
             ++ [ {| content_news_id := id;
                     content_text := strip raw;
                     content_crawler_version := crawler_version self;
                     content_response_time_ms := elapsed_ms tw;
                     content_crawled_at := datetime_now tw |} ]).
Proof.
  destruct (_process_single_news self tw (id, u, ttl) t) as [t' result] eqn:E.
  apply process_single_news_ending in E. cbn [fst snd].
  destruct (ending_rows _ _ _ _ _ _ _ E)
    as [Hsame | (Hres & Hno & text & ms & Hc & Happ)]; [by left | right].
  destruct (crawl_article_text _ _ _ _ Hc) as (-> & raw & Hraw & -> & Hn).
  split_and!; try done. by exists raw.
Qed.

(** The row of a fetch with no-break and ideographic spaces around its
    text. *)
Example stored_text_is_stripped :
  crawled_news
    (fst (_process_single_news Sample.crawler
            {| newspaper_text :=
                 fun _ => Some (no_break_space +:+ "hello, world"
                                +:+ ideographic_space +:+ Sample.newline);
               elapsed_ms := 120; datetime_now := 1700001000;
               crawl_fault := fun _ => None |}
            (2, "https://www.example.org/story?id=2", "second")
            Sample.one_eligible))
  = [ {| content_news_id := 2; content_text := "hello, world";
         content_crawler_version := "1.0.0";
         content_response_time_ms := 120;
         content_crawled_at := 1700001000 |} ].
Proof. vm_compute. reflexivity. Qed.

(** X24.  A call keeps the content table at one row for each record at
    most, whichever way it ends. *)
Theorem call_keeps_one_row_per_record self tw id u ttl t (j : Z) :
  (∀ i, (count_content i t ≤ 1)%nat) →
  (count_content j
     (fst (_process_single_news self tw (id, u, ttl) t)) ≤ 1)%nat.
Proof.
  intros Hone.
  destruct (_process_single_news self tw (id, u, ttl) t) as [t' result] eqn:E.
  apply process_single_news_ending in E. cbn [fst].
  destruct (ending_rows _ _ _ _ _ _ _ E)
    as [Hsame | (_ & Hno & text & ms & _ & Happ)].
  - unfold count_content. rewrite Hsame. apply Hone.
  - apply no_content_count in Hno.
    unfold count_content at 1. rewrite Happ.
    change (length (filter (fun r => content_news_id r = j)
                      (crawled_news t ++ [content_row self tw id text ms])))
      with (count_content j
              {| naver_news := naver_news t;
                 crawled_news :=
                   crawled_news t ++ [content_row self tw id text ms] |}).
    rewrite count_content_app. cbn [content_row content_news_id].
    destruct (decide (id = j)) as [<- | _]; [lia |].
    specialize (Hone j). lia.
Qed.

Lemma call_keeps_one_row_per_record_witness :
  (count_content 2
     (fst (_process_single_news Sample.crawler Sample.clean_task
             (2%Z, "https://www.example.org/story?id=2", "second")
             Sample.one_eligible)) ≤ 1)%nat.
Proof.
  apply (call_keeps_one_row_per_record Sample.crawler Sample.clean_task 2
           "https://www.example.org/story?id=2" "second" Sample.one_eligible 2).
  intros i. vm_compute. lia.
Defined.

(** X25.  An [IntegrityError] at the INSERT of the content row counts as
    "crawled before", whatever its cause: when the connection, the calls of
    the claim and those of the handler (its rollback, its UPDATE, its
    commit) go through, the function returns ['success'] and the record is
    [crawl_success], and this call has stored no row, so a record with no
    content row at all can end in [crawl_success]. *)
Theorem integrity_error_counts_as_crawled self tw id u ttl t text ms :
  crawl_article tw u = (Some text, ms) →
  crawl_fault tw Connect = None →
  crawl_fault tw OpenCursor = None →
  crawl_fault tw ClaimUpdate = None →
  crawl_fault tw ClaimCommit = None →
  crawl_fault tw ContentInsert = Some IntegrityError →
  crawl_fault tw IntegrityRollback = None →
  crawl_fault tw RetryUpdate = None →
  crawl_fault tw RetryCommit = None →
  is_Some (find_article id t) →
  snd (_process_single_news self tw (id, u, ttl) t) = Some success
  ∧ status_of id (fst (_process_single_news self tw (id, u, ttl) t))
    = Some crawl_success
  ∧ crawled_news (fst (_process_single_news self tw (id, u, ttl) t))
    = crawled_news t.
Proof.
  intros Hf Hc Ho H1 H2 H3 Hr H4 H5 Hart.
  assert (_process_single_news self tw (id, u, ttl) t
          = (apply_write (SetStatus crawl_success id) (claimed id t),
             Some success)) as ->.
  { unfold _process_single_news, longest_path, start_worker.
    rewrite (enter_claim tw Hc Ho). simpl run_alone.
    call_with H1. call_with H2. call_with H1. rewrite Hf.
    call_with H3. call_with Hr. call_with H4. call_with H5. call_with H1.
    done. }
  cbn [fst snd]. split_and!; [done | | done].
  apply (status_after_set crawl_success). by apply article_stays.
Qed.

Lemma integrity_error_counts_as_crawled_witness :
  snd (_process_single_news Sample.crawler integrity_task
         (2, "https://www.example.org/story?id=2", "second")
         Sample.one_eligible) = Some success
  ∧ status_of 2
      (fst (_process_single_news Sample.crawler integrity_task
              (2, "https://www.example.org/story?id=2", "second")
              Sample.one_eligible))
    = Some crawl_success
  ∧ crawled_news
      (fst (_process_single_news Sample.crawler integrity_task
              (2, "https://www.example.org/story?id=2", "second")
              Sample.one_eligible))
    = crawled_news Sample.one_eligible.
Proof.
  apply (integrity_error_counts_as_crawled Sample.crawler integrity_task 2
           "https://www.example.org/story?id=2" "second" Sample.one_eligible
           "hello" 120);
    try reflexivity.
  by eexists.
Defined.

(** The calls before the [try] and the rollback of the outer handler are
    where the function raises instead of returning. *)
Example no_connection_raises :
  _process_single_news Sample.crawler broken_task
    (2, "https://www.example.org/story?id=2", "second") Sample.one_eligible
  = (Sample.one_eligible, Some (raised OtherException)).
Proof. vm_compute. reflexivity. Qed.

Example failed_rollback_raises :
  _process_single_news Sample.crawler
    {| newspaper_text := fun _ => Some "  hello  ";
       elapsed_ms := 120; datetime_now := 1700001000;
       crawl_fault := fun op => match op with
                                | ContentInsert | ErrorRollback =>
                                    Some OtherException
                                | _ => None
                                end |}
    (2, "https://www.example.org/story?id=2", "second") Sample.one_eligible
  = (claimed 2 Sample.one_eligible, Some (raised OtherException)).
Proof. vm_compute. reflexivity. Qed.

End CrawlOutcome.

(** ** Facts about [crawl_news] and [run] *)

Module RunFacts.
Import PyStr Store Crawler Race Notions MoreNotions CrawlNotions StoreFacts
  ClassifierFacts ClassifierMoreFacts CrawlFacts EndingFacts.

Lemma select_eligible_length (t : tables) :
  length (select_eligible t) = length (eligible_records t).
Proof.
  unfold select_eligible, eligible_records. rewrite length_map.
  apply Permutation_length, merge_sort_Permutation.
Qed.

Lemma eligible_ids_elem (t : tables) (id : Z) :
  id ∈ eligible_ids t ↔ ∃ r, r ∈ eligible_records t ∧ news_id r = id.
Proof.
  unfold eligible_ids, select_eligible, eligible_records.
  rewrite map_map, list_elem_of_fmap. cbn [fst]. split.
  - intros (r & -> & Hr). rewrite merge_sort_Permutation in Hr. by exists r.
  - intros (r & Hr & <-). exists r. split; [done |].
    by rewrite merge_sort_Permutation.
Qed.

Lemma select_eligible_nil (t : tables) :
  select_eligible t = [] ↔ eligible_records t = [].
Proof.
  rewrite <- !length_zero_iff_nil, select_eligible_length. done.
Qed.

(** What [crawl_news] leaves and returns when its SELECT goes through. *)
Lemma crawl_news_shape self tws t t' out :
  crawl_news self tws None t = (t', out) →
  ∃ extra,
    crawled_news t' = crawled_news t ++ extra
    ∧ Forall (fun row => content_news_id row ∈ eligible_ids t) extra
    ∧ length (naver_news t') = length (naver_news t)
    ∧ (∀ (k : nat) r, naver_news t !! k = Some r →
                      news_id r ∉ eligible_ids t →
                      naver_news t' !! k = Some r)
    ∧ (∀ s f, out = Returned (s, f) →
              0 ≤ s ∧ 0 ≤ f
              ∧ s + f = Z.of_nat (length (select_eligible t))
              ∧ Z.of_nat (length extra) ≤ s)
    ∧ (0 < max_workers self ∨ select_eligible t = [] →
       (∀ id, id ∈ eligible_ids t → task_returns (tws id)) →
       ∃ s f, out = Returned (s, f))
    ∧ (max_workers self ≤ 0 → select_eligible t ≠ [] →
       t' = t ∧ out = Raised OtherException).
Proof.
  unfold crawl_news, eligible_ids.
  destruct (select_eligible t) as [|d l] eqn:Hsel.
  - cbn [not_empty]. intros [= <- <-]. exists []. rewrite app_nil_r.
    split_and!; try done.
    + intros s f [= <- <-]. cbn [length]. lia.
    + intros _ _. by exists 0, 0.
  - cbn [not_empty]. destruct (Z.leb_spec (max_workers self) 0) as [Hw|Hw].
    + intros [= <- <-]. exists []. rewrite app_nil_r.
      split_and!; try done. intros [? | ?]; [lia | done].
    + destruct (run_tasks_shape self tws (d :: l) t)
        as (t1 & results & extra & -> & Hn & Hc & He & Hids & Hl & Hk & Hall).
      intros [= <- <-]. exists extra. split_and!; try done.
      * intros s f Ht. apply tally_returned in Ht as [Hs Hsum].
        assert (successes results ≤ length results)%nat
          by apply length_filter.
        cbn [length] in *. split_and!; lia.
      * intros _ Hret. by apply tally_returns, Hall.
      * lia.
Qed.

(** A pass sorts the pending records into the filtered ones and the ones
    the crawl selects. *)
Lemma pass_splits_pending w self t (l : list article) :
  unique_ids t →
  (∀ r, r ∈ l → r ∈ naver_news t) →
  (length (filter (fun r => crawl_status r = pending
                            ∧ _is_url_filtered w self (url r) = true) l)
   + length (filter (fun r => crawl_status r = pending
                              ∧ is_Some (url_filter_version r))
               (map (classified w self t) l))
   = length (filter (fun r => crawl_status r = pending) l))%nat.
Proof.
  intros Hu. induction l as [|r l IH]; intros Hin; [done |].
  assert (Hr : r ∈ naver_news t) by (apply Hin, elem_of_cons; by left).
  assert (Hl : ∀ r', r' ∈ l → r' ∈ naver_news t)
    by (intros r' Hr'; apply Hin, elem_of_cons; by right).
  specialize (IH Hl). cbn [map]. rewrite !filter_cons.
  destruct (decide (crawl_status r = pending)) as [Hp | Hp].
  - destruct (_is_url_filtered w self (url r)) eqn:Hf.
    + rewrite (classified_filtered w self t r Hu Hr Hp Hf).
      rewrite decide_True by done.
      rewrite (decide_False (P := _ ∧ _)) by (by intros [? _]).
      cbn [length]. lia.
    + rewrite (classified_passed w self t r Hu Hr Hp Hf).
      rewrite (decide_False (P := _ ∧ _)) by (by intros [_ ?]).
      rewrite decide_True by (split; [done | by eexists]).
      cbn [length]. lia.
  - rewrite (classified_not_pending w self t r Hu Hr Hp).
    rewrite (decide_False (P := _ ∧ _)) by (by intros [? _]).
    rewrite (decide_False (P := _ ∧ _)) by (by intros [? _]).
    exact IH.
Qed.

End RunFacts.

(** ** Properties of [crawl_news] and [run] *)

Module RunMore.
Import PyStr Store Crawler Race Notions MoreNotions CrawlNotions StoreFacts
  ClassifierFacts ClassifierMoreFacts CrawlFacts EndingFacts RunFacts.

(** X26.  When its SELECT goes through and no selected task raises (each
    gets its connection and its cursor, and the rollback of its handler
    works): with a pool of at least one worker, or with nothing selected,
    [crawl_news] returns, and its two counts add up to the number of records
    that were pending with a filter version, every selected record counted
    once, as a success or as a failure; with a pool of no worker and
    something selected it raises and leaves the tables as they were.  The
    pool is the one of [run_tasks]. *)
Theorem crawl_news_counts_every_selected self tws t :
  (∀ id, id ∈ eligible_ids t → task_returns (tws id)) →
  (0 < max_workers self ∨ eligible_records t = [] →
   ∃ success_count failed_count,
     snd (crawl_news self tws None t)
     = Returned (success_count, failed_count)
     ∧ 0 ≤ success_count ∧ 0 ≤ failed_count
     ∧ success_count + failed_count
       = Z.of_nat (length (eligible_records t)))
  ∧ (max_workers self ≤ 0 → eligible_records t ≠ [] →
     crawl_news self tws None t = (t, Raised OtherException)).
Proof.
  intros Hret.
  destruct (crawl_news self tws None t) as [t' out] eqn:E.
  destruct (crawl_news_shape self tws t t' out E)
    as (extra & _ & _ & _ & _ & Hcount & Hreturns & Hraises).
  rewrite select_eligible_nil in Hreturns, Hraises. cbn [snd]. split.
  - intros Hw. destruct (Hreturns Hw Hret) as (s & f & ->).
    exists s, f. destruct (Hcount s f eq_refl) as (Hs & Hf & Hsum & _).
    rewrite <- select_eligible_length. by split_and!.
  - intros Hw Hne. by destruct (Hraises Hw Hne) as [-> ->].
Qed.

Lemma crawl_news_counts_every_selected_witness :
  (0 < max_workers Sample.crawler ∨ eligible_records mixed_store = [] →
   ∃ success_count failed_count,
     snd (crawl_news Sample.crawler (fun _ => Sample.clean_task) None
            mixed_store)
     = Returned (success_count, failed_count)
     ∧ 0 ≤ success_count ∧ 0 ≤ failed_count
     ∧ success_count + failed_count
       = Z.of_nat (length (eligible_records mixed_store)))
  ∧ (max_workers Sample.crawler ≤ 0 → eligible_records mixed_store ≠ [] →
     crawl_news Sample.crawler (fun _ => Sample.clean_task) None mixed_store
     = (mixed_store, Raised OtherException)).
Proof.
  apply (crawl_news_counts_every_selected Sample.crawler
           (fun _ => Sample.clean_task) mixed_store).
  intros id _. repeat split; reflexivity.
Defined.

(** The two ways [crawl_news] raises after its SELECT: a pool of no
    worker, and a task that raises; the tasks of the pool have run by
    then. *)
Example pool_without_worker_raises :
  crawl_news idle_crawler (fun _ => Sample.clean_task) None mixed_store
  = (mixed_store, Raised OtherException).
Proof. vm_compute. reflexivity. Qed.

Example raising_task_raises :
  crawl_news Sample.crawler (fun _ => broken_task) None mixed_store
  = (mixed_store, Raised OtherException).
Proof. vm_compute. reflexivity. Qed.

(** X27.  [crawl_news] only adds to [crawled_news], whether it returns or
    raises: the rows that were there stay, and the new rows are rows of
    selected records; when it returns, there are no more new rows than
    successes counted. *)
Theorem crawl_news_rows_follow_successes self tws select_fault t :
  ∃ extra,
    crawled_news (fst (crawl_news self tws select_fault t))
    = crawled_news t ++ extra
    ∧ Forall (fun row => content_news_id row ∈ eligible_ids t) extra
    ∧ ∀ success_count failed_count,
        snd (crawl_news self tws select_fault t)
        = Returned (success_count, failed_count) →
        Z.of_nat (length extra) ≤ success_count.
Proof.
  destruct select_fault as [e|].
  { exists []. cbn [crawl_news fst snd]. rewrite app_nil_r.
    split_and!; done. }
  destruct (crawl_news self tws None t) as [t' out] eqn:E.
  destruct (crawl_news_shape self tws t t' out E)
    as (extra & Hc & Hids & _ & _ & Hcount & _).
  exists extra. cbn [fst snd]. split_and!; try done.
  intros s f ->. by destruct (Hcount s f eq_refl) as (_ & _ & _ & ?).
Qed.

(** X28.  [crawl_news] writes no record it has not selected: a record
    whose id is not the id of a selected record is after the crawl what it
    was before, in the same place, whether the SELECT fails or not. *)
Theorem crawl_news_leaves_unselected self tws select_fault t (k : nat) r :
  naver_news t !! k = Some r →
  news_id r ∉ eligible_ids t →
  naver_news (fst (crawl_news self tws select_fault t)) !! k = Some r.
Proof.
  intros Hk Hid. destruct select_fault as [e|]; [done |].
  destruct (crawl_news self tws None t) as [t' out] eqn:E.
  destruct (crawl_news_shape self tws t t' out E)
    as (extra & _ & _ & _ & Hfr & _).
  by apply Hfr.
Qed.

Lemma crawl_news_leaves_unselected_witness :
  naver_news (fst (crawl_news Sample.crawler (fun _ => Sample.clean_task)
                     None mixed_store)) !! 1%nat
  = Some Sample.crawled_article.
Proof.
  apply (crawl_news_leaves_unselected Sample.crawler
           (fun _ => Sample.clean_task) None mixed_store 1%nat
           Sample.crawled_article).
  - reflexivity.
  - apply (bool_decide_unpack _). vm_compute. exact I.
Defined.

(** X29.  A filter pass that raises ends the run: [run] raises the same
    exception, the crawl is not started, and the tables are as they
    were. *)
Theorem failed_pass_aborts_run w self tws select_fault t e :
  snd (filter_urls w self t) = Raised e →
  run w self tws select_fault t = (t, Raised e).
Proof.
  unfold run.
  destruct (filter_urls_cases w self t) as [(e' & op & -> & _)|[-> _]].
  - by intros [= ->].
  - done.
Qed.

Lemma failed_pass_aborts_run_witness :
  run Sample.failing_world Sample.failing_crawler
    (fun _ => Sample.clean_task) None Sample.store0
  = (Sample.store0, Raised OtherException).
Proof.
  apply (failed_pass_aborts_run Sample.failing_world Sample.failing_crawler
           (fun _ => Sample.clean_task) None Sample.store0 OtherException).
  vm_compute. reflexivity.
Defined.

(** X30.  With ids that are keys, no fault in the filter pass and the
    SELECT of the crawl, a pool of at least one worker and tasks that do
    not raise, [run] returns and accounts for every record that was pending
    when it started: the filtered, the success and the failed counts of its
    summary add up to the number of those records. *)
Theorem run_accounts_for_every_pending w self tws t :
  no_filter_fault w →
  unique_ids t →
  0 < max_workers self →
  (∀ id, task_returns (tws id)) →
  ∃ filtered_count success_count failed_count,
    snd (run w self tws None t)
    = Returned (filtered_count, success_count, failed_count)
    ∧ filtered_count + success_count + failed_count
      = Z.of_nat (length (pending_records t)).
Proof.
  intros Hn Hu Hw Hret. unfold run. rewrite (filter_urls_returned w self t Hn).
  destruct (crawl_news self tws None (pass_effect w self t)) as [t' out] eqn:E.
  destruct (crawl_news_shape self tws _ t' out E)
    as (extra & _ & _ & _ & _ & Hcount & Hreturns & _).
  destruct (Hreturns (or_introl Hw) (fun id _ => Hret id)) as (s & f & ->).
  destruct (Hcount s f eq_refl) as (_ & _ & Hsum & _).
  exists (Z.of_nat (length (fst (pass_ids w self t)))), s, f.
  split; [done |].
  rewrite select_eligible_length in Hsum. unfold eligible_records in Hsum.
  rewrite pass_effect_rows in Hsum.
  pose proof (pass_splits_pending w self t (naver_news t) Hu (fun r H => H))
    as Hsplit.
  rewrite filtered_count. unfold pending_records. lia.
Qed.

Lemma run_accounts_for_every_pending_witness :
  ∃ filtered_count success_count failed_count,
    snd (run Sample.classifier_world Sample.crawler
           (fun _ => Sample.clean_task) None Sample.store0)
    = Returned (filtered_count, success_count, failed_count)
    ∧ filtered_count + success_count + failed_count
      = Z.of_nat (length (pending_records Sample.store0)).
Proof.
  apply (run_accounts_for_every_pending Sample.classifier_world Sample.crawler
           (fun _ => Sample.clean_task) Sample.store0).
  - intros op. reflexivity.
  - apply (bool_decide_unpack _). vm_compute. exact I.
  - reflexivity.
  - intros id. repeat split; reflexivity.
Defined.

End RunMore.
